(** * GD32H7xx demo suites: USB host MSC demo, Ethernet raw web server glue,
      and the FreeRTOS Ethernet interrupt file

    The development embeds three translation units of the demo suites:

    - [UsbhUsr]  : usbh_usr.c, the user layer of the USB mass-storage host
                   demo (the demo state machine and the disk traversal);
    - [Netconf]  : netconf.c, the lwIP timer pump and the DHCP polling
                   state machine of the raw web server demo;
    - [It]       : gd32h7xx_it.c, the fault stubs and the Ethernet receive
                   interrupt relay of the FreeRTOS demo.

    Vendor drivers, FatFs, lwIP and FreeRTOS are outside the translation
    units; their calls appear as oracle results of an environment record, as
    logged calls, or as events of an interaction tree. *)

From Stdlib Require Import ZArith List String Ascii Bool Lia Arith.
From ITree Require Import ITree ITreeFacts Events.State Events.StateFacts.
From Paco Require Import paco.
Import ListNotations.

Local Open Scope string_scope.
Local Open Scope Z_scope.

(** ** Shared C vocabulary *)

(** [FlagStatus] of gd32h7xx.h: [RESET = 0], [SET = !RESET]. *)
Inductive FlagStatus : Set := RESET | SET.

Definition FlagStatus_eqb (a b : FlagStatus) : bool :=
  match a, b with
  | RESET, RESET | SET, SET => true
  | _, _ => false
  end.

(** Wrap-around of the unsigned C integer types. *)
Definition uint8 (z : Z) : Z := z mod 256.
Definition uint32 (z : Z) : Z := z mod 4294967296.

(** The two characters of the C escape sequence [\r\n], and [\n]. *)
Definition LF : string := String (ascii_of_nat 10) EmptyString.
Definition CRLF : string := String (ascii_of_nat 13) LF.

(* ====================================================================== *)
(** ** usbh_usr.c *)
(* ====================================================================== *)

Module UsbhUsr.

(** Values of [usbh_usr_application_state].  The variable is a [uint8_t]
    that the file only ever assigns these four constants; [USBH_USR_FS_OTHER]
    stands for any other byte, which the [switch] sends to [default]. *)
Inductive usbh_usr_state : Set :=
| USBH_USR_FS_INIT
| USBH_USR_FS_READLIST
| USBH_USR_FS_WRITEFILE
| USBH_USR_FS_DEMOEND
| USBH_USR_FS_OTHER (v : Z).

(** FatFs: [FRESULT] is an enumeration whose zero is [FR_OK]; [AM_DIR] is
    the directory attribute bit 0x10 of [FILINFO.fattrib]. *)
Definition FRESULT := Z.
Definition FR_OK : FRESULT := 0.
Definition AM_DIR : Z := 16.

Record FILINFO : Set := mkFILINFO {
  fattrib : Z;
  fname : string
}.

Inductive key_typedef_enum : Set := KEY_WAKEUP | KEY_TAMPER.
Inductive keymode_typedef_enum : Set := KEY_MODE_GPIO | KEY_MODE_EXTI.
Inductive led_typedef_enum : Set := LED1 | LED2.
Inductive lcd_hint_line : Set := LCD_HINT_LINE0 | LCD_HINT_LINE1 | LCD_HINT_LINE2.
Inductive lcd_color : Set := LCD_COLOR_RED | LCD_COLOR_GREEN.

(** Calls into the board support package and the log console, in the order
    they are made (the newest call is the head of the trace). *)
Inductive event : Set :=
| LCD_UsrLog (msg : string)
| LCD_UsrLog_capacity (bytes : Z)
| LCD_ErrLog (msg : string)
| gd_eval_led_init (led : led_typedef_enum)
| gd_eval_led_toggle (led : led_typedef_enum)
| gd_eval_key_init (k : key_typedef_enum) (m : keymode_typedef_enum)
| gd_eval_lcd_init
| lcd_log_init
| lcd_log_header_set (msg : string) (pos : Z)
| lcd_log_footer_set (msg : string) (pos : Z)
| gd_eval_com_init
| lcd_text_color_set (c : lcd_color)
| lcd_vertical_string_display (line : lcd_hint_line) (offset : Z) (msg : string)
| usb_mdelay (ms : Z).

(** Compile-time switches of the translation unit. *)
Record Config : Set := mkConfig {
  USE_LCD : bool;
  USE_ULPI_PHY : bool
}.

(** [f_write] and [f_read] return their byte count through a [UINT *],
    and the file passes them the addresses of [bytesWritten] and of
    [bytesRead], two [uint16_t] variables, cast to a void pointer.  Where
    [UINT] is wider than 16 bits the store of the count also overwrites the
    bytes that lie behind the variable; which of the file's other variables
    the linker placed there is fixed per build.  A [spill] names such a
    variable together with the value it holds when the call returns. *)
Inductive spill : Set :=
| spill_usbh_usr_application_state (v : usbh_usr_state)
| spill_line_idx (v : Z)
| spill_res (v : FRESULT)
| spill_startup (v : Z)
| spill_toggle_i (v : Z)
| spill_bytesWritten (v : Z)
| spill_bytesToWrite (v : Z)
| spill_bytesRead (v : Z)
| spill_ReadTextBuff (v : string).

(** What the outside world answers during one run.  Hardware inputs that
    are polled in a loop are indexed by the number of the poll ([clock]);
    the FatFs results are those of the calls the file makes ([f_write] and
    [f_read] give the result code with the byte count the 16-bit variable
    holds afterwards, [f_read] also the buffer).  A directory object is its
    path and the number of entries read so far: [f_readdir path n] is the
    answer to the n-th read of that listing.  [f_write_spill] and
    [f_read_spill] are the variables of the file that the count stored by
    [f_write] and by [f_read] overwrites beside its own, in the order of the
    stores; they are empty in a build that keeps the file's variables clear
    of the four bytes at [&bytesWritten] and at [&bytesRead]. *)
Record Env : Type := mkEnv {
  connect_status : nat -> bool;
  gd_eval_key_state_get : key_typedef_enum -> nat -> FlagStatus;
  f_mount : FRESULT;
  usbh_msc_lun_info_get : option (Z * Z);
  f_opendir : string -> FRESULT;
  f_readdir : string -> nat -> FRESULT * FILINFO;
  f_open_write : FRESULT;
  f_write : FRESULT * Z;
  f_open_read : FRESULT;
  f_read : FRESULT * Z * string;
  f_write_spill : list spill;
  f_read_spill : list spill
}.

(** The globals and function statics of usbh_usr.c, the poll counter, the
    trace of calls, and two ghost fields that record the nesting of
    [explore_disk]: the current call depth and, for every entry into the
    function, its arguments and the depth it runs at. *)
Record state : Type := mkState {
  usbh_usr_application_state : usbh_usr_state;
  line_idx : Z;
  res : FRESULT;
  startup : Z;
  toggle_i : Z;
  bytesWritten : Z;
  bytesToWrite : Z;
  bytesRead : Z;
  ReadTextBuff : string;
  clock : nat;
  trace : list event;
  stack_depth : nat;
  calls : list (string * Z * nat)
}.

Definition WriteTextBuff : string :=
  "GD32 USB Host Demo application using FAT_FS   ".

Definition MSG_HOST_HEADER : string := "USBFS & USBHS MSC Host".
Definition MSG_HOST_FOOTER : string := "USB Host Library v3.0.0".

(** The initial values C gives the globals. *)
Definition init_state : state :=
  mkState USBH_USR_FS_INIT 0 0 0 0 0 0 0 EmptyString 0%nat [] 0%nat [].

Definition set_application_state (v : usbh_usr_state) (s : state) : state :=
  mkState v (line_idx s) (res s) (startup s) (toggle_i s) (bytesWritten s)
    (bytesToWrite s) (bytesRead s) (ReadTextBuff s) (clock s) (trace s)
    (stack_depth s) (calls s).

Definition set_line_idx (v : Z) (s : state) : state :=
  mkState (usbh_usr_application_state s) v (res s) (startup s) (toggle_i s)
    (bytesWritten s) (bytesToWrite s) (bytesRead s) (ReadTextBuff s) (clock s)
    (trace s) (stack_depth s) (calls s).

Definition set_res (v : FRESULT) (s : state) : state :=
  mkState (usbh_usr_application_state s) (line_idx s) v (startup s) (toggle_i s)
    (bytesWritten s) (bytesToWrite s) (bytesRead s) (ReadTextBuff s) (clock s)
    (trace s) (stack_depth s) (calls s).

Definition set_startup (v : Z) (s : state) : state :=
  mkState (usbh_usr_application_state s) (line_idx s) (res s) v (toggle_i s)
    (bytesWritten s) (bytesToWrite s) (bytesRead s) (ReadTextBuff s) (clock s)
    (trace s) (stack_depth s) (calls s).

Definition set_toggle_i (v : Z) (s : state) : state :=
  mkState (usbh_usr_application_state s) (line_idx s) (res s) (startup s) v
    (bytesWritten s) (bytesToWrite s) (bytesRead s) (ReadTextBuff s) (clock s)
    (trace s) (stack_depth s) (calls s).

Definition set_bytesWritten (v : Z) (s : state) : state :=
  mkState (usbh_usr_application_state s) (line_idx s) (res s) (startup s)
    (toggle_i s) v (bytesToWrite s) (bytesRead s) (ReadTextBuff s) (clock s)
    (trace s) (stack_depth s) (calls s).

Definition set_bytesToWrite (v : Z) (s : state) : state :=
  mkState (usbh_usr_application_state s) (line_idx s) (res s) (startup s)
    (toggle_i s) (bytesWritten s) v (bytesRead s) (ReadTextBuff s) (clock s)
    (trace s) (stack_depth s) (calls s).

Definition set_read (n : Z) (buf : string) (s : state) : state :=
  mkState (usbh_usr_application_state s) (line_idx s) (res s) (startup s)
    (toggle_i s) (bytesWritten s) (bytesToWrite s) n buf (clock s)
    (trace s) (stack_depth s) (calls s).

(** The stores of a count that reach beyond the variable it is meant for. *)
Definition apply_spill (s : state) (p : spill) : state :=
  match p with
  | spill_usbh_usr_application_state v => set_application_state v s
  | spill_line_idx v => set_line_idx v s
  | spill_res v => set_res v s
  | spill_startup v => set_startup v s
  | spill_toggle_i v => set_toggle_i v s
  | spill_bytesWritten v => set_bytesWritten v s
  | spill_bytesToWrite v => set_bytesToWrite v s
  | spill_bytesRead v => set_read v (ReadTextBuff s) s
  | spill_ReadTextBuff v => set_read (bytesRead s) v s
  end.

Definition spills (l : list spill) (s : state) : state := fold_left apply_spill l s.

(** One more poll of the hardware inputs has been made. *)
Definition tick (s : state) : state :=
  mkState (usbh_usr_application_state s) (line_idx s) (res s) (startup s)
    (toggle_i s) (bytesWritten s) (bytesToWrite s) (bytesRead s)
    (ReadTextBuff s) (S (clock s)) (trace s) (stack_depth s) (calls s).

Definition emit (e : event) (s : state) : state :=
  mkState (usbh_usr_application_state s) (line_idx s) (res s) (startup s)
    (toggle_i s) (bytesWritten s) (bytesToWrite s) (bytesRead s)
    (ReadTextBuff s) (clock s) (e :: trace s) (stack_depth s) (calls s).

(** Ghost: entry into and return from [explore_disk]. *)
Definition enter (path : string) (recu_level : Z) (s : state) : state :=
  mkState (usbh_usr_application_state s) (line_idx s) (res s) (startup s)
    (toggle_i s) (bytesWritten s) (bytesToWrite s) (bytesRead s)
    (ReadTextBuff s) (clock s) (trace s) (S (stack_depth s))
    ((path, recu_level, S (stack_depth s)) :: calls s).

Definition leave (s : state) : state :=
  mkState (usbh_usr_application_state s) (line_idx s) (res s) (startup s)
    (toggle_i s) (bytesWritten s) (bytesToWrite s) (bytesRead s)
    (ReadTextBuff s) (clock s) (trace s) (Nat.pred (stack_depth s)) (calls s).

(** [fno.fname[0]] tests of [explore_disk]. *)
Definition fname_is_empty (fno : FILINFO) : bool :=
  match fname fno with
  | EmptyString => true
  | String _ _ => false
  end.

Definition fname_is_dot (fno : FILINFO) : bool :=
  match fname fno with
  | EmptyString => false
  | String c _ => Ascii.eqb c "."%char
  end.

(** [strncmp(a, b, n) == 0] on buffers that hold no NUL before their end. *)
Fixpoint strncmp_eq (a b : string) (n : nat) : bool :=
  match n with
  | O => true
  | S n' =>
    match a, b with
    | EmptyString, EmptyString => true
    | String x a', String y b' => Ascii.eqb x y && strncmp_eq a' b' n'
    | _, _ => false
    end
  end.

Section Model.

Variable cfg : Config.
Variable env : Env.

(** [usbh_user_init]: the body runs while the static [startup] is 0. *)
Definition usbh_user_init (s : state) : state :=
  if startup s =? 0 then
    let s := set_startup 1 s in
    let s := if USE_ULPI_PHY cfg
             then emit (gd_eval_led_init LED2) (emit (gd_eval_led_init LED1) s)
             else s in
    let s := emit (gd_eval_key_init KEY_TAMPER KEY_MODE_GPIO) s in
    let s := emit (gd_eval_key_init KEY_WAKEUP KEY_MODE_GPIO) s in
    if USE_LCD cfg then
      let s := emit gd_eval_lcd_init s in
      let s := emit lcd_log_init s in
      let s := emit (lcd_log_header_set MSG_HOST_HEADER 50) s in
      let s := emit (LCD_UsrLog ("USB host library started" ++ LF)) s in
      emit (lcd_log_footer_set MSG_HOST_FOOTER 40) s
    else
      let s := emit gd_eval_com_init s in
      emit (LCD_UsrLog (CRLF ++ "++++USB host library started++++" ++ CRLF)) s
  else s.

Definition usbh_user_deinit (s : state) : state :=
  set_application_state USBH_USR_FS_INIT s.

(** [toggle_leds]: compiled to nothing unless [USE_ULPI_PHY]; otherwise the
    static counter [i] is compared, then incremented, and reset on a hit. *)
Definition toggle_leds (s : state) : state :=
  if USE_ULPI_PHY cfg then
    let i := toggle_i s in
    let s := set_toggle_i (uint32 (i + 1)) s in
    if i =? 65536 then
      set_toggle_i 0 (emit (gd_eval_led_toggle LED2) (emit (gd_eval_led_toggle LED1) s))
    else s
  else s.

(** The polling loops
    [while (connect_status && (v == gd_eval_key_state_get(k))) toggle_leds();]
    Every evaluation of the loop condition is one poll. *)
Fixpoint poll_key (fuel : nat) (k : key_typedef_enum) (v : FlagStatus)
    (s : state) : option state :=
  match fuel with
  | O => None
  | S fuel' =>
    if connect_status env (clock s)
       && FlagStatus_eqb v (gd_eval_key_state_get env k (clock s))
    then poll_key fuel' k v (toggle_leds (tick s))
    else Some (tick s)
  end.

(** The hint lines that differ between the LCD and the serial console. *)
Definition hint_lines (line1 line2 : string) (serial : list string) (s : state) : state :=
  if USE_LCD cfg then
    let s := emit (lcd_text_color_set LCD_COLOR_GREEN) s in
    let s := emit (lcd_vertical_string_display LCD_HINT_LINE1 0 line1) s in
    emit (lcd_vertical_string_display LCD_HINT_LINE2 0 line2) s
  else
    fold_left (fun s m => emit (LCD_UsrLog m) s) serial s.

(** Lines 516-534 of the loop body of [explore_disk]: count the line and,
    when the page of four lines is full, reset the count, show the hint and
    wait for the Tamper key. *)
Definition next_line (fuel : nat) (s : state) : option state :=
  let s := set_line_idx (uint8 (line_idx s + 1)) s in
  if line_idx s >? 4 then
    let s := set_line_idx 0 s in
    let s := hint_lines "                                "
                        "Press Tamper Key to continue"
                        [">>> Press Tamper Key to continue" ++ CRLF] s in
    poll_key fuel KEY_TAMPER SET s
  else Some s.

(** Lines 536-546: the indentation for the level, then the name (both
    branches of the [AM_DIR] test print the same line). *)
Definition print_entry (fno : FILINFO) (recu_level : Z) (s : state) : state :=
  let s := if recu_level =? 1 then emit (LCD_UsrLog "   |__") s
           else if recu_level =? 2 then emit (LCD_UsrLog "   |   |__") s
           else s in
  emit (LCD_UsrLog (fname fno ++ CRLF)) s.

(** Line 506: the listing ended or failed. *)
Definition readdir_stops (r : FRESULT * FILINFO) : bool :=
  negb (fst r =? FR_OK) || fname_is_empty (snd r).

(** Line 548: the test that guards the recursive call. *)
Definition descends (fno : FILINFO) (recu_level : Z) : bool :=
  (fattrib fno =? AM_DIR) && (recu_level =? 1).

(** [explore_disk], its [while] loop ([explore_loop]) and the part of the
    loop body that lists one entry ([explore_entry], from [fn = fno.fname]
    to the end of the body). *)
Fixpoint explore_disk (fuel : nat) (path : string) (recu_level : Z)
    (s : state) {struct fuel} : option (FRESULT * state) :=
  match fuel with
  | O => None
  | S fuel' =>
    let s := set_res (f_opendir env path) (enter path recu_level s) in
    if res s =? FR_OK then
      match explore_loop fuel' path 0%nat recu_level s with
      | Some s' => Some (res s', leave s')
      | None => None
      end
    else Some (res s, leave s)
  end
with explore_loop (fuel : nat) (path : string) (idx : nat) (recu_level : Z)
    (s : state) {struct fuel} : option state :=
  match fuel with
  | O => None
  | S fuel' =>
    if connect_status env (clock s) then
      let s := set_res (fst (f_readdir env path idx)) (tick s) in
      if readdir_stops (f_readdir env path idx) then Some s
      else if fname_is_dot (snd (f_readdir env path idx)) then
        explore_loop fuel' path (S idx) recu_level s
      else
        match explore_entry fuel' (snd (f_readdir env path idx)) recu_level s with
        | Some s' => explore_loop fuel' path (S idx) recu_level s'
        | None => None
        end
    else Some (tick s)
  end
with explore_entry (fuel : nat) (fno : FILINFO) (recu_level : Z)
    (s : state) {struct fuel} : option state :=
  match fuel with
  | O => None
  | S fuel' =>
    match next_line fuel' s with
    | None => None
    | Some s =>
      let s := print_entry fno recu_level s in
      if descends fno recu_level then
        match explore_disk fuel' (fname fno) 2 s with
        | Some (_, s') => Some s'
        | None => None
        end
      else Some s
    end
  end.

(** The file round trip of the [USBH_USR_FS_WRITEFILE] case, after the
    Wakeup key wait and up to the state assignment.  Each of [f_write] and
    [f_read] leaves its count in the variable whose address it was given
    and in the variables behind it; the assignment of the result to [res]
    comes after the call has returned. *)
Definition write_file (s : state) : state :=
  let s := emit (LCD_UsrLog ("> Writing File to disk flash ..." ++ CRLF)) s in
  if f_open_write env =? FR_OK then
    let s := emit (LCD_UsrLog ("> GD32.TXT be opened for write." ++ LF)) s in
    let s := set_bytesToWrite (Z.of_nat (String.length WriteTextBuff)) s in
    let s := spills (f_write_spill env) s in
    let s := set_bytesWritten (snd (f_write env)) (set_res (fst (f_write env)) s) in
    if (bytesWritten s =? 0) || negb (res s =? FR_OK) then
      emit (LCD_ErrLog ("> GD32.TXT CANNOT be written." ++ CRLF)) s
    else if f_open_read env =? FR_OK then
      let s := spills (f_read_spill env) s in
      let s := set_res (fst (fst (f_read env))) s in
      let s := set_read (snd (fst (f_read env))) (snd (f_read env)) s in
      if (bytesRead s =? 0) || negb (res s =? FR_OK) then
        emit (LCD_ErrLog ("> GD32.TXT CANNOT be read." ++ CRLF)) s
      else if (bytesRead s =? bytesWritten s)
              && strncmp_eq (ReadTextBuff s) WriteTextBuff (Z.to_nat (bytesRead s))
      then emit (LCD_UsrLog ("> File content compare: SUCCESS." ++ CRLF)) s
      else emit (LCD_ErrLog ("> File content compare: ERROR." ++ CRLF)) s
    else emit (LCD_ErrLog ("> GD32.TXT CANNOT be opened for read." ++ CRLF)) s
  else emit (LCD_ErrLog ("> GD32.TXT CANNOT be opened." ++ CRLF)) s.

(** [usbh_usr_msc_application]: the returned [int] and the new state. *)
Definition usbh_usr_msc_application (fuel : nat) (s : state) : option (Z * state) :=
  match usbh_usr_application_state s with
  | USBH_USR_FS_INIT =>
    if negb (f_mount env =? FR_OK) then
      Some (-1, emit (LCD_ErrLog ("> Cannot initialize File System." ++ CRLF)) s)
    else
      let s := emit (LCD_UsrLog ("> File System initialized." ++ CRLF)) s in
      let s := match usbh_msc_lun_info_get env with
               | Some (block_nbr, block_size) =>
                 emit (LCD_UsrLog_capacity (block_nbr * block_size)) s
               | None => s
               end in
      Some (0, set_application_state USBH_USR_FS_READLIST s)
  | USBH_USR_FS_READLIST =>
    let s := emit (LCD_UsrLog ("> Exploring disk flash ..." ++ CRLF)) s in
    let s := hint_lines "To see the root content of disk"
                        "Press Tamper Key...            "
                        [">>> To see the root content of disk " ++ CRLF;
                         ">>> Press Tamper Key..." ++ CRLF] s in
    match poll_key fuel KEY_TAMPER SET s with
    | None => None
    | Some s =>
      match explore_disk fuel "0:/" 1 s with
      | None => None
      | Some (_, s) =>
        let s := set_line_idx 0 s in
        Some (0, set_application_state USBH_USR_FS_WRITEFILE s)
      end
    end
  | USBH_USR_FS_WRITEFILE =>
    let s := emit (usb_mdelay 100) s in
    let s := hint_lines "                                  "
                        "Press Wakeup Key to write file"
                        [">>> Press Wakeup Key to write file" ++ CRLF] s in
    match poll_key fuel KEY_WAKEUP RESET s with
    | None => None
    | Some s =>
      let s := write_file s in
      let s := set_application_state USBH_USR_FS_DEMOEND s in
      Some (0, emit (LCD_UsrLog ("> The MSC host demo is end." ++ CRLF)) s)
    end
  | USBH_USR_FS_DEMOEND => Some (0, s)
  | USBH_USR_FS_OTHER _ => Some (0, s)
  end.

End Model.

Arguments next_line : simpl never.
Arguments print_entry : simpl never.
Arguments hint_lines : simpl never.
Arguments toggle_leds : simpl never.
Arguments readdir_stops : simpl never.
Arguments descends : simpl never.
Arguments write_file : simpl never.

(** *** Concrete worlds used to exercise the model *)

(** A finite listing: the reads return the entries of [l] in order and then
    the end mark (an empty name). *)
Definition listing (l : list FILINFO) (n : nat) : FRESULT * FILINFO :=
  match nth_error l n with
  | Some fno => (FR_OK, fno)
  | None => (FR_OK, mkFILINFO 0 EmptyString)
  end.

Definition file (name : string) : FILINFO := mkFILINFO 32 name.
Definition directory (name : string) : FILINFO := mkFILINFO AM_DIR name.

(** A stick with two dot entries, one directory and a file in the root, and
    a directory and a file inside that directory.  The user holds both keys
    in the state that ends the waits. *)
Definition demo_dirs (path : string) : list FILINFO :=
  if String.eqb path "0:/" then
    [file "."; file ".Trash"; directory "DOCS"; file "README.TXT"]
  else if String.eqb path "DOCS" then
    [directory "OLD"; file "NOTES.TXT"]
  else [].

Definition demo_env : Env :=
  mkEnv (fun _ => true)
        (fun k _ => match k with KEY_TAMPER => RESET | KEY_WAKEUP => SET end)
        FR_OK (Some (1000, 512))
        (fun _ => FR_OK) (fun path => listing (demo_dirs path))
        FR_OK (FR_OK, 46) FR_OK (FR_OK, 46, WriteTextBuff) [] [].

(** The same stick when the file system cannot be mounted. *)
Definition unmountable_env : Env :=
  mkEnv (fun _ => true)
        (fun k _ => match k with KEY_TAMPER => RESET | KEY_WAKEUP => SET end)
        3 None
        (fun _ => FR_OK) (fun path => listing (demo_dirs path))
        FR_OK (FR_OK, 46) FR_OK (FR_OK, 46, WriteTextBuff) [] [].

(** A stick with five files in the root, a device that stays connected and a
    user who never presses the Tamper key. *)
Definition five_files : list FILINFO :=
  [file "A.TXT"; file "B.TXT"; file "C.TXT"; file "D.TXT"; file "E.TXT"].

Definition idle_user_env : Env :=
  mkEnv (fun _ => true)
        (fun _ _ => SET)
        FR_OK None
        (fun _ => FR_OK)
        (fun path => listing (if String.eqb path "0:/" then five_files else []))
        FR_OK (FR_OK, 46) FR_OK (FR_OK, 46, WriteTextBuff) [] [].

Definition serial_cfg : Config := mkConfig false false.
Definition lcd_cfg : Config := mkConfig true true.

Definition in_state (v : usbh_usr_state) : state := set_application_state v init_state.


(** The states the demo world leaves behind, computed once. *)
Definition result_state (o : option (Z * state)) : state :=
  match o with
  | Some (_, s) => s
  | None => init_state
  end.

Definition demo_listed : state :=
  Eval vm_compute in
    result_state (usbh_usr_msc_application serial_cfg demo_env 20
                    (in_state USBH_USR_FS_READLIST)).

Definition demo_listed_lcd : state :=
  Eval vm_compute in
    result_state (usbh_usr_msc_application lcd_cfg demo_env 20
                    (set_line_idx 4 (in_state USBH_USR_FS_READLIST))).

Definition demo_explored : state :=
  Eval vm_compute in
    result_state (explore_disk lcd_cfg demo_env 20 "0:/" 1 init_state).

Definition unmountable_failed : state :=
  Eval vm_compute in
    result_state (usbh_usr_msc_application serial_cfg unmountable_env 0
                    (in_state USBH_USR_FS_INIT)).


End UsbhUsr.

(* ====================================================================== *)
(** ** netconf.c *)
(* ====================================================================== *)

Module Netconf.

Definition DHCP_TRIES_MAX_TIMES : Z := 3.

Inductive dhcp_addr_status_enum : Set :=
| DHCP_ADDR_NONE
| DHCP_ADDR_BEGIN
| DHCP_ADDR_GOT
| DHCP_ADDR_FAIL.

(** Modelled from the spec: the lwIP timer periods in milliseconds.  The
    lwIP headers are not part of the translation unit; the comments of
    [lwip_timeouts_check] give 250 ms, 1 s, 500 ms and 60 s. *)
Definition TCP_TMR_INTERVAL : Z := 250.
Definition ARP_TMR_INTERVAL : Z := 1000.
Definition DHCP_FINE_TIMER_MSECS : Z := 500.
Definition DHCP_COARSE_TIMER_MSECS : Z := 60000.

(** The two interfaces, [g_mynetif0] and [g_mynetif1]. *)
Inductive netif_id : Set := g_mynetif0 | g_mynetif1.

(** The part of lwIP the file talks to.  [stack] is everything lwIP owns
    (interfaces, DHCP clients, protocol control blocks); the timer and DHCP
    entry points transform it, and two readers give the fields the file
    looks at: [netif->ip_addr.addr] and [netif_dhcp_data(netif)->tries]. *)
Record lwip_api : Type := mkLwip {
  stack : Type;
  tcp_tmr : stack -> stack;
  etharp_tmr : stack -> stack;
  dhcp_fine_tmr : stack -> stack;
  dhcp_coarse_tmr : stack -> stack;
  dhcp_start : netif_id -> stack -> stack;
  dhcp_stop : netif_id -> stack -> stack;
  netif_set_addr : netif_id -> Z -> Z -> Z -> stack -> stack;
  netif_ip_addr : netif_id -> stack -> Z;
  netif_dhcp_tries : netif_id -> stack -> Z;
  IP4_ADDR : Z -> Z -> Z -> Z -> Z
}.

(** Compile-time switches and the board address macros of main.h. *)
Record Config : Set := mkConfig {
  LWIP_TCP : bool;
  USE_DHCP : bool;
  USE_ENET0 : bool;
  USE_ENET1 : bool;
  BOARD_IP_ADDR : Z * Z * Z * Z;
  BOARD_NETMASK_ADDR : Z * Z * Z * Z;
  BOARD_GW_ADDR : Z * Z * Z * Z
}.

(** Calls that leave the file, and the entry into [lwip_dhcp_address_get];
    the newest is the head of the log. *)
Inductive call : Set :=
| call_tcp_tmr
| call_etharp_tmr
| call_dhcp_fine_tmr
| call_dhcp_coarse_tmr
| call_lwip_dhcp_address_get
| call_dhcp_start (n : netif_id)
| call_dhcp_stop (n : netif_id)
| call_netif_set_addr (n : netif_id) (ipaddr netmask gw : Z)
| call_printf_ip (addr : Z).

Lemma call_eq_dec (a b : call) : {a = b} + {a <> b}.
Proof. repeat decide equality. Defined.

Section Model.

Variable api : lwip_api.
Variable cfg : Config.

(** The globals of netconf.c next to the lwIP state. *)
Record state : Type := mkState {
  tcpcurtime : Z;
  arpcurtime : Z;
  finecurtime : Z;
  coarsecurtime : Z;
  dhcp_addr_status : dhcp_addr_status_enum;
  ip_address : Z;
  lwip : stack api;
  log : list call
}.

Definition set_tcpcurtime (v : Z) (s : state) : state :=
  mkState v (arpcurtime s) (finecurtime s) (coarsecurtime s)
    (dhcp_addr_status s) (ip_address s) (lwip s) (log s).

Definition set_arpcurtime (v : Z) (s : state) : state :=
  mkState (tcpcurtime s) v (finecurtime s) (coarsecurtime s)
    (dhcp_addr_status s) (ip_address s) (lwip s) (log s).

Definition set_finecurtime (v : Z) (s : state) : state :=
  mkState (tcpcurtime s) (arpcurtime s) v (coarsecurtime s)
    (dhcp_addr_status s) (ip_address s) (lwip s) (log s).

Definition set_coarsecurtime (v : Z) (s : state) : state :=
  mkState (tcpcurtime s) (arpcurtime s) (finecurtime s) v
    (dhcp_addr_status s) (ip_address s) (lwip s) (log s).

Definition set_dhcp_addr_status (v : dhcp_addr_status_enum) (s : state) : state :=
  mkState (tcpcurtime s) (arpcurtime s) (finecurtime s) (coarsecurtime s)
    v (ip_address s) (lwip s) (log s).

Definition set_ip_address (v : Z) (s : state) : state :=
  mkState (tcpcurtime s) (arpcurtime s) (finecurtime s) (coarsecurtime s)
    (dhcp_addr_status s) v (lwip s) (log s).

(** Run an lwIP entry point and log the call. *)
Definition invoke (c : call) (f : stack api -> stack api) (s : state) : state :=
  mkState (tcpcurtime s) (arpcurtime s) (finecurtime s) (coarsecurtime s)
    (dhcp_addr_status s) (ip_address s) (f (lwip s)) (c :: log s).

Definition board_addr (a : Z * Z * Z * Z) : Z :=
  let '(a0, a1, a2, a3) := a in IP4_ADDR api a0 a1 a2 a3.

(** One of the two [switch] statements of [lwip_dhcp_address_get]. *)
Definition dhcp_switch (n : netif_id) (s : state) : state :=
  match dhcp_addr_status s with
  | DHCP_ADDR_NONE =>
    let s := invoke (call_dhcp_start n) (dhcp_start api n) s in
    set_dhcp_addr_status DHCP_ADDR_BEGIN s
  | DHCP_ADDR_BEGIN =>
    let s := set_ip_address (netif_ip_addr api n (lwip s)) s in
    if negb (ip_address s =? 0) then
      let s := set_dhcp_addr_status DHCP_ADDR_GOT s in
      invoke (call_printf_ip (ip_address s)) (fun l => l) s
    else if netif_dhcp_tries api n (lwip s) >? DHCP_TRIES_MAX_TIMES then
      let s := set_dhcp_addr_status DHCP_ADDR_FAIL s in
      let s := invoke (call_dhcp_stop n) (dhcp_stop api n) s in
      let gd_ipaddr := board_addr (BOARD_IP_ADDR cfg) in
      let gd_netmask := board_addr (BOARD_NETMASK_ADDR cfg) in
      let gd_gw := board_addr (BOARD_GW_ADDR cfg) in
      invoke (call_netif_set_addr n gd_ipaddr gd_netmask gd_gw)
             (netif_set_addr api n gd_ipaddr gd_netmask gd_gw) s
    else s
  | DHCP_ADDR_GOT | DHCP_ADDR_FAIL => s
  end.

Definition lwip_dhcp_address_get (s : state) : state :=
  let s := invoke call_lwip_dhcp_address_get (fun l => l) s in
  let s := if USE_ENET0 cfg then dhcp_switch g_mynetif0 s else s in
  if USE_ENET1 cfg then dhcp_switch g_mynetif1 s else s.

(** [curtime - recorded >= interval] on [uint32_t]. *)
Definition elapsed (curtime recorded interval : Z) : bool :=
  uint32 (curtime - recorded) >=? interval.

Definition lwip_timeouts_check (curtime : Z) (s : state) : state :=
  let s :=
    if LWIP_TCP cfg then
      if elapsed curtime (tcpcurtime s) TCP_TMR_INTERVAL then
        invoke call_tcp_tmr (tcp_tmr api) (set_tcpcurtime curtime s)
      else s
    else s in
  let s :=
    if elapsed curtime (arpcurtime s) ARP_TMR_INTERVAL then
      invoke call_etharp_tmr (etharp_tmr api) (set_arpcurtime curtime s)
    else s in
  if USE_DHCP cfg then
    let s :=
      if elapsed curtime (finecurtime s) DHCP_FINE_TIMER_MSECS then
        let s := invoke call_dhcp_fine_tmr (dhcp_fine_tmr api)
                   (set_finecurtime curtime s) in
        match dhcp_addr_status s with
        | DHCP_ADDR_GOT | DHCP_ADDR_FAIL => s
        | _ => lwip_dhcp_address_get s
        end
      else s in
    if elapsed curtime (coarsecurtime s) DHCP_COARSE_TIMER_MSECS then
      invoke call_dhcp_coarse_tmr (dhcp_coarse_tmr api) (set_coarsecurtime curtime s)
    else s
  else s.

(** The main loop drives the file through these two entry points. *)
Inductive entry : Set :=
| enter_lwip_timeouts_check (curtime : Z)
| enter_lwip_dhcp_address_get.

Definition run_entry (s : state) (e : entry) : state :=
  match e with
  | enter_lwip_timeouts_check curtime => lwip_timeouts_check curtime s
  | enter_lwip_dhcp_address_get => lwip_dhcp_address_get s
  end.

Definition run (es : list entry) (s : state) : state := fold_left run_entry es s.

(** The interface that the first compiled [switch] works on. *)
Definition first_netif : option netif_id :=
  if USE_ENET0 cfg then Some g_mynetif0
  else if USE_ENET1 cfg then Some g_mynetif1
  else None.

End Model.

Arguments tcpcurtime {api}.
Arguments arpcurtime {api}.
Arguments finecurtime {api}.
Arguments coarsecurtime {api}.
Arguments dhcp_addr_status {api}.
Arguments ip_address {api}.
Arguments lwip {api}.
Arguments log {api}.

(** A toy lwIP for running the model: per interface an address, a netmask,
    a gateway and the DHCP try counter; the fine timer counts a try on
    interface 0. *)
Record toy_netif : Set := mkToy {
  toy_ip : Z; toy_mask : Z; toy_gw : Z; toy_tries : Z
}.

Definition toy_update (n : netif_id) (f : toy_netif -> toy_netif)
    (st : toy_netif * toy_netif) : toy_netif * toy_netif :=
  match n with
  | g_mynetif0 => (f (fst st), snd st)
  | g_mynetif1 => (fst st, f (snd st))
  end.

Definition toy_get (n : netif_id) (st : toy_netif * toy_netif) : toy_netif :=
  match n with g_mynetif0 => fst st | g_mynetif1 => snd st end.

Definition toy_lwip : lwip_api :=
  mkLwip (toy_netif * toy_netif)
    (fun st => st) (fun st => st)
    (toy_update g_mynetif0
       (fun i => mkToy (toy_ip i) (toy_mask i) (toy_gw i) (uint8 (toy_tries i + 1))))
    (fun st => st)
    (fun n => toy_update n (fun i => mkToy (toy_ip i) (toy_mask i) (toy_gw i) 0))
    (fun n st => st)
    (fun n ip mask gw => toy_update n (fun i => mkToy ip mask gw (toy_tries i)))
    (fun n st => toy_ip (toy_get n st))
    (fun n st => toy_tries (toy_get n st))
    (fun a b c d => a + 256 * b + 65536 * c + 16777216 * d).

Definition toy_cfg : Config :=
  mkConfig true true true false (192, 168, 1, 105) (255, 255, 255, 0) (192, 168, 1, 1).

Definition toy_init : state toy_lwip :=
  mkState toy_lwip 0 0 0 0 DHCP_ADDR_NONE 0
    (mkToy 0 0 0 0, mkToy 0 0 0 0) [].

(** The toy state when DHCP has been tried four times without an answer. *)
Definition toy_starved : state toy_lwip :=
  mkState toy_lwip 0 0 0 0 DHCP_ADDR_BEGIN 0
    (mkToy 0 0 0 4, mkToy 0 0 0 0) [].

End Netconf.

(* ====================================================================== *)
(** ** gd32h7xx_it.c *)
(* ====================================================================== *)

Module It.

Import ITreeNotations.
Local Open Scope itree_scope.

Inductive enet_periph : Set := ENET0 | ENET1.

(** The DMA interrupt flags the file reads and the clear masks it writes. *)
Inductive enet_int_flag : Set := ENET_DMA_INT_FLAG_RS | ENET_DMA_INT_FLAG_NI.
Inductive enet_int_flag_clear : Set :=
| ENET_DMA_INT_FLAG_RS_CLR
| ENET_DMA_INT_FLAG_NI_CLR.

Inductive semaphore : Set := g_rx_semaphore.

(** FreeRTOS: [portBASE_TYPE] is a signed integer and [pdFALSE] is 0. *)
Definition pdFALSE : Z := 0.

(** The calls that leave the file.  [xSemaphoreGiveFromISR] answers the
    value it leaves in [xHigherPriorityTaskWoken]. *)
Variant itE : Type -> Type :=
| enet_interrupt_flag_get (p : enet_periph) (f : enet_int_flag) : itE FlagStatus
| enet_interrupt_flag_clear (p : enet_periph) (f : enet_int_flag_clear) : itE unit
| xSemaphoreGiveFromISR (x : semaphore) : itE Z
| portEND_SWITCHING_ISR (xSwitchRequired : Z) : itE unit.

(** [while (cond) body] *)
Definition while_ {E : Type -> Type} (cond : itree E bool) (body : itree E unit)
  : itree E unit :=
  ITree.iter
    (fun _ : unit =>
       c <- cond ;;
       if c : bool then body ;; Ret (inl tt) else Ret (inr tt))
    tt.

(** The fault and exception stubs: [while (1) { }]. *)
Definition NMI_Handler : itree itE unit := while_ (Ret true) (Ret tt).
Definition HardFault_Handler : itree itE unit := while_ (Ret true) (Ret tt).
Definition MemManage_Handler : itree itE unit := while_ (Ret true) (Ret tt).
Definition BusFault_Handler : itree itE unit := while_ (Ret true) (Ret tt).
Definition UsageFault_Handler : itree itE unit := while_ (Ret true) (Ret tt).
Definition DebugMon_Handler : itree itE unit := while_ (Ret true) (Ret tt).
Definition FPU_IRQHandler : itree itE unit := while_ (Ret true) (Ret tt).

Definition fault_handlers : list (string * itree itE unit) :=
  [("NMI_Handler", NMI_Handler);
   ("HardFault_Handler", HardFault_Handler);
   ("MemManage_Handler", MemManage_Handler);
   ("BusFault_Handler", BusFault_Handler);
   ("UsageFault_Handler", UsageFault_Handler);
   ("DebugMon_Handler", DebugMon_Handler);
   ("FPU_IRQHandler", FPU_IRQHandler)].

(** The Ethernet receive relays. *)
Definition ENET0_IRQHandler : itree itE unit :=
  flag <- ITree.trigger (enet_interrupt_flag_get ENET0 ENET_DMA_INT_FLAG_RS) ;;
  xHigherPriorityTaskWoken <-
    (if FlagStatus_eqb SET flag
     then ITree.trigger (xSemaphoreGiveFromISR g_rx_semaphore)
     else Ret pdFALSE) ;;
  ITree.trigger (enet_interrupt_flag_clear ENET0 ENET_DMA_INT_FLAG_RS_CLR) ;;
  ITree.trigger (enet_interrupt_flag_clear ENET0 ENET_DMA_INT_FLAG_NI_CLR) ;;
  if negb (xHigherPriorityTaskWoken =? pdFALSE)
  then ITree.trigger (portEND_SWITCHING_ISR xHigherPriorityTaskWoken)
  else Ret tt.

Definition ENET1_IRQHandler : itree itE unit :=
  flag <- ITree.trigger (enet_interrupt_flag_get ENET1 ENET_DMA_INT_FLAG_RS) ;;
  xHigherPriorityTaskWoken <-
    (if FlagStatus_eqb SET flag
     then ITree.trigger (xSemaphoreGiveFromISR g_rx_semaphore)
     else Ret pdFALSE) ;;
  ITree.trigger (enet_interrupt_flag_clear ENET1 ENET_DMA_INT_FLAG_RS_CLR) ;;
  ITree.trigger (enet_interrupt_flag_clear ENET1 ENET_DMA_INT_FLAG_NI_CLR) ;;
  if negb (xHigherPriorityTaskWoken =? pdFALSE)
  then ITree.trigger (portEND_SWITCHING_ISR xHigherPriorityTaskWoken)
  else Ret tt.

(** Either relay, chosen by its MAC (for statements about both). *)
Definition ENET_IRQHandler (p : enet_periph) : itree itE unit :=
  match p with
  | ENET0 => ENET0_IRQHandler
  | ENET1 => ENET1_IRQHandler
  end.

(** *** A board to run the handlers on *)

Inductive call : Set :=
| called_enet_interrupt_flag_get (p : enet_periph) (f : enet_int_flag)
| called_enet_interrupt_flag_clear (p : enet_periph) (f : enet_int_flag_clear)
| called_xSemaphoreGiveFromISR (x : semaphore)
| called_portEND_SWITCHING_ISR (xSwitchRequired : Z).

(** Modelled from the spec: the Ethernet driver and the FreeRTOS port are not
    part of the translation unit.  The board keeps the pending DMA interrupt
    flags of each MAC, the number of times the receive semaphore has been
    given, the value a give leaves in [xHigherPriorityTaskWoken], the number
    of context switches requested, and the calls made (newest first).
    Reading a flag answers its pending state, a clear mask resets the flag it
    names, and a give counts one. *)
Record board : Type := mkBoard {
  pending : enet_periph -> enet_int_flag -> FlagStatus;
  given : nat;
  task_woken : Z;
  switches : nat;
  calls : list call
}.

Definition enet_periph_eqb (a b : enet_periph) : bool :=
  match a, b with
  | ENET0, ENET0 | ENET1, ENET1 => true
  | _, _ => false
  end.

Definition clears (c : enet_int_flag_clear) (f : enet_int_flag) : bool :=
  match c, f with
  | ENET_DMA_INT_FLAG_RS_CLR, ENET_DMA_INT_FLAG_RS => true
  | ENET_DMA_INT_FLAG_NI_CLR, ENET_DMA_INT_FLAG_NI => true
  | _, _ => false
  end.

Definition log_call (c : call) (b : board) : board :=
  mkBoard (pending b) (given b) (task_woken b) (switches b) (c :: calls b).

Definition clear_flag (p : enet_periph) (c : enet_int_flag_clear) (b : board) : board :=
  mkBoard
    (fun p' f' => if enet_periph_eqb p p' && clears c f' then RESET else pending b p' f')
    (given b) (task_woken b) (switches b) (calls b).

Definition give (b : board) : board :=
  mkBoard (pending b) (S (given b)) (task_woken b) (switches b) (calls b).

Definition switch_context (b : board) : board :=
  mkBoard (pending b) (given b) (task_woken b) (S (switches b)) (calls b).

Definition board_handler : itE ~> Monads.stateT board (itree void1) :=
  fun _ e b =>
    match e with
    | enet_interrupt_flag_get p f =>
      Ret (log_call (called_enet_interrupt_flag_get p f) b, pending b p f)
    | enet_interrupt_flag_clear p c =>
      Ret (log_call (called_enet_interrupt_flag_clear p c) (clear_flag p c b), tt)
    | xSemaphoreGiveFromISR x =>
      Ret (log_call (called_xSemaphoreGiveFromISR x) (give b), task_woken b)
    | portEND_SWITCHING_ISR v =>
      Ret (log_call (called_portEND_SWITCHING_ISR v) (switch_context b), tt)
    end.

(** A board on which a frame has arrived on MAC 0 and the give wakes the
    lwIP task, and one with nothing pending. *)
Definition frame_board : board :=
  mkBoard (fun p f => match p with ENET0 => SET | ENET1 => RESET end) 0 1 0 [].

Definition quiet_board : board :=
  mkBoard (fun p f => match f with ENET_DMA_INT_FLAG_NI => SET | _ => RESET end) 0 1 0 [].

End It.

(* ====================================================================== *)
(** ** Facts about usbh_usr.c *)
(* ====================================================================== *)

Module UsbhUsrFacts.
Import UsbhUsr.

Ltac unfold_setters :=
  unfold set_application_state, set_line_idx, set_res, set_startup,
    set_toggle_i, set_bytesWritten, set_bytesToWrite, set_read, tick, emit,
    enter, leave in *.

(** Case analysis on the first [match] or [if] of a hypothesis that equates
    an optional result with [Some _]. *)
Ltac split_result H :=
  match type of H with
  | (match ?x with _ => _ end) = Some _ =>
    let E := fresh "E" in destruct x eqn:E; try discriminate H
  | (if ?b then _ else _) = Some _ =>
    let E := fresh "E" in destruct b eqn:E; try discriminate H
  | (let (_, _) := ?x in _) = Some _ =>
    let E := fresh "E" in destruct x eqn:E
  end.

(** The number of listed (non-dot) entries among the [k] reads of [path]
    from read [idx] on. *)
Fixpoint count_listed (env : Env) (path : string) (idx k : nat) : nat :=
  match k with
  | O => O
  | S k' =>
    ((if fname_is_dot (snd (f_readdir env path idx)) then 0 else 1)
     + count_listed env path (S idx) k')%nat
  end.

Section Facts.

Variable cfg : Config.
Variable env : Env.

(** *** What the helpers leave alone *)

(** Fields a key wait or a hint cannot touch. *)
Definition same_core (s s' : state) : Prop :=
  usbh_usr_application_state s' = usbh_usr_application_state s /\
  line_idx s' = line_idx s /\
  res s' = res s /\
  startup s' = startup s /\
  stack_depth s' = stack_depth s /\
  calls s' = calls s.

Lemma same_core_refl s : same_core s s.
Proof. repeat split. Qed.

Lemma same_core_trans s1 s2 s3 :
  same_core s1 s2 -> same_core s2 s3 -> same_core s1 s3.
Proof.
  unfold same_core. intros (A1 & A2 & A3 & A4 & A5 & A6) (B1 & B2 & B3 & B4 & B5 & B6).
  repeat split; congruence.
Qed.

Lemma toggle_leds_core s : same_core s (toggle_leds cfg s) /\ clock (toggle_leds cfg s) = clock s.
Proof.
  unfold toggle_leds.
  destruct (USE_ULPI_PHY cfg); [destruct (toggle_i s =? 65536)|];
    unfold same_core; simpl; repeat split.
Qed.

Lemma hint_lines_core l1 l2 serial s :
  same_core s (hint_lines cfg l1 l2 serial s) /\
  clock (hint_lines cfg l1 l2 serial s) = clock s.
Proof.
  unfold hint_lines. destruct (USE_LCD cfg).
  - unfold same_core; simpl; repeat split.
  - revert s. induction serial as [|m serial IH]; intros s; simpl.
    + split; [apply same_core_refl | reflexivity].
    + destruct (IH (emit (LCD_UsrLog m) s)) as [C K]. split.
      * eapply same_core_trans; [|exact C]. unfold same_core; simpl; repeat split.
      * rewrite K. reflexivity.
Qed.

Lemma poll_key_core fuel k v : forall s s',
  poll_key cfg env fuel k v s = Some s' ->
  same_core s s' /\ (clock s < clock s')%nat.
Proof.
  induction fuel as [|fuel IH]; intros s s' H; simpl in H; [discriminate|].
  split_result H.
  - apply IH in H. destruct H as [C K].
    destruct (toggle_leds_core (tick s)) as [C' K'].
    split.
    + eapply same_core_trans; [|exact C].
      eapply same_core_trans; [|exact C']. unfold same_core; simpl; repeat split.
    + rewrite K' in K. simpl in K. lia.
  - inversion H; subst. split; [unfold same_core|]; simpl; repeat split; lia.
Qed.

(** *** Unfolding equations *)

Lemma explore_entry_S fuel fno lvl s :
  explore_entry cfg env (S fuel) fno lvl s =
  match next_line cfg env fuel s with
  | None => None
  | Some s1 =>
    if descends fno lvl then
      match explore_disk cfg env fuel (fname fno) 2 (print_entry fno lvl s1) with
      | Some (_, s') => Some s'
      | None => None
      end
    else Some (print_entry fno lvl s1)
  end.
Proof. reflexivity. Qed.

Lemma explore_loop_S fuel path idx lvl s :
  explore_loop cfg env (S fuel) path idx lvl s =
  if connect_status env (clock s) then
    if readdir_stops (f_readdir env path idx) then
      Some (set_res (fst (f_readdir env path idx)) (tick s))
    else if fname_is_dot (snd (f_readdir env path idx)) then
      explore_loop cfg env fuel path (S idx) lvl
        (set_res (fst (f_readdir env path idx)) (tick s))
    else
      match explore_entry cfg env fuel (snd (f_readdir env path idx)) lvl
              (set_res (fst (f_readdir env path idx)) (tick s)) with
      | Some s' => explore_loop cfg env fuel path (S idx) lvl s'
      | None => None
      end
  else Some (tick s).
Proof. reflexivity. Qed.

Lemma explore_disk_S fuel path lvl s :
  explore_disk cfg env (S fuel) path lvl s =
  if f_opendir env path =? FR_OK then
    match explore_loop cfg env fuel path 0%nat lvl
            (set_res (f_opendir env path) (enter path lvl s)) with
    | Some s' => Some (res s', leave s')
    | None => None
    end
  else Some (f_opendir env path, leave (set_res (f_opendir env path) (enter path lvl s))).
Proof. reflexivity. Qed.

(** *** More fuel never changes a result *)

Lemma poll_key_mono fuel : forall fuel' k v s s',
  (fuel <= fuel')%nat ->
  poll_key cfg env fuel k v s = Some s' ->
  poll_key cfg env fuel' k v s = Some s'.
Proof.
  induction fuel as [|fuel IH]; intros fuel' k v s s' Hle H; simpl in H; [discriminate|].
  destruct fuel' as [|fuel']; [lia|]. simpl.
  destruct (connect_status env (clock s)
            && FlagStatus_eqb v (gd_eval_key_state_get env k (clock s))).
  - apply IH; [lia | exact H].
  - exact H.
Qed.

Lemma explore_mono fuel :
  (forall fuel' path lvl s r, (fuel <= fuel')%nat ->
     explore_disk cfg env fuel path lvl s = Some r ->
     explore_disk cfg env fuel' path lvl s = Some r) /\
  (forall fuel' path idx lvl s r, (fuel <= fuel')%nat ->
     explore_loop cfg env fuel path idx lvl s = Some r ->
     explore_loop cfg env fuel' path idx lvl s = Some r) /\
  (forall fuel' fno lvl s r, (fuel <= fuel')%nat ->
     explore_entry cfg env fuel fno lvl s = Some r ->
     explore_entry cfg env fuel' fno lvl s = Some r).
Proof.
  induction fuel as [|fuel (IHd & IHl & IHe)].
  - repeat split; intros; discriminate.
  - repeat split.
    + intros fuel' path lvl s r Hle H. destruct fuel' as [|fuel']; [lia|].
      assert (Hle' : (fuel <= fuel')%nat) by lia.
      simpl in H |- *.
      split_result H; [|exact H].
      split_result H.
      rewrite (IHl fuel' _ _ _ _ _ Hle' E0). exact H.
    + intros fuel' path idx lvl s r Hle H. destruct fuel' as [|fuel']; [lia|].
      assert (Hle' : (fuel <= fuel')%nat) by lia.
      simpl in H |- *.
      split_result H; [|exact H].
      split_result H; [exact H|].
      split_result H; [apply IHl; [exact Hle'|exact H]|].
      split_result H.
      rewrite (IHe fuel' _ _ _ _ Hle' E2).
      apply IHl; [exact Hle'|exact H].
    + intros fuel' fno lvl s r Hle H. destruct fuel' as [|fuel']; [lia|].
      assert (Hle' : (fuel <= fuel')%nat) by lia.
      simpl in H |- *.
      split_result H.
      assert (N : next_line cfg env fuel' s = Some s0).
      { unfold next_line in E |- *.
        split_result E; [|exact E].
        eapply poll_key_mono; [exact Hle'|exact E]. }
      rewrite N.
      split_result H; [|exact H].
      split_result H. destruct p as [r0 s1].
      rewrite (IHd fuel' _ _ _ _ Hle' E1). exact H.
Qed.

Lemma explore_disk_mono fuel fuel' path lvl s r :
  (fuel <= fuel')%nat ->
  explore_disk cfg env fuel path lvl s = Some r ->
  explore_disk cfg env fuel' path lvl s = Some r.
Proof. apply explore_mono. Qed.

Lemma explore_loop_mono fuel fuel' path idx lvl s r :
  (fuel <= fuel')%nat ->
  explore_loop cfg env fuel path idx lvl s = Some r ->
  explore_loop cfg env fuel' path idx lvl s = Some r.
Proof. apply explore_mono. Qed.

Lemma explore_entry_mono fuel fuel' fno lvl s r :
  (fuel <= fuel')%nat ->
  explore_entry cfg env fuel fno lvl s = Some r ->
  explore_entry cfg env fuel' fno lvl s = Some r.
Proof. apply explore_mono. Qed.


(** *** What one listed entry does to the line counter *)

Lemma uint8_range z : 0 <= uint8 z < 256.
Proof. unfold uint8. apply Z.mod_pos_bound. lia. Qed.

Lemma next_line_spec fuel s s' :
  next_line cfg env fuel s = Some s' ->
  line_idx s' = (if uint8 (line_idx s + 1) >? 4 then 0 else uint8 (line_idx s + 1)) /\
  0 <= line_idx s' <= 4 /\
  usbh_usr_application_state s' = usbh_usr_application_state s /\
  stack_depth s' = stack_depth s /\
  calls s' = calls s /\
  (clock s <= clock s')%nat /\
  ((uint8 (line_idx s + 1) >? 4) = false -> trace s' = trace s /\ clock s' = clock s) /\
  ((uint8 (line_idx s + 1) >? 4) = true -> (clock s < clock s')%nat).
Proof.
  unfold next_line. intros H.
  pose proof (uint8_range (line_idx s + 1)) as R.
  cbn [line_idx set_line_idx] in H.
  destruct (uint8 (line_idx s + 1) >? 4) eqn:G.
  - apply poll_key_core in H. destruct H as [(C1 & C2 & C3 & C4 & C5 & C6) K].
    match type of K with (clock (hint_lines _ ?a ?b ?c ?x) < _)%nat =>
      destruct (hint_lines_core a b c x) as [(D1 & D2 & D3 & D4 & D5 & D6) DK];
      rewrite DK in K end.
    rewrite C1, C2, C5, C6, D1, D2, D5, D6. simpl in *.
    repeat split; try lia; try discriminate.
  - inversion H; subst; simpl. rewrite Z.gtb_ltb in G. apply Z.ltb_ge in G.
    repeat split; try lia.
Qed.

Lemma print_entry_core fno lvl s :
  same_core s (print_entry fno lvl s) /\ clock (print_entry fno lvl s) = clock s.
Proof.
  unfold print_entry, same_core.
  destruct (lvl =? 1); [|destruct (lvl =? 2)]; simpl; repeat split.
Qed.

(** *** The traversal: depth, clock, line counter and logged calls *)

(** [listed_directory path n]: the n-th read of the listing of [path] is an
    entry that is listed (no end, no error, no leading dot) and whose
    attribute byte equals [AM_DIR]. *)
Definition listed_directory (path : string) (n : nat) : Prop :=
  readdir_stops (f_readdir env path n) = false /\
  fname_is_dot (snd (f_readdir env path n)) = false /\
  fattrib (snd (f_readdir env path n)) = AM_DIR.

Definition frame (s s' : state) : Prop :=
  stack_depth s' = stack_depth s /\
  (clock s <= clock s')%nat /\
  usbh_usr_application_state s' = usbh_usr_application_state s /\
  (line_idx s' = line_idx s \/ 0 <= line_idx s' <= 4).

Lemma frame_trans s1 s2 s3 : frame s1 s2 -> frame s2 s3 -> frame s1 s3.
Proof.
  unfold frame. intros (A1 & A2 & A3 & A4) (B1 & B2 & B3 & B4).
  repeat split; try congruence; lia.
Qed.

Lemma explore_frame fuel :
  (forall path lvl s r s',
     explore_disk cfg env fuel path lvl s = Some (r, s') ->
     frame s s' /\ r = res s') /\
  (forall path idx lvl s s',
     explore_loop cfg env fuel path idx lvl s = Some s' -> frame s s') /\
  (forall fno lvl s s',
     explore_entry cfg env fuel fno lvl s = Some s' ->
     frame s s' /\ 0 <= line_idx s' <= 4).
Proof.
  induction fuel as [|fuel (IHd & IHl & IHe)].
  - repeat split; intros; discriminate.
  - split; [|split].
    + intros path lvl s r s' H. simpl in H.
      split_result H.
      * split_result H. inversion H; subst; clear H.
        apply IHl in E0. destruct E0 as (A1 & A2 & A3 & A4). simpl in *.
        unfold frame; simpl. rewrite A1. repeat split; auto.
      * inversion H; subst; clear H. unfold frame; simpl. repeat split; auto.
    + intros path idx lvl s s' H. simpl in H.
      assert (T : frame s (set_res (fst (f_readdir env path idx)) (tick s))).
      { unfold frame; simpl. repeat split; auto. }
      split_result H.
      * split_result H; [inversion H; subst; exact T|].
        split_result H.
        -- eapply frame_trans; [exact T|]. eapply IHl; exact H.
        -- split_result H.
           apply IHe in E2. destruct E2 as [F _]. apply IHl in H.
           eapply frame_trans; [exact T|]. eapply frame_trans; eassumption.
      * inversion H; subst. unfold frame; simpl. repeat split; auto.
    + intros fno lvl s s' H. simpl in H.
      split_result H.
      apply next_line_spec in E. destruct E as (L1 & L2 & L3 & L4 & L5 & L6 & _).
      destruct (print_entry_core fno lvl s0) as [(P1 & P2 & P3 & P4 & P5 & P6) PK].
      assert (F0 : frame s (print_entry fno lvl s0)).
      { unfold frame. rewrite P5, P1, P2, PK, L4, L3. repeat split; auto. }
      split_result H.
      * split_result H. destruct p as [r0 s1]. inversion H; subst; clear H.
        apply IHd in E0. destruct E0 as [F1 _].
        split; [eapply frame_trans; eassumption|].
        destruct F1 as (_ & _ & _ & [Q|Q]); [|exact Q]. rewrite Q, P2. exact L2.
      * inversion H; subst. split; [exact F0|]. rewrite P2. exact L2.
Qed.


Lemma descends_true fno lvl :
  descends fno lvl = true <-> fattrib fno = AM_DIR /\ lvl = 1.
Proof.
  unfold descends. rewrite andb_true_iff, !Z.eqb_eq. reflexivity.
Qed.

Lemma explore_calls fuel :
  (forall path lvl s r s',
     explore_disk cfg env fuel path lvl s = Some (r, s') ->
     exists sub,
       calls s' = (sub ++ (path, lvl, S (stack_depth s)) :: calls s)%list /\
       (lvl <> 1 -> sub = []) /\
       (forall c, In c sub -> exists n, listed_directory path n /\
          c = (fname (snd (f_readdir env path n)), 2, S (S (stack_depth s))))) /\
  (forall path idx lvl s s',
     explore_loop cfg env fuel path idx lvl s = Some s' ->
     exists sub,
       calls s' = (sub ++ calls s)%list /\
       (lvl <> 1 -> sub = []) /\
       (forall c, In c sub -> exists n, (idx <= n)%nat /\ listed_directory path n /\
          c = (fname (snd (f_readdir env path n)), 2, S (stack_depth s)))) /\
  (forall fno lvl s s',
     explore_entry cfg env fuel fno lvl s = Some s' ->
     calls s' = ((if descends fno lvl then [(fname fno, 2, S (stack_depth s))] else [])
                 ++ calls s)%list).
Proof.
  induction fuel as [|fuel (IHd & IHl & IHe)].
  - repeat split; intros; discriminate.
  - split; [|split].
    + intros path lvl s r s' H. simpl in H.
      split_result H.
      * split_result H. inversion H; subst; clear H.
        apply IHl in E0. destruct E0 as (sub & Hc & Hn & Hin). simpl in *.
        exists sub. repeat split; auto.
        intros c Hc'. destruct (Hin c Hc') as (n & _ & Hl & ->). eauto.
      * inversion H; subst; clear H. exists []. simpl. repeat split; auto.
        intros c [].
    + intros path idx lvl s s' H. simpl in H.
      split_result H.
      * split_result H.
        { inversion H; subst. exists []. simpl. repeat split; auto. intros c []. }
        split_result H.
        -- apply IHl in H. destruct H as (sub & Hc & Hn & Hin). simpl in *.
           exists sub. repeat split; auto.
           intros c Hc'. destruct (Hin c Hc') as (n & Hle & Hl & ->).
           exists n. split; [lia|]. split; [exact Hl|reflexivity].
        -- split_result H.
           pose proof (proj1 (proj2 (proj2 (explore_frame fuel)) _ _ _ _ E2)) as (D & _).
           apply IHe in E2. apply IHl in H.
           destruct H as (sub & Hc & Hn & Hin). simpl in *.
           rewrite E2 in Hc. rewrite D in Hin. simpl in Hin.
           exists (sub ++ (if descends (snd (f_readdir env path idx)) lvl
                           then [(fname (snd (f_readdir env path idx)), 2, S (stack_depth s))]
                           else []))%list.
           rewrite <- app_assoc. split; [exact Hc|]. split.
           ++ intros Hl. rewrite (Hn Hl). simpl.
              destruct (descends (snd (f_readdir env path idx)) lvl) eqn:Ds; [|reflexivity].
              apply descends_true in Ds. tauto.
           ++ intros c Hc'. apply in_app_or in Hc'. destruct Hc' as [Hc'|Hc'].
              ** destruct (Hin c Hc') as (n & Hle & Hl & ->).
                 exists n. split; [lia|]. split; [exact Hl|reflexivity].
              ** destruct (descends (snd (f_readdir env path idx)) lvl) eqn:Ds;
                   [|destruct Hc'].
                 destruct Hc' as [<-|[]]. apply descends_true in Ds.
                 exists idx. split; [lia|]. split; [|reflexivity].
                 unfold listed_directory. tauto.
      * inversion H; subst. exists []. simpl. repeat split; auto. intros c [].
    + intros fno lvl s s' H. rewrite explore_entry_S in H.
      split_result H.
      apply next_line_spec in E. destruct E as (_ & _ & _ & L4 & L5 & _).
      destruct (print_entry_core fno lvl s0) as [(_ & _ & _ & _ & P5 & P6) _].
      split_result H.
      * split_result H. destruct p as [r0 s1]. inversion H; subst; clear H.
        apply IHd in E0. destruct E0 as (sub & Hc & Hn & _).
        rewrite (Hn ltac:(lia)) in Hc. rewrite app_nil_l in Hc.
        rewrite Hc, P5, P6, L4, L5. reflexivity.
      * inversion H; subst. rewrite P6, L5. reflexivity.
Qed.


(** *** Termination *)

(** A wait on key [k] ends: at every time, some later poll finds the device
    gone or the key no longer reading [v]. *)
Definition wait_ends (k : key_typedef_enum) (v : FlagStatus) : Prop :=
  forall t, exists d,
    connect_status env (t + d) = false \/ gd_eval_key_state_get env k (t + d) <> v.

(** The listing of [path] reaches its end or an error. *)
Definition listing_ends (path : string) : Prop :=
  exists n, readdir_stops (f_readdir env path n) = true.

(** From some poll on the device reads as disconnected. *)
Definition disconnects : Prop :=
  exists T, forall t, (T <= t)%nat -> connect_status env t = false.

Lemma disconnects_wait_ends k v : disconnects -> wait_ends k v.
Proof.
  intros [T HT] t. exists T. left. apply HT. lia.
Qed.

Lemma FlagStatus_eqb_neq a b : a <> b -> FlagStatus_eqb a b = false.
Proof. destruct a, b; simpl; congruence. Qed.

Lemma poll_key_total k v :
  wait_ends k v -> forall s, exists fuel s', poll_key cfg env fuel k v s = Some s'.
Proof.
  intros W s. destruct (W (clock s)) as [d Hd]. revert s Hd.
  induction d as [|d IH]; intros s Hd.
  - exists 1%nat, (tick s). simpl. rewrite Nat.add_0_r in Hd.
    destruct Hd as [Hd|Hd].
    + rewrite Hd. reflexivity.
    + rewrite (FlagStatus_eqb_neq v _ (fun e => Hd (eq_sym e))), andb_false_r. reflexivity.
  - destruct (connect_status env (clock s)
              && FlagStatus_eqb v (gd_eval_key_state_get env k (clock s))) eqn:C.
    + destruct (IH (toggle_leds cfg (tick s))) as (fuel & s' & Hs').
      { rewrite (proj2 (toggle_leds_core (tick s))). cbn [clock tick].
        rewrite Nat.add_succ_comm. exact Hd. }
      exists (S fuel), s'. simpl. rewrite C. exact Hs'.
    + exists 1%nat, (tick s). simpl. rewrite C. reflexivity.
Qed.

Lemma next_line_total :
  wait_ends KEY_TAMPER SET ->
  forall s, exists fuel s', next_line cfg env fuel s = Some s'.
Proof.
  intros W s. unfold next_line. cbn [line_idx set_line_idx].
  destruct (uint8 (line_idx s + 1) >? 4).
  - apply poll_key_total. exact W.
  - exists 0%nat. eauto.
Qed.

Lemma explore_entry_total lvl :
  wait_ends KEY_TAMPER SET ->
  (lvl = 1 -> forall path s, exists fuel r s',
      explore_disk cfg env fuel path 2 s = Some (r, s')) ->
  forall fno s, exists fuel s', explore_entry cfg env fuel fno lvl s = Some s'.
Proof.
  intros W Hd fno s.
  destruct (next_line_total W s) as (f1 & s1 & H1).
  destruct (descends fno lvl) eqn:Ds.
  - pose proof (proj1 (descends_true _ _) Ds) as [_ L].
    destruct (Hd L (fname fno) (print_entry fno lvl s1)) as (f2 & r & s2 & H2).
    exists (S (Nat.max f1 f2)), s2. rewrite explore_entry_S.
    assert (N : next_line cfg env (Nat.max f1 f2) s = Some s1).
    { unfold next_line in H1 |- *. cbn [line_idx set_line_idx] in H1 |- *.
      destruct (uint8 (line_idx s + 1) >? 4); [|exact H1].
      eapply poll_key_mono; [|exact H1]. lia. }
    rewrite N, Ds.
    rewrite (explore_disk_mono f2 (Nat.max f1 f2) _ _ _ _ ltac:(lia) H2). reflexivity.
  - exists (S f1), (print_entry fno lvl s1). rewrite explore_entry_S, H1, Ds. reflexivity.
Qed.

(** The bound that makes the [while] loop of [explore_disk] stop: within
    [k] more reads the listing ends, or after [k] more polls the device is
    gone for good. *)
Definition loop_bound (path : string) (k idx : nat) (s : state) : Prop :=
  (exists n, (idx <= n <= idx + k)%nat /\ readdir_stops (f_readdir env path n) = true) \/
  (forall t, (clock s + k <= t)%nat -> connect_status env t = false).

Lemma explore_loop_total lvl path :
  (forall fno s, exists fuel s', explore_entry cfg env fuel fno lvl s = Some s') ->
  forall k idx s, loop_bound path k idx s ->
  exists fuel s', explore_loop cfg env fuel path idx lvl s = Some s'.
Proof.
  intros He k. induction k as [|k IH]; intros idx s B.
  - exists 1%nat. rewrite explore_loop_S.
    destruct (connect_status env (clock s)) eqn:C; [|eauto].
    destruct B as [(n & Hn & Hs)|B].
    + replace n with idx in Hs by lia. rewrite Hs. eauto.
    + rewrite B in C by lia. discriminate.
  - destruct (connect_status env (clock s)) eqn:C.
    2:{ exists 1%nat. rewrite explore_loop_S, C. eauto. }
    destruct (readdir_stops (f_readdir env path idx)) eqn:St.
    { exists 1%nat. rewrite explore_loop_S, C, St. eauto. }
    set (s1 := set_res (fst (f_readdir env path idx)) (tick s)).
    assert (B' : forall s2, (clock s1 <= clock s2)%nat -> loop_bound path k (S idx) s2).
    { intros s2 K. destruct B as [(n & Hn & Hs)|B].
      - left. exists n. split; [|exact Hs].
        assert (n <> idx) by (intros ->; congruence). lia.
      - right. intros t Ht. apply B. subst s1. simpl in K. lia. }
    destruct (fname_is_dot (snd (f_readdir env path idx))) eqn:Dot.
    + destruct (IH (S idx) s1 (B' s1 (Nat.le_refl _))) as (f & s' & H).
      exists (S f), s'. rewrite explore_loop_S, C, St, Dot. exact H.
    + destruct (He (snd (f_readdir env path idx)) s1) as (f1 & s2 & H1).
      pose proof (proj1 (proj2 (proj2 (explore_frame f1)) _ _ _ _ H1)) as (_ & K & _).
      destruct (IH (S idx) s2 (B' s2 K)) as (f2 & s' & H2).
      exists (S (Nat.max f1 f2)), s'. rewrite explore_loop_S, C, St, Dot.
      fold s1.
      rewrite (explore_entry_mono f1 (Nat.max f1 f2) _ _ _ _ ltac:(lia) H1).
      apply (explore_loop_mono f2); [lia | exact H2].
Qed.

Lemma explore_disk_total_at lvl path :
  (forall fno s, exists fuel s', explore_entry cfg env fuel fno lvl s = Some s') ->
  listing_ends path \/ disconnects ->
  forall s, exists fuel r s', explore_disk cfg env fuel path lvl s = Some (r, s').
Proof.
  intros He Hend s.
  destruct (f_opendir env path =? FR_OK) eqn:O.
  2:{ exists 1%nat. rewrite explore_disk_S, O. eauto. }
  set (s1 := set_res (f_opendir env path) (enter path lvl s)).
  assert (B : exists k, loop_bound path k 0 s1).
  { destruct Hend as [(n & Hn)|(T & HT)].
    - exists n. left. exists n. split; [lia | exact Hn].
    - exists T. right. intros t Ht. apply HT. lia. }
  destruct B as (k & B).
  destruct (explore_loop_total lvl path He k 0%nat s1 B) as (f & s' & H).
  exists (S f). rewrite explore_disk_S, O. fold s1. rewrite H. eauto.
Qed.

(** The outside world lets the traversal finish: every wait for the Tamper
    key ends and every listing ends, or the device disconnects for good. *)
Definition cooperative : Prop :=
  (wait_ends KEY_TAMPER SET /\ forall path, listing_ends path) \/ disconnects.

Lemma cooperative_wait : cooperative -> wait_ends KEY_TAMPER SET.
Proof.
  intros [[W _]|D]; [exact W | apply disconnects_wait_ends; exact D].
Qed.

Lemma cooperative_listing path : cooperative -> listing_ends path \/ disconnects.
Proof.
  intros [[_ L]|D]; [left; apply L | right; exact D].
Qed.

Lemma explore_disk_total :
  cooperative ->
  forall path lvl s, exists fuel r s', explore_disk cfg env fuel path lvl s = Some (r, s').
Proof.
  intros Co.
  assert (Leaf : forall path s, exists fuel r s',
             explore_disk cfg env fuel path 2 s = Some (r, s')).
  { intros path s. apply explore_disk_total_at; [|apply cooperative_listing; exact Co].
    apply explore_entry_total; [apply cooperative_wait; exact Co | discriminate]. }
  intros path lvl s.
  apply explore_disk_total_at; [|apply cooperative_listing; exact Co].
  apply explore_entry_total; [apply cooperative_wait; exact Co|].
  intros _. exact Leaf.
Qed.


(** *** The demo state machine *)

Lemma hint_lines_state l1 l2 serial s :
  usbh_usr_application_state (hint_lines cfg l1 l2 serial s) = usbh_usr_application_state s.
Proof. apply (hint_lines_core l1 l2 serial s). Qed.

(** Where [usbh_usr_msc_application] takes the state variable. *)
Definition successor (mounted : bool) (v : usbh_usr_state) : usbh_usr_state :=
  match v with
  | USBH_USR_FS_INIT => if mounted then USBH_USR_FS_READLIST else USBH_USR_FS_INIT
  | USBH_USR_FS_READLIST => USBH_USR_FS_WRITEFILE
  | USBH_USR_FS_WRITEFILE => USBH_USR_FS_DEMOEND
  | USBH_USR_FS_DEMOEND => USBH_USR_FS_DEMOEND
  | USBH_USR_FS_OTHER v => USBH_USR_FS_OTHER v
  end.

Lemma application_step fuel s ret s' :
  usbh_usr_msc_application cfg env fuel s = Some (ret, s') ->
  usbh_usr_application_state s' =
    successor (f_mount env =? FR_OK) (usbh_usr_application_state s) /\
  ret = (if match usbh_usr_application_state s with
            | USBH_USR_FS_INIT => negb (f_mount env =? FR_OK)
            | _ => false
            end then -1 else 0) /\
  (usbh_usr_application_state s = USBH_USR_FS_DEMOEND -> s' = s) /\
  (usbh_usr_application_state s = USBH_USR_FS_READLIST -> line_idx s' = 0).
Proof.
  unfold usbh_usr_msc_application. intros H.
  destruct (usbh_usr_application_state s) eqn:St; cbn [successor].
  - destruct (f_mount env =? FR_OK); cbn [negb] in H |- *;
      inversion H; subst; clear H.
    + destruct (usbh_msc_lun_info_get env) as [[bn bs]|]; simpl;
        repeat split; intros; discriminate.
    + simpl. repeat split; auto; intros; discriminate.
  - split_result H. split_result H. destruct p as [r1 s2].
    inversion H; subst; clear H. simpl. repeat split; intros; discriminate.
  - split_result H. inversion H; subst; clear H. simpl.
    repeat split; intros; discriminate.
  - inversion H; subst. repeat split; auto. intros; congruence.
  - inversion H; subst. repeat split; auto; intros; congruence.
Qed.

Lemma application_total :
  cooperative -> wait_ends KEY_WAKEUP RESET ->
  forall s, exists fuel ret s', usbh_usr_msc_application cfg env fuel s = Some (ret, s').
Proof.
  intros Co Wk s. unfold usbh_usr_msc_application.
  destruct (usbh_usr_application_state s).
  - exists 0%nat. destruct (negb (f_mount env =? FR_OK)); eauto.
  - match goal with |- context [poll_key _ _ _ ?k ?v ?x] =>
      destruct (poll_key_total k v (cooperative_wait Co) x) as (f1 & s1 & H1) end.
    destruct (explore_disk_total Co "0:/" 1 s1) as (f2 & r & s2 & H2).
    exists (Nat.max f1 f2).
    rewrite (poll_key_mono f1 (Nat.max f1 f2) _ _ _ _ ltac:(lia) H1).
    rewrite (explore_disk_mono f2 (Nat.max f1 f2) _ _ _ _ ltac:(lia) H2). eauto.
  - match goal with |- context [poll_key _ _ _ ?k ?v ?x] =>
      destruct (poll_key_total k v Wk x) as (f1 & s1 & H1) end.
    exists f1. rewrite H1. eauto.
  - exists 0%nat. eauto.
  - exists 0%nat. eauto.
Qed.

(** Calls entered in [USBH_USR_FS_INIT], [USBH_USR_FS_DEMOEND] or an unknown
    state wait for nothing. *)
Lemma application_immediate fuel s :
  usbh_usr_application_state s <> USBH_USR_FS_READLIST ->
  usbh_usr_application_state s <> USBH_USR_FS_WRITEFILE ->
  usbh_usr_msc_application cfg env fuel s <> None.
Proof.
  unfold usbh_usr_msc_application. intros N1 N2.
  destruct (usbh_usr_application_state s); try congruence.
  destruct (negb (f_mount env =? FR_OK)); discriminate.
Qed.

(** C1: every call of [usbh_usr_msc_application] moves the state variable
    along INIT -> READLIST -> WRITEFILE -> DEMOEND.  A completed call entered
    in INIT with a successful [f_mount] leaves READLIST, one entered in
    READLIST leaves WRITEFILE, one entered in WRITEFILE leaves DEMOEND
    whatever the file operations answered, and one entered in DEMOEND changes
    nothing.  Calls entered in INIT or DEMOEND always complete; those entered
    in READLIST or WRITEFILE complete once their key waits and the disk
    traversal end. *)
Theorem C1_state_sequence s :
  (forall fuel ret s',
     usbh_usr_msc_application cfg env fuel s = Some (ret, s') ->
     (usbh_usr_application_state s = USBH_USR_FS_INIT -> f_mount env = FR_OK ->
        usbh_usr_application_state s' = USBH_USR_FS_READLIST) /\
     (usbh_usr_application_state s = USBH_USR_FS_READLIST ->
        usbh_usr_application_state s' = USBH_USR_FS_WRITEFILE) /\
     (usbh_usr_application_state s = USBH_USR_FS_WRITEFILE ->
        usbh_usr_application_state s' = USBH_USR_FS_DEMOEND) /\
     (usbh_usr_application_state s = USBH_USR_FS_DEMOEND -> s' = s)) /\
  (usbh_usr_application_state s = USBH_USR_FS_INIT \/
   usbh_usr_application_state s = USBH_USR_FS_DEMOEND ->
     forall fuel, usbh_usr_msc_application cfg env fuel s <> None) /\
  (cooperative -> wait_ends KEY_WAKEUP RESET ->
     exists fuel ret s', usbh_usr_msc_application cfg env fuel s = Some (ret, s')).
Proof.
  split; [|split].
  - intros fuel ret s' H. apply application_step in H.
    destruct H as (St & _ & De & _).
    repeat split.
    + intros I M. rewrite St, I. cbn [successor].
      unfold FR_OK in *. rewrite M. reflexivity.
    + intros R. rewrite St, R. reflexivity.
    + intros Wr. rewrite St, Wr. reflexivity.
    + exact De.
  - intros St fuel. apply application_immediate; destruct St as [St|St]; rewrite St; discriminate.
  - intros Co Wk. apply application_total; assumption.
Qed.

(** C2: [usbh_usr_msc_application] returns -1 exactly when it is entered in
    [USBH_USR_FS_INIT] and [f_mount] does not answer [FR_OK]; the state
    variable is then still [USBH_USR_FS_INIT]; every other completed call
    returns 0.  The failing call completes whatever the fuel, and in a
    cooperative world every call completes. *)
Theorem C2_return_value s :
  (forall fuel ret s',
     usbh_usr_msc_application cfg env fuel s = Some (ret, s') ->
     (ret = -1 <->
        usbh_usr_application_state s = USBH_USR_FS_INIT /\ f_mount env <> FR_OK) /\
     (ret = -1 -> usbh_usr_application_state s' = USBH_USR_FS_INIT) /\
     (ret <> -1 -> ret = 0)) /\
  (usbh_usr_application_state s = USBH_USR_FS_INIT -> f_mount env <> FR_OK ->
     forall fuel, exists s',
       usbh_usr_msc_application cfg env fuel s = Some (-1, s') /\
       usbh_usr_application_state s' = USBH_USR_FS_INIT) /\
  (cooperative -> wait_ends KEY_WAKEUP RESET ->
     exists fuel ret s', usbh_usr_msc_application cfg env fuel s = Some (ret, s')).
Proof.
  split; [|split].
  - intros fuel ret s' H. apply application_step in H.
    destruct H as (St & R & _ & _).
    destruct (usbh_usr_application_state s) eqn:E; cbn [successor] in St;
      try (subst ret; repeat split; try lia; try congruence;
           intros [? ?]; discriminate).
    destruct (f_mount env =? FR_OK) eqn:M; cbn [negb] in R; subst ret.
    + apply Z.eqb_eq in M.
      split; [split; [lia | intros [_ N]; contradiction] | split; [lia | reflexivity]].
    + apply Z.eqb_neq in M.
      split; [split; [intros _; split; [reflexivity | exact M] | reflexivity]
             | split; [intros _; exact St | lia]].
  - intros I M fuel. unfold usbh_usr_msc_application. rewrite I.
    apply Z.eqb_neq in M. rewrite M. cbn [negb]. eexists; split; [reflexivity|].
    simpl. exact I.
  - intros Co Wk. apply application_total; assumption.
Qed.

(** *** The claims about the traversal *)

(** C3 (amended): the recursive call of [explore_disk] is guarded by
    [fattrib == AM_DIR] and [recu_level == 1]; a completed call has called
    itself only from level 1, for listed entries whose attribute byte equals
    [AM_DIR], and always with level 2; a call at a level other than 1 makes
    no call; so no call runs deeper than two frames.  The traversal returns when the outside world is
    [cooperative]: every wait for the Tamper key ends and every listing
    reaches its end or an error, or the device disconnects for good. *)
Theorem C3_explore_disk_recursion_and_termination :
  (forall fno lvl, descends fno lvl = true <-> fattrib fno = AM_DIR /\ lvl = 1) /\
  (forall fuel path lvl s r s',
     explore_disk cfg env fuel path lvl s = Some (r, s') ->
     stack_depth s' = stack_depth s /\
     exists sub,
       calls s' = (sub ++ (path, lvl, S (stack_depth s)) :: calls s)%list /\
       (lvl <> 1 -> sub = []) /\
       (forall c, In c sub -> exists n, listed_directory path n /\
          c = (fname (snd (f_readdir env path n)), 2, S (S (stack_depth s)))) /\
       (forall p l d, In (p, l, d) (sub ++ [(path, lvl, S (stack_depth s))])%list ->
          (d <= stack_depth s + 2)%nat)) /\
  (cooperative ->
   forall path lvl s, exists fuel r s',
     explore_disk cfg env fuel path lvl s = Some (r, s')).
Proof.
  split; [exact descends_true|]. split.
  - intros fuel path lvl s r s' H.
    pose proof (proj1 (explore_frame fuel) _ _ _ _ _ H) as [(D & _) _].
    split; [exact D|].
    destruct (proj1 (explore_calls fuel) _ _ _ _ _ H) as (sub & Hc & Hn & Hin).
    exists sub. repeat split; auto.
    intros p l d Hi. apply in_app_or in Hi. destruct Hi as [Hi|[Hi|[]]].
    + destruct (Hin _ Hi) as (n & _ & E). inversion E; subst. lia.
    + inversion Hi; subst. lia.
  - apply explore_disk_total.
Qed.

(** *** Counting the listed lines *)

Lemma explore_entry_line fuel fno lvl s s' :
  explore_entry cfg env fuel fno lvl s = Some s' ->
  descends fno lvl = false ->
  0 <= line_idx s <= 4 ->
  line_idx s' = (line_idx s + 1) mod 5.
Proof.
  intros H D R. destruct fuel as [|fuel]; [discriminate|].
  rewrite explore_entry_S, D in H. split_result H. inversion H; subst; clear H.
  apply next_line_spec in E. destruct E as (L & _).
  rewrite (proj1 (proj2 (proj1 (print_entry_core fno lvl s0)))), L.
  unfold uint8. rewrite (Z.mod_small (line_idx s + 1) 256) by lia.
  destruct (Z.eq_dec (line_idx s) 4) as [E4|N4].
  - rewrite E4. reflexivity.
  - replace (line_idx s + 1 >? 4) with false
      by (symmetry; rewrite Z.gtb_ltb; apply Z.ltb_ge; lia).
    rewrite Z.mod_small by lia. reflexivity.
Qed.

Lemma explore_loop_line (connected : forall t, connect_status env t = true) fuel :
  forall path lvl k idx s s',
  explore_loop cfg env fuel path idx lvl s = Some s' ->
  (forall m, (idx <= m < idx + k)%nat ->
     readdir_stops (f_readdir env path m) = false /\
     descends (snd (f_readdir env path m)) lvl = false) ->
  readdir_stops (f_readdir env path (idx + k)) = true ->
  0 <= line_idx s <= 4 ->
  line_idx s' = (line_idx s + Z.of_nat (count_listed env path idx k)) mod 5.
Proof.
  induction fuel as [|fuel IH]; intros path lvl k idx s s' H Hs He R; [discriminate|].
  rewrite explore_loop_S, connected in H.
  destruct k as [|k].
  - rewrite Nat.add_0_r in He. rewrite He in H. inversion H; subst.
    cbn [count_listed Z.of_nat line_idx set_res tick].
    rewrite Z.add_0_r, Z.mod_small by lia. reflexivity.
  - destruct (Hs idx ltac:(lia)) as [St De]. rewrite St in H.
    assert (Hs' : forall m, (S idx <= m < S idx + k)%nat ->
              readdir_stops (f_readdir env path m) = false /\
              descends (snd (f_readdir env path m)) lvl = false)
      by (intros m Hm; apply Hs; lia).
    assert (He' : readdir_stops (f_readdir env path (S idx + k)) = true)
      by (replace (S idx + k)%nat with (idx + S k)%nat by lia; exact He).
    cbn [count_listed].
    destruct (fname_is_dot (snd (f_readdir env path idx))) eqn:Dot.
    + rewrite (IH _ _ _ _ _ _ H Hs' He' R). reflexivity.
    + split_result H.
      pose proof (explore_entry_line _ _ _ _ _ E De R) as L1.
      cbn [line_idx set_res tick] in L1.
      assert (R1 : 0 <= line_idx s0 <= 4).
      { rewrite L1. pose proof (Z.mod_pos_bound (line_idx s + 1) 5 ltac:(lia)). lia. }
      rewrite (IH _ _ _ _ _ _ H Hs' He' R1), L1.
      rewrite Z.add_mod_idemp_l by lia.
      f_equal. rewrite Nat2Z.inj_add. cbn [Z.of_nat]. lia.
Qed.

(** The listing of [path] ends at read [k]: every read before it gives an
    entry, and read [k] gives the end mark or an error. *)
Definition ends_at (path : string) (k : nat) : Prop :=
  (forall m, (m < k)%nat -> readdir_stops (f_readdir env path m) = false) /\
  readdir_stops (f_readdir env path k) = true.

(** The lines that listing the entry [fno] at level [lvl] takes: none for a
    dot entry, otherwise its own line and, when the entry is descended into
    and opens, one line for each entry listed there ([ends] gives the read
    at which a listing ends). *)
Definition entry_lines (ends : string -> nat) (fno : FILINFO) (lvl : Z) : nat :=
  if fname_is_dot fno then 0%nat
  else S (if descends fno lvl && (f_opendir env (fname fno) =? FR_OK)
          then count_listed env (fname fno) 0 (ends (fname fno))
          else 0%nat).

(** The lines of the [k] reads of [path] from read [idx] on. *)
Fixpoint traversal_lines (ends : string -> nat) (path : string) (lvl : Z)
    (idx k : nat) : nat :=
  match k with
  | O => O
  | S k' =>
    (entry_lines ends (snd (f_readdir env path idx)) lvl
     + traversal_lines ends path lvl (S idx) k')%nat
  end.

Lemma descends_level2 fno : descends fno 2 = false.
Proof. unfold descends. apply andb_false_r. Qed.

Lemma mod5_range z : 0 <= z mod 5 <= 4.
Proof. pose proof (Z.mod_pos_bound z 5 ltac:(lia)). lia. Qed.

Lemma explore_entry_count (connected : forall t, connect_status env t = true)
    ends fuel fno lvl s s' :
  explore_entry cfg env fuel fno lvl s = Some s' ->
  fname_is_dot fno = false ->
  (descends fno lvl = true -> f_opendir env (fname fno) = FR_OK ->
   ends_at (fname fno) (ends (fname fno))) ->
  0 <= line_idx s <= 4 ->
  line_idx s' = (line_idx s + Z.of_nat (entry_lines ends fno lvl)) mod 5.
Proof.
  intros H Dot Sub R. unfold entry_lines. rewrite Dot.
  destruct (descends fno lvl) eqn:De; cbn [andb].
  2:{ rewrite (explore_entry_line _ _ _ _ _ H De R). reflexivity. }
  destruct fuel as [|fuel]; [discriminate|].
  rewrite explore_entry_S, De in H. split_result H. split_result H.
  destruct p as [r s2]. inversion H; subst; clear H.
  assert (L1 : line_idx (print_entry fno lvl s0) = (line_idx s + 1) mod 5).
  { assert (X : explore_entry cfg env (S fuel) fno 2 s
                = Some (print_entry fno 2 s0))
      by (rewrite explore_entry_S, E, descends_level2; reflexivity).
    rewrite <- (explore_entry_line _ _ _ _ _ X (descends_level2 fno) R).
    rewrite (proj1 (proj2 (proj1 (print_entry_core fno lvl s0)))).
    rewrite (proj1 (proj2 (proj1 (print_entry_core fno 2 s0)))). reflexivity. }
  destruct fuel as [|fuel]; [discriminate|].
  rewrite explore_disk_S in E0.
  destruct (f_opendir env (fname fno) =? FR_OK) eqn:Op.
  - split_result E0. inversion E0; subst; clear E0.
    change (line_idx (leave s1)) with (line_idx s1).
    apply Z.eqb_eq in Op. destruct (Sub eq_refl Op) as [Hs He].
    rewrite (explore_loop_line connected _ _ 2 (ends (fname fno)) 0%nat _ _ E1).
    + cbn [line_idx set_res enter]. rewrite L1.
      rewrite Z.add_mod_idemp_l by lia. f_equal. lia.
    + intros m Hm. split; [apply Hs; lia | apply descends_level2].
    + exact He.
    + cbn [line_idx set_res enter]. rewrite L1. apply mod5_range.
  - inversion E0; subst; clear E0.
    cbn [line_idx leave set_res enter]. rewrite L1. reflexivity.
Qed.

Lemma explore_loop_count (connected : forall t, connect_status env t = true)
    ends fuel :
  forall path lvl k idx s s',
  explore_loop cfg env fuel path idx lvl s = Some s' ->
  (forall m, (idx <= m < idx + k)%nat ->
     readdir_stops (f_readdir env path m) = false) ->
  readdir_stops (f_readdir env path (idx + k)) = true ->
  (forall m, (idx <= m < idx + k)%nat ->
     fname_is_dot (snd (f_readdir env path m)) = false ->
     descends (snd (f_readdir env path m)) lvl = true ->
     f_opendir env (fname (snd (f_readdir env path m))) = FR_OK ->
     ends_at (fname (snd (f_readdir env path m)))
             (ends (fname (snd (f_readdir env path m))))) ->
  0 <= line_idx s <= 4 ->
  line_idx s' = (line_idx s + Z.of_nat (traversal_lines ends path lvl idx k)) mod 5.
Proof.
  induction fuel as [|fuel IH]; intros path lvl k idx s s' H Hs He Sub R; [discriminate|].
  rewrite explore_loop_S, connected in H.
  destruct k as [|k].
  - rewrite Nat.add_0_r in He. rewrite He in H. inversion H; subst.
    cbn [traversal_lines Z.of_nat line_idx set_res tick].
    rewrite Z.add_0_r, Z.mod_small by lia. reflexivity.
  - rewrite (Hs idx ltac:(lia)) in H.
    assert (Hs' : forall m, (S idx <= m < S idx + k)%nat ->
              readdir_stops (f_readdir env path m) = false)
      by (intros m Hm; apply Hs; lia).
    assert (He' : readdir_stops (f_readdir env path (S idx + k)) = true)
      by (replace (S idx + k)%nat with (idx + S k)%nat by lia; exact He).
    assert (Sub' : forall m, (S idx <= m < S idx + k)%nat ->
              fname_is_dot (snd (f_readdir env path m)) = false ->
              descends (snd (f_readdir env path m)) lvl = true ->
              f_opendir env (fname (snd (f_readdir env path m))) = FR_OK ->
              ends_at (fname (snd (f_readdir env path m)))
                      (ends (fname (snd (f_readdir env path m)))))
      by (intros m Hm; apply Sub; lia).
    cbn [traversal_lines].
    destruct (fname_is_dot (snd (f_readdir env path idx))) eqn:Dot.
    + rewrite (IH _ _ _ _ _ _ H Hs' He' Sub' R).
      unfold entry_lines. rewrite Dot. reflexivity.
    + split_result H.
      pose proof (explore_entry_count connected ends _ _ _ _ _ E Dot
                    (Sub idx ltac:(lia) Dot) R) as L1.
      cbn [line_idx set_res tick] in L1.
      assert (R1 : 0 <= line_idx s0 <= 4) by (rewrite L1; apply mod5_range).
      rewrite (IH _ _ _ _ _ _ H Hs' He' Sub' R1), L1.
      rewrite Z.add_mod_idemp_l by lia.
      f_equal. rewrite Nat2Z.inj_add. lia.
Qed.

(** C9: the traversal keeps [line_idx] between 0 and 4.  Listing one entry
    adds one to the byte; when the sum exceeds 4 the variable is set to 0
    first and the wait for the Tamper key comes after it, so the wait
    starts, runs and ends with [line_idx] at 0.  After any listed entry the
    value is at most 4.  On a device that stays connected, a completed
    traversal of a directory that opens, entered with the value between 0
    and 4, leaves the old value plus the number of listed lines (those of
    the directories it descends into included) modulo 5.  A traversal
    leaves the value it found or one between 0 and 4, and it does return in
    a cooperative world; and the READLIST case of
    [usbh_usr_msc_application] leaves 0 behind. *)
Theorem C9_line_idx_range :
  (forall fuel s,
     ((uint8 (line_idx s + 1) >? 4) = false ->
      next_line cfg env fuel s = Some (set_line_idx (uint8 (line_idx s + 1)) s)) /\
     ((uint8 (line_idx s + 1) >? 4) = true ->
      exists s0,
        line_idx s0 = 0 /\
        next_line cfg env fuel s = poll_key cfg env fuel KEY_TAMPER SET s0 /\
        forall s', poll_key cfg env fuel KEY_TAMPER SET s0 = Some s' ->
                   line_idx s' = 0)) /\
  (forall fuel s s',
     next_line cfg env fuel s = Some s' ->
     line_idx s' = (if uint8 (line_idx s + 1) >? 4 then 0 else uint8 (line_idx s + 1)) /\
     ((uint8 (line_idx s + 1) >? 4) = true -> (clock s < clock s')%nat)) /\
  (forall fuel fno lvl s s',
     explore_entry cfg env fuel fno lvl s = Some s' ->
     0 <= line_idx s' <= 4 /\
     exists fuel' s1, fuel = S fuel' /\ next_line cfg env fuel' s = Some s1 /\
       (descends fno lvl = false -> line_idx s' = line_idx s1)) /\
  (forall ends fuel path lvl s r s',
     (forall t, connect_status env t = true) ->
     explore_disk cfg env fuel path lvl s = Some (r, s') ->
     f_opendir env path = FR_OK ->
     ends_at path (ends path) ->
     (forall m, (m < ends path)%nat ->
        fname_is_dot (snd (f_readdir env path m)) = false ->
        descends (snd (f_readdir env path m)) lvl = true ->
        f_opendir env (fname (snd (f_readdir env path m))) = FR_OK ->
        ends_at (fname (snd (f_readdir env path m)))
                (ends (fname (snd (f_readdir env path m))))) ->
     0 <= line_idx s <= 4 ->
     line_idx s' =
       (line_idx s + Z.of_nat (traversal_lines ends path lvl 0 (ends path))) mod 5) /\
  (forall fuel path lvl s r s',
     explore_disk cfg env fuel path lvl s = Some (r, s') ->
     line_idx s' = line_idx s \/ 0 <= line_idx s' <= 4) /\
  (cooperative ->
   forall path lvl s, exists fuel r s',
     explore_disk cfg env fuel path lvl s = Some (r, s') /\
     (line_idx s' = line_idx s \/ 0 <= line_idx s' <= 4)) /\
  (forall fuel s ret s',
     usbh_usr_msc_application cfg env fuel s = Some (ret, s') ->
     usbh_usr_application_state s = USBH_USR_FS_READLIST -> line_idx s' = 0).
Proof.
  assert (D : forall fuel path lvl s r s',
            explore_disk cfg env fuel path lvl s = Some (r, s') ->
            line_idx s' = line_idx s \/ 0 <= line_idx s' <= 4).
  { intros fuel path lvl s r s' H.
    apply (proj1 (explore_frame fuel) _ _ _ _ _ H). }
  split; [|split; [|split; [|split; [|split; [|split]]]]].
  - intros fuel s. unfold next_line. cbn [line_idx set_line_idx]. split.
    + intros G. rewrite G. reflexivity.
    + intros G. rewrite G. eexists. split; [|split; [reflexivity|]].
      * match goal with
        | |- line_idx (hint_lines _ ?a ?b ?c ?x) = _ =>
          rewrite (proj1 (proj2 (proj1 (hint_lines_core a b c x))))
        end. reflexivity.
      * intros s' P. apply poll_key_core in P. destruct P as [(_ & L & _) _].
        rewrite L.
        match goal with
        | |- line_idx (hint_lines _ ?a ?b ?c ?x) = _ =>
          rewrite (proj1 (proj2 (proj1 (hint_lines_core a b c x))))
        end. reflexivity.
  - intros fuel s s' H. apply next_line_spec in H. tauto.
  - intros fuel fno lvl s s' H.
    split; [apply (proj2 (proj2 (explore_frame fuel)) _ _ _ _ H)|].
    destruct fuel as [|fuel']; [discriminate|].
    rewrite explore_entry_S in H. split_result H.
    exists fuel', s0. split; [reflexivity|]. split; [exact E|].
    intros Ds. rewrite Ds in H.
    inversion H; subst. apply (print_entry_core fno lvl s0).
  - intros ends fuel path lvl s r s' Co H Op [Hs He] Sub R.
    destruct fuel as [|fuel]; [discriminate|].
    rewrite explore_disk_S, Op in H.
    change (FR_OK =? FR_OK) with true in H. cbv iota in H.
    split_result H. inversion H; subst; clear H.
    change (line_idx (leave s0)) with (line_idx s0).
    apply (explore_loop_count Co ends _ _ _ (ends path) 0%nat _ _ E).
    + intros m Hm. apply Hs. lia.
    + exact He.
    + intros m Hm. apply Sub. lia.
    + exact R.
  - exact D.
  - intros Co path lvl s.
    destruct (explore_disk_total Co path lvl s) as (fuel & r & s' & H).
    exists fuel, r, s'. split; [exact H | exact (D _ _ _ _ _ _ H)].
  - intros fuel s ret s' H St. apply application_step in H. tauto.
Qed.

(** C10: an entry whose name begins with '.' is skipped.  When the device is
    connected and the read succeeds with such a name, the loop goes on with
    the next read from a state that has the same trace (nothing printed),
    the same [line_idx], and no new call of [explore_disk]. *)
Theorem C10_dot_entries_skipped fuel path idx lvl s rest :
  connect_status env (clock s) = true ->
  fst (f_readdir env path idx) = FR_OK ->
  fname (snd (f_readdir env path idx)) = String "."%char rest ->
  exists s1,
    explore_loop cfg env (S fuel) path idx lvl s =
      explore_loop cfg env fuel path (S idx) lvl s1 /\
    trace s1 = trace s /\
    line_idx s1 = line_idx s /\
    calls s1 = calls s /\
    stack_depth s1 = stack_depth s.
Proof.
  intros C R N.
  exists (set_res (fst (f_readdir env path idx)) (tick s)).
  rewrite explore_loop_S, C.
  unfold readdir_stops, fname_is_empty, fname_is_dot. rewrite R, N.
  simpl. repeat split.
Qed.

(** *** One-shot initialisation *)

Lemma usbh_user_init_started s : startup s <> 0 -> usbh_user_init cfg s = s.
Proof.
  intros N. unfold usbh_user_init. apply Z.eqb_neq in N. rewrite N. reflexivity.
Qed.

Lemma usbh_user_init_startup s : startup (usbh_user_init cfg s) <> 0.
Proof.
  unfold usbh_user_init. destruct (startup s =? 0) eqn:E.
  - destruct (USE_ULPI_PHY cfg), (USE_LCD cfg); simpl; discriminate.
  - apply Z.eqb_neq. exact E.
Qed.

(** C7: [usbh_user_init] initialises the board once.  A call that finds the
    static [startup] at 0 sets it to 1, configures both keys, and brings up
    the LCD log or the serial port with the start-up message; a call that
    finds it non-zero changes nothing; hence one or more calls in a row
    leave the same state as a single call. *)
Theorem C7_usbh_user_init_once s :
  (startup s = 0 ->
     startup (usbh_user_init cfg s) = 1 /\
     In (gd_eval_key_init KEY_TAMPER KEY_MODE_GPIO) (trace (usbh_user_init cfg s)) /\
     In (gd_eval_key_init KEY_WAKEUP KEY_MODE_GPIO) (trace (usbh_user_init cfg s)) /\
     (if USE_LCD cfg
      then In gd_eval_lcd_init (trace (usbh_user_init cfg s)) /\
           In (LCD_UsrLog ("USB host library started" ++ LF))
              (trace (usbh_user_init cfg s))
      else In gd_eval_com_init (trace (usbh_user_init cfg s)) /\
           In (LCD_UsrLog (CRLF ++ "++++USB host library started++++" ++ CRLF))
              (trace (usbh_user_init cfg s)))) /\
  (startup s <> 0 -> usbh_user_init cfg s = s) /\
  usbh_user_init cfg (usbh_user_init cfg s) = usbh_user_init cfg s /\
  (forall n, Nat.iter (S n) (usbh_user_init cfg) s = usbh_user_init cfg s).
Proof.
  split; [|split; [|split]].
  - intros Z0. unfold usbh_user_init. rewrite Z0. cbn [Z.eqb].
    destruct (USE_ULPI_PHY cfg), (USE_LCD cfg); simpl; tauto.
  - apply usbh_user_init_started.
  - apply usbh_user_init_started, usbh_user_init_startup.
  - induction n as [|n IH].
    + reflexivity.
    + change (Nat.iter (S (S n)) (usbh_user_init cfg) s)
        with (usbh_user_init cfg (Nat.iter (S n) (usbh_user_init cfg) s)).
      rewrite IH. apply usbh_user_init_started, usbh_user_init_startup.
Qed.


End Facts.

(** *** The claims on concrete worlds *)

Lemma listing_stops l : readdir_stops (listing l (List.length l)) = true.
Proof.
  unfold listing. rewrite (proj2 (nth_error_None l (List.length l)) (Nat.le_refl _)).
  reflexivity.
Qed.

Lemma demo_env_cooperative : cooperative demo_env.
Proof.
  left. split.
  - intros t. exists 0%nat. right. simpl. discriminate.
  - intros path. exists (List.length (demo_dirs path)). apply listing_stops.
Qed.

Lemma demo_env_wakeup : wait_ends demo_env KEY_WAKEUP RESET.
Proof. intros t. exists 0%nat. right. simpl. discriminate. Qed.

Lemma C1_state_sequence_witness :
  (usbh_usr_msc_application serial_cfg demo_env 20 (in_state USBH_USR_FS_READLIST)
     = Some (0, demo_listed) /\
   usbh_usr_application_state demo_listed = USBH_USR_FS_WRITEFILE) /\
  (exists fuel ret s',
     usbh_usr_msc_application serial_cfg demo_env fuel (in_state USBH_USR_FS_WRITEFILE)
       = Some (ret, s')).
Proof.
  assert (E : usbh_usr_msc_application serial_cfg demo_env 20
                (in_state USBH_USR_FS_READLIST) = Some (0, demo_listed))
    by (vm_compute; reflexivity).
  split; [split; [exact E|]|].
  - destruct (C1_state_sequence serial_cfg demo_env (in_state USBH_USR_FS_READLIST))
      as (P & _ & _).
    destruct (P 20%nat 0 demo_listed E) as (_ & R & _).
    apply R. reflexivity.
  - destruct (C1_state_sequence serial_cfg demo_env (in_state USBH_USR_FS_WRITEFILE))
      as (_ & _ & T).
    apply T.
    + exact demo_env_cooperative.
    + exact demo_env_wakeup.
Defined.

Lemma C2_return_value_witness :
  usbh_usr_msc_application serial_cfg unmountable_env 0 (in_state USBH_USR_FS_INIT)
    = Some (-1, unmountable_failed) /\
  usbh_usr_application_state unmountable_failed = USBH_USR_FS_INIT.
Proof.
  assert (E : usbh_usr_msc_application serial_cfg unmountable_env 0
                (in_state USBH_USR_FS_INIT) = Some (-1, unmountable_failed))
    by (vm_compute; reflexivity).
  split; [exact E|].
  destruct (C2_return_value serial_cfg unmountable_env (in_state USBH_USR_FS_INIT))
    as (P & _ & _).
  destruct (P 0%nat (-1) unmountable_failed E) as (_ & I & _).
  apply I. reflexivity.
Defined.

Lemma C3_explore_disk_recursion_and_termination_witness :
  (exists fuel r s',
     explore_disk lcd_cfg demo_env fuel "0:/" 1 init_state = Some (r, s')) /\
  explore_disk lcd_cfg demo_env 20 "0:/" 1 init_state = Some (0, demo_explored) /\
  stack_depth demo_explored = 0%nat /\
  calls demo_explored = [("DOCS", 2, 2%nat); ("0:/", 1, 1%nat)].
Proof.
  assert (E : explore_disk lcd_cfg demo_env 20 "0:/" 1 init_state = Some (0, demo_explored))
    by (vm_compute; reflexivity).
  destruct (C3_explore_disk_recursion_and_termination lcd_cfg demo_env) as (_ & P & T).
  split; [|split; [exact E|split]].
  - apply T. exact demo_env_cooperative.
  - apply (P 20%nat "0:/" 1 init_state 0 demo_explored E).
  - reflexivity.
Defined.

(** With five files in the root, a connected device and a Tamper key that is
    never pressed, the wait of the fifth line has no end although every
    listing ends. *)
Lemma idle_user_waits cfg fuel : forall s,
  poll_key cfg idle_user_env fuel KEY_TAMPER SET s = None.
Proof.
  induction fuel as [|fuel IH]; intros s; [reflexivity|]. simpl. apply IH.
Qed.

Lemma idle_user_loop fuel : forall idx s,
  (idx <= 4)%nat -> line_idx s = Z.of_nat idx ->
  explore_loop serial_cfg idle_user_env fuel "0:/" idx 1 s = None.
Proof.
  induction fuel as [|fuel IH]; intros idx s Hi L; [reflexivity|].
  rewrite explore_loop_S. cbn [connect_status idle_user_env].
  assert (R : readdir_stops (f_readdir idle_user_env "0:/" idx) = false
              /\ fname_is_dot (snd (f_readdir idle_user_env "0:/" idx)) = false
              /\ descends (snd (f_readdir idle_user_env "0:/" idx)) 1 = false).
  { destruct idx as [|[|[|[|[|idx]]]]]; [repeat split .. | lia]. }
  destruct R as (R1 & R2 & R3). rewrite R1, R2.
  destruct fuel as [|fuel']; [reflexivity|].
  rewrite explore_entry_S, R3.
  unfold next_line. cbn [line_idx set_line_idx set_res tick]. rewrite L.
  destruct (Nat.eq_dec idx 4) as [->|N4].
  - cbn [Z.of_nat]. replace (uint8 (Z.pos 4 + 1) >? 4) with true by reflexivity.
    rewrite idle_user_waits. reflexivity.
  - replace (uint8 (Z.of_nat idx + 1) >? 4) with false.
    2:{ destruct idx as [|[|[|[|idx]]]]; try reflexivity; lia. }
    apply IH; [lia|].
    rewrite (proj1 (proj2 (proj1 (print_entry_core _ _ _)))). cbn [line_idx].
    destruct idx as [|[|[|[|idx]]]]; try reflexivity; lia.
Qed.

Lemma C3_counterexample :
  (forall path, listing_ends idle_user_env path) /\
  (forall fuel, explore_disk serial_cfg idle_user_env fuel "0:/" 1 init_state = None).
Proof.
  split.
  - intros path.
    exists (List.length (if String.eqb path "0:/" then five_files else [])).
    apply listing_stops.
  - intros [|fuel]; [reflexivity|].
    rewrite explore_disk_S. cbn [f_opendir idle_user_env].
    change (FR_OK =? FR_OK) with true. cbv iota.
    rewrite idle_user_loop; [reflexivity | lia | reflexivity].
Qed.

Lemma C7_usbh_user_init_once_witness :
  startup (usbh_user_init serial_cfg init_state) = 1 /\
  Nat.iter 3 (usbh_user_init serial_cfg) init_state = usbh_user_init serial_cfg init_state.
Proof.
  destruct (C7_usbh_user_init_once serial_cfg init_state) as (F & _ & _ & I).
  split.
  - apply F. reflexivity.
  - apply (I 2%nat).
Defined.

(** The read at which each listing of the demo stick ends, and the demo
    stick explored from a full page. *)
Definition demo_ends (path : string) : nat := List.length (demo_dirs path).

Definition demo_paged : state :=
  Eval vm_compute in
    result_state
      (match explore_disk lcd_cfg demo_env 20 "0:/" 1 (set_line_idx 4 init_state) with
       | Some (r, s) => Some (r, s)
       | None => None
       end).

Lemma demo_ends_at path : ends_at demo_env path (demo_ends path).
Proof.
  unfold ends_at, demo_ends. cbn [f_readdir demo_env].
  split; [|apply listing_stops].
  unfold demo_dirs.
  destruct (String.eqb path "0:/"); [|destruct (String.eqb path "DOCS")];
    intros m Hm; cbn [List.length] in Hm.
  - destruct m as [|[|[|[|m]]]]; [reflexivity | reflexivity | reflexivity | reflexivity | lia].
  - destruct m as [|[|m]]; [reflexivity | reflexivity | lia].
  - lia.
Qed.

Lemma C9_line_idx_range_witness :
  explore_disk lcd_cfg demo_env 20 "0:/" 1 (set_line_idx 4 init_state)
    = Some (0, demo_paged) /\
  traversal_lines demo_env demo_ends "0:/" 1 0 (demo_ends "0:/") = 4%nat /\
  line_idx demo_paged = 3 /\
  usbh_usr_msc_application lcd_cfg demo_env 20
    (set_line_idx 4 (in_state USBH_USR_FS_READLIST)) = Some (0, demo_listed_lcd) /\
  line_idx demo_listed_lcd = 0.
Proof.
  assert (X : explore_disk lcd_cfg demo_env 20 "0:/" 1 (set_line_idx 4 init_state)
              = Some (0, demo_paged))
    by (vm_compute; reflexivity).
  assert (E : usbh_usr_msc_application lcd_cfg demo_env 20
                (set_line_idx 4 (in_state USBH_USR_FS_READLIST))
              = Some (0, demo_listed_lcd))
    by (vm_compute; reflexivity).
  destruct (C9_line_idx_range lcd_cfg demo_env) as (_ & _ & _ & N & _ & _ & A).
  split; [exact X|]. split; [reflexivity|]. split; [|split; [exact E|]].
  - rewrite (N demo_ends 20%nat "0:/" 1 (set_line_idx 4 init_state) 0 demo_paged
               (fun _ => eq_refl) X eq_refl (demo_ends_at "0:/")).
    + reflexivity.
    + intros m _ _ _ _. apply demo_ends_at.
    + cbn. lia.
  - apply (A 20%nat _ 0 demo_listed_lcd E). reflexivity.
Defined.

(** [next_line] as the specification words it: the wait for the Tamper key
    first, the reset of [line_idx] after it. *)
Definition next_line_as_claimed (cfg : Config) (env : Env) (fuel : nat) (s : state)
  : option state :=
  let s := set_line_idx (uint8 (line_idx s + 1)) s in
  if line_idx s >? 4 then
    let s := hint_lines cfg "                                "
                        "Press Tamper Key to continue"
                        [">>> Press Tamper Key to continue" ++ CRLF] s in
    match poll_key cfg env fuel KEY_TAMPER SET s with
    | Some s => Some (set_line_idx 0 s)
    | None => None
    end
  else Some s.

(** A full page: four lines are on the screen. *)
Definition page_full : state := set_line_idx 4 init_state.

(** The state in which the wait for the key starts: in the code, and in the
    order the specification gives. *)
Definition pause_entered : state :=
  Eval vm_compute in
    hint_lines serial_cfg "                                "
               "Press Tamper Key to continue"
               [">>> Press Tamper Key to continue" ++ CRLF]
               (set_line_idx 0 (set_line_idx (uint8 (line_idx page_full + 1)) page_full)).

Definition pause_as_claimed : state :=
  Eval vm_compute in
    hint_lines serial_cfg "                                "
               "Press Tamper Key to continue"
               [">>> Press Tamper Key to continue" ++ CRLF]
               (set_line_idx (uint8 (line_idx page_full + 1)) page_full).

(** With a full page, a connected device and a Tamper key that is never
    pressed, listing the next entry waits without end, and it waits with
    [line_idx] already at 0: the reset is not made after the pause, where
    the specification puts it (there the wait would run with [line_idx] at
    5). *)
Lemma C9_counterexample :
  (forall fuel,
     next_line serial_cfg idle_user_env fuel page_full =
     poll_key serial_cfg idle_user_env fuel KEY_TAMPER SET pause_entered) /\
  line_idx pause_entered = 0 /\
  (forall fuel,
     poll_key serial_cfg idle_user_env fuel KEY_TAMPER SET pause_entered = None) /\
  (forall fuel,
     next_line_as_claimed serial_cfg idle_user_env fuel page_full =
     option_map (set_line_idx 0)
       (poll_key serial_cfg idle_user_env fuel KEY_TAMPER SET pause_as_claimed)) /\
  line_idx pause_as_claimed = 5.
Proof.
  split; [|split; [|split; [|split]]].
  - intros fuel. reflexivity.
  - reflexivity.
  - intros fuel. apply idle_user_waits.
  - intros fuel. unfold next_line_as_claimed.
    change (line_idx (set_line_idx (uint8 (line_idx page_full + 1)) page_full) >? 4)
      with true. cbv iota zeta.
    change (hint_lines serial_cfg "                                "
              "Press Tamper Key to continue"
              [">>> Press Tamper Key to continue" ++ CRLF]
              (set_line_idx (uint8 (line_idx page_full + 1)) page_full))
      with pause_as_claimed.
    destruct (poll_key serial_cfg idle_user_env fuel KEY_TAMPER SET pause_as_claimed);
      reflexivity.
  - reflexivity.
Qed.

Lemma C10_dot_entries_skipped_witness :
  exists s1,
    explore_loop serial_cfg demo_env 10 "0:/" 1 1 init_state =
      explore_loop serial_cfg demo_env 9 "0:/" 2 1 s1 /\
    trace s1 = trace init_state /\
    line_idx s1 = line_idx init_state /\
    calls s1 = calls init_state /\
    stack_depth s1 = stack_depth init_state.
Proof.
  apply (C10_dot_entries_skipped serial_cfg demo_env 9 "0:/" 1 1 init_state "Trash");
    reflexivity.
Defined.


End UsbhUsrFacts.

(* ====================================================================== *)
(** ** Facts about netconf.c *)
(* ====================================================================== *)

Module NetconfFacts.
Import Netconf.

Section Facts.

Variable api : lwip_api.
Variable cfg : Config.

Abbreviation state := (Netconf.state api).

(** How often call [c] is in a log. *)
Definition count (c : call) (l : list call) : nat := count_occ call_eq_dec l c.
Arguments count : simpl never.

(** The four lwIP timer calls. *)
Definition is_timer (c : call) : bool :=
  match c with
  | call_tcp_tmr | call_etharp_tmr | call_dhcp_fine_tmr | call_dhcp_coarse_tmr => true
  | _ => false
  end.

(** Same recorded times, and as many timer calls in the log as before. *)
Definition same_timers (s s' : state) : Prop :=
  tcpcurtime s' = tcpcurtime s /\
  arpcurtime s' = arpcurtime s /\
  finecurtime s' = finecurtime s /\
  coarsecurtime s' = coarsecurtime s /\
  forall c, is_timer c = true -> count c (log s') = count c (log s).

Lemma same_timers_refl s : same_timers s s.
Proof. repeat split. Qed.

Lemma same_timers_trans s1 s2 s3 :
  same_timers s1 s2 -> same_timers s2 s3 -> same_timers s1 s3.
Proof.
  intros (A1 & A2 & A3 & A4 & A5) (B1 & B2 & B3 & B4 & B5).
  repeat split; try congruence.
  intros c Hc. rewrite B5, A5; auto.
Qed.

Lemma count_cons_other c d l : c <> d -> count c (d :: l) = count c l.
Proof.
  intros N. unfold count. apply count_occ_cons_neq. congruence.
Qed.

Lemma count_cons_same c l : count c (c :: l) = S (count c l).
Proof. unfold count. apply count_occ_cons_eq. reflexivity. Qed.

Lemma invoke_same_timers c f s :
  is_timer c = false -> same_timers s (invoke api c f s).
Proof.
  intros N. repeat split. intros d Hd. simpl.
  apply count_cons_other. intros ->. congruence.
Qed.

Lemma dhcp_switch_same_timers n s : same_timers s (dhcp_switch api cfg n s).
Proof.
  unfold dhcp_switch.
  destruct (dhcp_addr_status s); try apply same_timers_refl.
  - eapply same_timers_trans;
      [apply (invoke_same_timers (call_dhcp_start n) (dhcp_start api n) s); reflexivity|].
    repeat split.
  - cbn [ip_address set_ip_address].
    destruct (negb (netif_ip_addr api n (lwip s) =? 0)).
    + repeat split. intros c Hc. simpl. apply count_cons_other. intros ->. discriminate.
    + destruct (netif_dhcp_tries api n (lwip (set_ip_address api (netif_ip_addr api n (lwip s)) s))
                >? DHCP_TRIES_MAX_TIMES).
      * repeat split. intros c Hc. simpl.
        rewrite !count_cons_other; auto; intros ->; discriminate.
      * repeat split.
Qed.

Lemma lwip_dhcp_address_get_same_timers s :
  same_timers s (lwip_dhcp_address_get api cfg s).
Proof.
  unfold lwip_dhcp_address_get.
  set (s0 := invoke api call_lwip_dhcp_address_get (fun l => l) s).
  assert (T0 : same_timers s s0) by (apply invoke_same_timers; reflexivity).
  destruct (USE_ENET0 cfg), (USE_ENET1 cfg); auto.
  - eapply same_timers_trans; [exact T0|].
    eapply same_timers_trans; apply dhcp_switch_same_timers.
  - eapply same_timers_trans; [exact T0|]. apply dhcp_switch_same_timers.
  - eapply same_timers_trans; [exact T0|]. apply dhcp_switch_same_timers.
Qed.

Lemma elapsed_spec curtime recorded interval :
  elapsed curtime recorded interval = true <->
  interval <= (curtime - recorded) mod 4294967296.
Proof.
  unfold elapsed, uint32. rewrite Z.geb_le. reflexivity.
Qed.

(** One timer of [lwip_timeouts_check]: what it adds to the log and where
    it leaves its recorded time. *)
Definition timer_fires (c : call) (recorded : state -> Z) (interval curtime : Z)
    (s s' : state) : Prop :=
  count c (log s') =
    (count c (log s) + (if elapsed curtime (recorded s) interval then 1 else 0))%nat /\
  recorded s' = (if elapsed curtime (recorded s) interval then curtime else recorded s).

(** C5: in a build with [LWIP_TCP] and [USE_DHCP], a call
    [lwip_timeouts_check(curtime)] invokes [tcp_tmr] once when the 32-bit
    difference [curtime - tcpcurtime] is at least [TCP_TMR_INTERVAL] and then
    records [curtime] in [tcpcurtime]; otherwise it neither calls it nor
    touches [tcpcurtime].  The same holds for [etharp_tmr] with
    [arpcurtime] and [ARP_TMR_INTERVAL], for [dhcp_fine_tmr] with
    [finecurtime] and 500 ms, and for [dhcp_coarse_tmr] with [coarsecurtime]
    and 60 s. *)
Theorem C5_timers_fire_when_elapsed curtime s :
  LWIP_TCP cfg = true -> USE_DHCP cfg = true ->
  let s' := lwip_timeouts_check api cfg curtime s in
  timer_fires call_tcp_tmr tcpcurtime TCP_TMR_INTERVAL curtime s s' /\
  timer_fires call_etharp_tmr arpcurtime ARP_TMR_INTERVAL curtime s s' /\
  timer_fires call_dhcp_fine_tmr finecurtime 500 curtime s s' /\
  timer_fires call_dhcp_coarse_tmr coarsecurtime 60000 curtime s s'.
Proof.
  intros Htcp Hdhcp. unfold lwip_timeouts_check. rewrite Htcp, Hdhcp.
  change DHCP_FINE_TIMER_MSECS with 500. change DHCP_COARSE_TIMER_MSECS with 60000.
  set (s1 := if elapsed curtime (tcpcurtime s) TCP_TMR_INTERVAL
             then invoke api call_tcp_tmr (tcp_tmr api) (set_tcpcurtime api curtime s)
             else s).
  set (s2 := if elapsed curtime (arpcurtime s1) ARP_TMR_INTERVAL
             then invoke api call_etharp_tmr (etharp_tmr api) (set_arpcurtime api curtime s1)
             else s1).
  set (s3f := invoke api call_dhcp_fine_tmr (dhcp_fine_tmr api)
                (set_finecurtime api curtime s2)).
  set (s3g := match dhcp_addr_status s3f with
              | DHCP_ADDR_GOT | DHCP_ADDR_FAIL => s3f
              | _ => lwip_dhcp_address_get api cfg s3f
              end).
  set (s3 := if elapsed curtime (finecurtime s2) 500 then s3g else s2).
  assert (G : same_timers s3f s3g).
  { subst s3g. destruct (dhcp_addr_status s3f);
      (apply same_timers_refl || apply lwip_dhcp_address_get_same_timers). }
  destruct G as (G1 & G2 & G3 & G4 & G5).
  assert (A2 : arpcurtime s1 = arpcurtime s /\ finecurtime s1 = finecurtime s /\
               coarsecurtime s1 = coarsecurtime s).
  { subst s1. destruct (elapsed curtime (tcpcurtime s) TCP_TMR_INTERVAL); repeat split. }
  destruct A2 as (A2 & A3 & A4).
  assert (B : finecurtime s2 = finecurtime s /\ coarsecurtime s2 = coarsecurtime s /\
              tcpcurtime s2 = tcpcurtime s1).
  { subst s2. destruct (elapsed curtime (arpcurtime s1) ARP_TMR_INTERVAL);
      simpl; repeat split; assumption. }
  destruct B as (B3 & B4 & B1).
  assert (C : coarsecurtime s3 = coarsecurtime s /\ tcpcurtime s3 = tcpcurtime s1 /\
              arpcurtime s3 = arpcurtime s2).
  { subst s3. destruct (elapsed curtime (finecurtime s2) 500);
      [rewrite G4, G1, G2; simpl|]; repeat split; assumption. }
  destruct C as (C4 & C1 & C2).
  rewrite C4.
  assert (K3 : forall c, c <> call_dhcp_fine_tmr -> is_timer c = true ->
               count c (log s3) = count c (log s2)).
  { intros c N Hc. subst s3. destruct (elapsed curtime (finecurtime s2) 500); [|reflexivity].
    rewrite (G5 c Hc). simpl. apply count_cons_other. exact N. }
  assert (K2 : forall c, c <> call_etharp_tmr -> count c (log s2) = count c (log s1)).
  { intros c N. subst s2. destruct (elapsed curtime (arpcurtime s1) ARP_TMR_INTERVAL);
      [|reflexivity]. simpl. apply count_cons_other. exact N. }
  assert (K1 : forall c, c <> call_tcp_tmr -> count c (log s1) = count c (log s)).
  { intros c N. subst s1. destruct (elapsed curtime (tcpcurtime s) TCP_TMR_INTERVAL);
      [|reflexivity]. simpl. apply count_cons_other. exact N. }
  set (s4 := if elapsed curtime (coarsecurtime s) 60000
             then invoke api call_dhcp_coarse_tmr (dhcp_coarse_tmr api)
                    (set_coarsecurtime api curtime s3)
             else s3).
  assert (K4 : forall c, c <> call_dhcp_coarse_tmr -> count c (log s4) = count c (log s3)).
  { intros c N. subst s4. destruct (elapsed curtime (coarsecurtime s) 60000);
      [|reflexivity]. simpl. apply count_cons_other. exact N. }
  assert (D : tcpcurtime s4 = tcpcurtime s3 /\ arpcurtime s4 = arpcurtime s3 /\
              finecurtime s4 = finecurtime s3).
  { subst s4. destruct (elapsed curtime (coarsecurtime s) 60000); repeat split. }
  destruct D as (D1 & D2 & D3).
  cbv zeta. unfold timer_fires.
  repeat split.
  - rewrite K4, K3, K2 by (discriminate || reflexivity).
    subst s1. destruct (elapsed curtime (tcpcurtime s) TCP_TMR_INTERVAL); simpl.
    + rewrite count_cons_same. lia.
    + lia.
  - rewrite D1, C1. subst s1.
    destruct (elapsed curtime (tcpcurtime s) TCP_TMR_INTERVAL); reflexivity.
  - rewrite K4, K3 by (discriminate || reflexivity). rewrite <- A2.
    rewrite <- (K1 call_etharp_tmr) by discriminate. subst s2.
    destruct (elapsed curtime (arpcurtime s1) ARP_TMR_INTERVAL); simpl.
    + rewrite count_cons_same. lia.
    + lia.
  - rewrite D2, C2. rewrite <- A2. subst s2.
    destruct (elapsed curtime (arpcurtime s1) ARP_TMR_INTERVAL); reflexivity.
  - rewrite K4 by discriminate. rewrite <- B3.
    rewrite <- (K1 call_dhcp_fine_tmr), <- (K2 call_dhcp_fine_tmr) by discriminate.
    subst s3. destruct (elapsed curtime (finecurtime s2) 500).
    + rewrite (G5 call_dhcp_fine_tmr eq_refl). subst s3f. cbn [log invoke set_finecurtime].
      rewrite count_cons_same. lia.
    + lia.
  - rewrite D3. rewrite <- B3. subst s3.
    destruct (elapsed curtime (finecurtime s2) 500); [rewrite G3|]; reflexivity.
  - rewrite <- (K1 call_dhcp_coarse_tmr), <- (K2 call_dhcp_coarse_tmr),
      <- (K3 call_dhcp_coarse_tmr) by (discriminate || reflexivity).
    subst s4. destruct (elapsed curtime (coarsecurtime s) 60000); simpl.
    + rewrite count_cons_same. lia.
    + lia.
  - subst s4. destruct (elapsed curtime (coarsecurtime s) 60000); simpl; auto.
Qed.

(** *** The DHCP polling state machine *)

(** The address was obtained or given up. *)
Definition settled (s : state) : Prop :=
  dhcp_addr_status s = DHCP_ADDR_GOT \/ dhcp_addr_status s = DHCP_ADDR_FAIL.

Lemma dhcp_switch_settled n s : settled s -> dhcp_switch api cfg n s = s.
Proof.
  unfold dhcp_switch. intros [H|H]; rewrite H; reflexivity.
Qed.

Lemma lwip_dhcp_address_get_settled s :
  settled s ->
  lwip_dhcp_address_get api cfg s = invoke api call_lwip_dhcp_address_get (fun l => l) s.
Proof.
  intros H. unfold lwip_dhcp_address_get.
  assert (H0 : settled (invoke api call_lwip_dhcp_address_get (fun l => l) s)) by exact H.
  destruct (USE_ENET0 cfg), (USE_ENET1 cfg);
    rewrite ?(dhcp_switch_settled _ _ H0); reflexivity.
Qed.

Lemma lwip_timeouts_check_settled curtime s :
  settled s ->
  dhcp_addr_status (lwip_timeouts_check api cfg curtime s) = dhcp_addr_status s /\
  count call_lwip_dhcp_address_get (log (lwip_timeouts_check api cfg curtime s)) =
    count call_lwip_dhcp_address_get (log s).
Proof.
  intros H. unfold lwip_timeouts_check.
  destruct (LWIP_TCP cfg);
    [destruct (elapsed curtime (tcpcurtime s) TCP_TMR_INTERVAL)|];
    cbn [arpcurtime invoke set_tcpcurtime];
    destruct (elapsed curtime (arpcurtime s) ARP_TMR_INTERVAL);
    cbn [finecurtime invoke set_tcpcurtime set_arpcurtime];
    (destruct (USE_DHCP cfg);
     [destruct (elapsed curtime (finecurtime s) DHCP_FINE_TIMER_MSECS);
      cbn [dhcp_addr_status invoke set_finecurtime set_tcpcurtime set_arpcurtime];
      [destruct H as [H|H]; rewrite H|];
      cbn [coarsecurtime invoke set_finecurtime set_tcpcurtime set_arpcurtime];
      destruct (elapsed curtime (coarsecurtime s) DHCP_COARSE_TIMER_MSECS)|]);
    cbn [dhcp_addr_status log invoke set_finecurtime set_tcpcurtime set_arpcurtime
         set_coarsecurtime];
    (split; [first [reflexivity | assumption | symmetry; assumption]|]);
    rewrite ?count_cons_other by discriminate; reflexivity.
Qed.

Lemma run_settled es : forall s,
  settled s -> dhcp_addr_status (run api cfg es s) = dhcp_addr_status s.
Proof.
  induction es as [|e es IH]; intros s H; [reflexivity|].
  unfold run in *. cbn [fold_left].
  assert (E : dhcp_addr_status (run_entry api cfg s e) = dhcp_addr_status s).
  { destruct e as [curtime|]; cbn [run_entry].
    - apply lwip_timeouts_check_settled. exact H.
    - rewrite lwip_dhcp_address_get_settled by exact H. reflexivity. }
  rewrite IH; [exact E|]. unfold settled. rewrite E. exact H.
Qed.

(** C6: [DHCP_ADDR_GOT] and [DHCP_ADDR_FAIL] are final: in either state
    [lwip_dhcp_address_get] changes nothing but the log of its own entry,
    [lwip_timeouts_check] keeps the status and does not enter
    [lwip_dhcp_address_get], and no sequence of calls of the two changes the
    status.  When [lwip_dhcp_address_get] runs in [DHCP_ADDR_BEGIN] while the
    address of the interface is 0 and the DHCP client has tried more than
    [DHCP_TRIES_MAX_TIMES] = 3 times, the status becomes [DHCP_ADDR_FAIL],
    DHCP is stopped on the interface and the board address, netmask and
    gateway are set on it. *)
Theorem C6_dhcp_status_final_and_fail :
  (forall s, settled s ->
     lwip_dhcp_address_get api cfg s =
       invoke api call_lwip_dhcp_address_get (fun l => l) s) /\
  (forall curtime s, settled s ->
     dhcp_addr_status (lwip_timeouts_check api cfg curtime s) = dhcp_addr_status s /\
     count call_lwip_dhcp_address_get (log (lwip_timeouts_check api cfg curtime s)) =
       count call_lwip_dhcp_address_get (log s)) /\
  (forall es s, settled s ->
     dhcp_addr_status (run api cfg es s) = dhcp_addr_status s) /\
  (forall n s,
     first_netif cfg = Some n ->
     dhcp_addr_status s = DHCP_ADDR_BEGIN ->
     netif_ip_addr api n (lwip s) = 0 ->
     netif_dhcp_tries api n (lwip s) > 3 ->
     let s' := lwip_dhcp_address_get api cfg s in
     let gd_ipaddr := board_addr api (BOARD_IP_ADDR cfg) in
     let gd_netmask := board_addr api (BOARD_NETMASK_ADDR cfg) in
     let gd_gw := board_addr api (BOARD_GW_ADDR cfg) in
     dhcp_addr_status s' = DHCP_ADDR_FAIL /\
     lwip s' = netif_set_addr api n gd_ipaddr gd_netmask gd_gw (dhcp_stop api n (lwip s)) /\
     log s' = call_netif_set_addr n gd_ipaddr gd_netmask gd_gw
              :: call_dhcp_stop n :: call_lwip_dhcp_address_get :: log s).
Proof.
  split; [|split; [|split]].
  - apply lwip_dhcp_address_get_settled.
  - apply lwip_timeouts_check_settled.
  - intros es s H. apply run_settled. exact H.
  - intros n s Hn Hb Hip Htries. cbv zeta.
    assert (Sw : forall s0, dhcp_addr_status s0 = DHCP_ADDR_BEGIN ->
                   lwip s0 = lwip s ->
                   let r := dhcp_switch api cfg n s0 in
                   dhcp_addr_status r = DHCP_ADDR_FAIL /\
                   lwip r = netif_set_addr api n (board_addr api (BOARD_IP_ADDR cfg))
                              (board_addr api (BOARD_NETMASK_ADDR cfg))
                              (board_addr api (BOARD_GW_ADDR cfg))
                              (dhcp_stop api n (lwip s)) /\
                   log r = call_netif_set_addr n (board_addr api (BOARD_IP_ADDR cfg))
                             (board_addr api (BOARD_NETMASK_ADDR cfg))
                             (board_addr api (BOARD_GW_ADDR cfg))
                           :: call_dhcp_stop n :: log s0).
    { intros s0 B L. unfold dhcp_switch. rewrite B.
      cbn [ip_address set_ip_address lwip]. rewrite L, Hip. cbn [Z.eqb negb].
      unfold DHCP_TRIES_MAX_TIMES.
      rewrite (proj2 (Z.gtb_gt _ _) Htries).
      unfold invoke, set_dhcp_addr_status, set_ip_address.
      cbn [lwip log dhcp_addr_status]. rewrite L. repeat split. }
    unfold lwip_dhcp_address_get, first_netif in *.
    set (s0 := invoke api call_lwip_dhcp_address_get (fun l => l) s).
    destruct (Sw s0 Hb eq_refl) as (R1 & R2 & R3).
    destruct (USE_ENET0 cfg).
    + inversion Hn; subst n.
      destruct (USE_ENET1 cfg).
      * rewrite dhcp_switch_settled by (right; exact R1). auto.
      * auto.
    + destruct (USE_ENET1 cfg); [|discriminate].
      inversion Hn; subst n. auto.
Qed.


End Facts.

(** *** The claims on the toy lwIP *)

Lemma C5_timers_fire_when_elapsed_witness :
  let s' := lwip_timeouts_check toy_lwip toy_cfg 300 toy_init in
  timer_fires toy_lwip call_tcp_tmr tcpcurtime TCP_TMR_INTERVAL 300 toy_init s' /\
  timer_fires toy_lwip call_etharp_tmr arpcurtime ARP_TMR_INTERVAL 300 toy_init s' /\
  timer_fires toy_lwip call_dhcp_fine_tmr finecurtime 500 300 toy_init s' /\
  timer_fires toy_lwip call_dhcp_coarse_tmr coarsecurtime 60000 300 toy_init s'.
Proof.
  apply (C5_timers_fire_when_elapsed toy_lwip toy_cfg 300 toy_init); reflexivity.
Defined.

Lemma C6_dhcp_status_final_and_fail_witness :
  let s' := lwip_dhcp_address_get toy_lwip toy_cfg toy_starved in
  dhcp_addr_status s' = DHCP_ADDR_FAIL /\
  lwip s' = (mkToy 1761716416 16777215 16885952 4, mkToy 0 0 0 0) /\
  dhcp_addr_status (run toy_lwip toy_cfg
                      [enter_lwip_timeouts_check 1000; enter_lwip_dhcp_address_get] s')
    = DHCP_ADDR_FAIL.
Proof.
  destruct (C6_dhcp_status_final_and_fail toy_lwip toy_cfg) as (_ & _ & F & B).
  destruct (B g_mynetif0 toy_starved) as (S1 & S2 & S3);
    [reflexivity | reflexivity | reflexivity | reflexivity |].
  cbv zeta. split; [exact S1|]. split.
  - reflexivity.
  - rewrite (F _ _ (or_intror S1)). exact S1.
Defined.


End NetconfFacts.

(* ====================================================================== *)
(** ** Facts about gd32h7xx_it.c *)
(* ====================================================================== *)

Module ItFacts.
Import It.
Import ITreeNotations.
Local Open Scope itree_scope.

(** *** The fault stubs *)

Lemma while_true_empty_spin {E : Type -> Type} :
  @while_ E (Ret true) (Ret tt) ≈ ITree.spin.
Proof.
  unfold while_.
  einit. ecofix CIH.
  rewrite unfold_iter, bind_bind, bind_ret_l, bind_bind, bind_ret_l, bind_ret_l.
  rewrite (itree_eta ITree.spin). cbn.
  etau.
Qed.

(** A handler never returns: it makes no call and yields no result. *)
Definition never_returns (h : itree itE unit) : Prop :=
  h ≈ ITree.spin /\ forall r : unit, ~ h ≈ Ret r.

Lemma while_true_empty_never_returns : never_returns (while_ (Ret true) (Ret tt)).
Proof.
  split; [apply while_true_empty_spin|].
  intros r H. rewrite while_true_empty_spin in H.
  exact (eutt_spin_Ret_abs r H).
Qed.

(** C8: [NMI_Handler], [HardFault_Handler], [MemManage_Handler],
    [BusFault_Handler], [UsageFault_Handler], [DebugMon_Handler] and
    [FPU_IRQHandler] never return: each is the silently diverging tree, the
    loop [while (1)] with an empty body. *)
Theorem C8_fault_handlers_never_return :
  Forall (fun h => never_returns (snd h)) fault_handlers.
Proof.
  unfold fault_handlers.
  repeat (constructor; [exact while_true_empty_never_returns|]).
  constructor.
Qed.

(** *** The receive relays *)

(** The board after the relay of MAC [p] has run, as a function. *)
Definition relayed (p : enet_periph) (b : board) : board :=
  let set := FlagStatus_eqb SET (pending b p ENET_DMA_INT_FLAG_RS) in
  let b := log_call (called_enet_interrupt_flag_get p ENET_DMA_INT_FLAG_RS) b in
  let woken := if set then task_woken b else pdFALSE in
  let b := if set
           then log_call (called_xSemaphoreGiveFromISR g_rx_semaphore) (give b)
           else b in
  let b := log_call (called_enet_interrupt_flag_clear p ENET_DMA_INT_FLAG_RS_CLR)
             (clear_flag p ENET_DMA_INT_FLAG_RS_CLR b) in
  let b := log_call (called_enet_interrupt_flag_clear p ENET_DMA_INT_FLAG_NI_CLR)
             (clear_flag p ENET_DMA_INT_FLAG_NI_CLR b) in
  if negb (woken =? pdFALSE)
  then log_call (called_portEND_SWITCHING_ISR woken) (switch_context b)
  else b.

Ltac run_event :=
  rewrite interp_state_bind;
  first [rewrite interp_state_trigger | rewrite interp_state_ret];
  cbn [board_handler]; rewrite bind_ret_l; cbn [fst snd].

Lemma ENET_IRQHandler_runs p b :
  interp_state board_handler (ENET_IRQHandler p) b ≈ Ret (relayed p b, tt).
Proof.
  unfold relayed.
  destruct p; unfold ENET_IRQHandler, ENET0_IRQHandler, ENET1_IRQHandler.
  all: run_event.
  all: match goal with
       | |- context [FlagStatus_eqb SET ?x] => destruct x; cbn [FlagStatus_eqb]
       end.
  all: run_event; run_event; run_event.
  all: cbn [task_woken log_call].
  all: try change (pdFALSE =? pdFALSE) with true; cbn [negb].
  all: try (destruct (task_woken b =? pdFALSE); cbn [negb]).
  all: first [rewrite interp_state_ret | rewrite interp_state_trigger].
  all: reflexivity.
Qed.

Lemma enet_periph_eqb_refl p : enet_periph_eqb p p = true.
Proof. destruct p; reflexivity. Qed.

(** C4: the relay of either MAC gives [g_rx_semaphore] exactly when the
    receive-status flag [ENET_DMA_INT_FLAG_RS] of its MAC is set on entry,
    and every run, with the flag set or not, clears the RS and the NI flag
    of its MAC before it returns. *)
Theorem C4_enet_irq_relay :
  forall p b,
    let b' := relayed p b in
    interp_state board_handler (ENET_IRQHandler p) b ≈ Ret (b', tt) /\
    given b' = (if FlagStatus_eqb SET (pending b p ENET_DMA_INT_FLAG_RS)
                then S (given b) else given b) /\
    (exists l, calls b' = (l ++ calls b)%list /\
       (In (called_xSemaphoreGiveFromISR g_rx_semaphore) l <->
        pending b p ENET_DMA_INT_FLAG_RS = SET) /\
       In (called_enet_interrupt_flag_clear p ENET_DMA_INT_FLAG_RS_CLR) l /\
       In (called_enet_interrupt_flag_clear p ENET_DMA_INT_FLAG_NI_CLR) l) /\
    pending b' p ENET_DMA_INT_FLAG_RS = RESET /\
    pending b' p ENET_DMA_INT_FLAG_NI = RESET.
Proof.
  intros p b. cbv zeta. split; [apply ENET_IRQHandler_runs|].
  unfold relayed.
  destruct (pending b p ENET_DMA_INT_FLAG_RS) eqn:F; cbn [FlagStatus_eqb].
  - change (pdFALSE =? pdFALSE) with true. cbn [negb].
    cbn [given calls pending log_call clear_flag].
    rewrite enet_periph_eqb_refl. cbn [andb clears].
    split; [reflexivity|]. split; [|split; reflexivity].
    exists [called_enet_interrupt_flag_clear p ENET_DMA_INT_FLAG_NI_CLR;
            called_enet_interrupt_flag_clear p ENET_DMA_INT_FLAG_RS_CLR;
            called_enet_interrupt_flag_get p ENET_DMA_INT_FLAG_RS].
    split; [reflexivity|]. cbn [In].
    split; [split; [|discriminate]|split]; intuition discriminate.
  - cbn [task_woken log_call].
    destruct (negb (task_woken b =? pdFALSE));
      cbn [given calls pending log_call clear_flag give switch_context];
      rewrite enet_periph_eqb_refl; cbn [andb clears];
      (split; [reflexivity|]); (split; [|split; reflexivity]).
    + exists [called_portEND_SWITCHING_ISR (task_woken b);
              called_enet_interrupt_flag_clear p ENET_DMA_INT_FLAG_NI_CLR;
              called_enet_interrupt_flag_clear p ENET_DMA_INT_FLAG_RS_CLR;
              called_xSemaphoreGiveFromISR g_rx_semaphore;
              called_enet_interrupt_flag_get p ENET_DMA_INT_FLAG_RS].
      split; [reflexivity|]. cbn [In]. intuition.
    + exists [called_enet_interrupt_flag_clear p ENET_DMA_INT_FLAG_NI_CLR;
              called_enet_interrupt_flag_clear p ENET_DMA_INT_FLAG_RS_CLR;
              called_xSemaphoreGiveFromISR g_rx_semaphore;
              called_enet_interrupt_flag_get p ENET_DMA_INT_FLAG_RS].
      split; [reflexivity|]. cbn [In]. intuition.
Qed.

End ItFacts.

(* ====================================================================== *)
(** ** More about usbh_usr.c: the waits, the LED blinker, the file round
       trip, whole runs of the demo and what the traversal prints *)
(* ====================================================================== *)

Module UsbhUsrMore.
Import UsbhUsr UsbhUsrFacts.

(** [n] calls of [usbh_usr_msc_application] in a row, as the host core makes
    them: the values returned, oldest first, and the last state. *)
Fixpoint repeat_application (cfg : Config) (env : Env) (fuel n : nat) (s : state)
  : option (list Z * state) :=
  match n with
  | O => Some ([], s)
  | S n' =>
    match usbh_usr_msc_application cfg env fuel s with
    | None => None
    | Some (ret, s1) =>
      match repeat_application cfg env fuel n' s1 with
      | None => None
      | Some (rets, s2) => Some (ret :: rets, s2)
      end
    end
  end.

(** The value [bytesWritten] holds when the comparison reads it: the count
    [n] of the write, unless the count of the read-back spilled into it. *)
Definition written_at_compare (env : Env) (n : Z) : Z :=
  bytesWritten (spills (f_read_spill env) (set_bytesWritten n init_state)).

(** Every FatFs answer of the write and read-back is good, the count read
    equals [bytesWritten], and [strncmp] over that many bytes finds the
    buffer read equal to the buffer written. *)
Definition round_trip_ok (env : Env) : bool :=
  (f_open_write env =? FR_OK)
  && negb (snd (f_write env) =? 0)
  && (fst (f_write env) =? FR_OK)
  && (f_open_read env =? FR_OK)
  && negb (snd (fst (f_read env)) =? 0)
  && (fst (fst (f_read env)) =? FR_OK)
  && (snd (fst (f_read env)) =? written_at_compare env (snd (f_write env)))
  && strncmp_eq (snd (f_read env)) WriteTextBuff (Z.to_nat (snd (fst (f_read env)))).

Definition compare_success : event :=
  LCD_UsrLog ("> File content compare: SUCCESS." ++ CRLF).

Definition is_ErrLog (e : event) : bool :=
  match e with
  | LCD_ErrLog _ => true
  | _ => false
  end.

Section More.

Variable cfg : Config.
Variable env : Env.

(** *** The key waits *)

(** X1: a key wait ends at the first poll that finds the device gone or the
    key no longer reading [v]: with [d] polls before it that find the device
    connected and the key at [v], the wait needs exactly [d + 1] polls,
    returns with the clock just past that poll, and leaves the demo state,
    [line_idx] and [res] alone. *)
Theorem X1_poll_key_ends_at_first_release k v d s :
  (forall i, (i < d)%nat ->
     connect_status env (clock s + i) = true /\
     gd_eval_key_state_get env k (clock s + i) = v) ->
  (connect_status env (clock s + d) = false \/
   gd_eval_key_state_get env k (clock s + d) <> v) ->
  (exists s',
     poll_key cfg env (S d) k v s = Some s' /\
     clock s' = S (clock s + d) /\
     same_core s s') /\
  (forall fuel, (fuel <= d)%nat -> poll_key cfg env fuel k v s = None).
Proof.
  revert s. induction d as [|d IH]; intros s Hold Hend.
  - rewrite Nat.add_0_r in *. split.
    + exists (tick s). split; [|split; [reflexivity | repeat split]].
      simpl. destruct Hend as [C|K].
      * rewrite C. reflexivity.
      * rewrite (FlagStatus_eqb_neq v _ (fun e => K (eq_sym e))), andb_false_r.
        reflexivity.
    + intros fuel Hf. replace fuel with 0%nat by lia. reflexivity.
  - destruct (Hold 0%nat ltac:(lia)) as [C K]. rewrite Nat.add_0_r in C, K.
    assert (Cond : connect_status env (clock s)
                   && FlagStatus_eqb v (gd_eval_key_state_get env k (clock s)) = true).
    { rewrite C, K. destruct v; reflexivity. }
    destruct (toggle_leds_core cfg (tick s)) as [TC TK].
    destruct (IH (toggle_leds cfg (tick s))) as [(s' & R & Ck & Co) N].
    { intros i Hi. rewrite TK. cbn [clock tick].
      replace (S (clock s) + i)%nat with (clock s + S i)%nat by lia.
      apply Hold. lia. }
    { rewrite TK. cbn [clock tick].
      replace (S (clock s) + d)%nat with (clock s + S d)%nat by lia. exact Hend. }
    split.
    + exists s'. split; [|split].
      * change (poll_key cfg env (S (S d)) k v s)
          with (if connect_status env (clock s)
                   && FlagStatus_eqb v (gd_eval_key_state_get env k (clock s))
                then poll_key cfg env (S d) k v (toggle_leds cfg (tick s))
                else Some (tick s)).
        rewrite Cond. exact R.
      * rewrite Ck, TK. cbn [clock tick]. lia.
      * eapply same_core_trans; [|exact Co].
        eapply same_core_trans; [|exact TC]. repeat split.
    + intros [|fuel] Hf; [reflexivity|].
      change (poll_key cfg env (S fuel) k v s)
        with (if connect_status env (clock s)
                 && FlagStatus_eqb v (gd_eval_key_state_get env k (clock s))
              then poll_key cfg env fuel k v (toggle_leds cfg (tick s))
              else Some (tick s)).
      rewrite Cond. apply N. lia.
Qed.

Lemma poll_key_blocks k v :
  (forall t, connect_status env t = true /\ gd_eval_key_state_get env k t = v) ->
  forall fuel s, poll_key cfg env fuel k v s = None.
Proof.
  intros H. induction fuel as [|fuel IH]; intros s; [reflexivity|].
  simpl. destruct (H (clock s)) as [C K]. rewrite C, K.
  replace (FlagStatus_eqb v v) with true by (destruct v; reflexivity).
  apply IH.
Qed.

(** X2: the demo blocks on its keys.  While the device stays connected, a
    call entered in READLIST does not return as long as the Tamper key reads
    SET, and a call entered in WRITEFILE does not return as long as the
    Wakeup key reads RESET. *)
Theorem X2_application_blocks_on_keys s :
  (forall t, connect_status env t = true) ->
  (usbh_usr_application_state s = USBH_USR_FS_READLIST ->
   (forall t, gd_eval_key_state_get env KEY_TAMPER t = SET) ->
   forall fuel, usbh_usr_msc_application cfg env fuel s = None) /\
  (usbh_usr_application_state s = USBH_USR_FS_WRITEFILE ->
   (forall t, gd_eval_key_state_get env KEY_WAKEUP t = RESET) ->
   forall fuel, usbh_usr_msc_application cfg env fuel s = None).
Proof.
  intros C. split; intros St K fuel; unfold usbh_usr_msc_application; rewrite St;
    rewrite poll_key_blocks; auto.
Qed.

(** *** The LED blinker *)

Lemma toggle_leds_counts :
  USE_ULPI_PHY cfg = true ->
  forall k s, toggle_i s = 0 -> Z.of_nat k <= 65536 ->
  toggle_i (Nat.iter k (toggle_leds cfg) s) = Z.of_nat k /\
  trace (Nat.iter k (toggle_leds cfg) s) = trace s.
Proof.
  intros U. induction k as [|k IH]; intros s Z0 Hk.
  - simpl. auto.
  - destruct (IH s Z0 ltac:(lia)) as [I T].
    rewrite !Nat.iter_succ. remember (Nat.iter k (toggle_leds cfg) s) as x eqn:Hx in *.
    unfold toggle_leds. cbv zeta. rewrite U, I.
    assert (N : (Z.of_nat k =? 65536) = false) by (apply Z.eqb_neq; lia).
    rewrite N. cbn [toggle_i trace set_toggle_i].
    split; [|exact T].
    unfold uint32. rewrite Z.mod_small by lia. lia.
Qed.

(** X3: with [USE_ULPI_PHY], [toggle_leds] toggles the two LEDs once every
    65537 calls: starting from a counter of 0, the first 65536 calls only
    count, and the next call toggles LED1 then LED2 and puts the counter
    back to 0.  Without [USE_ULPI_PHY] a call does nothing. *)
Theorem X3_toggle_leds_period s :
  (USE_ULPI_PHY cfg = true -> toggle_i s = 0 ->
     (forall k, Z.of_nat k <= 65536 ->
        toggle_i (Nat.iter k (toggle_leds cfg) s) = Z.of_nat k /\
        trace (Nat.iter k (toggle_leds cfg) s) = trace s) /\
     toggle_i (Nat.iter (S (Z.to_nat 65536)) (toggle_leds cfg) s) = 0 /\
     trace (Nat.iter (S (Z.to_nat 65536)) (toggle_leds cfg) s) =
       gd_eval_led_toggle LED2 :: gd_eval_led_toggle LED1 :: trace s) /\
  (USE_ULPI_PHY cfg = false -> toggle_leds cfg s = s).
Proof.
  split.
  - intros U Z0. split; [intros k Hk; apply toggle_leds_counts; assumption|].
    destruct (toggle_leds_counts U (Z.to_nat 65536) s Z0) as [I T].
    { rewrite Z2Nat.id; lia. }
    rewrite Z2Nat.id in I by lia.
    remember (Z.to_nat 65536) as K eqn:HK.
    rewrite !Nat.iter_succ. remember (Nat.iter K (toggle_leds cfg) s) as x eqn:Hx in *.
    unfold toggle_leds. cbv zeta. rewrite U, I.
    change (65536 =? 65536) with true. cbn [toggle_i trace set_toggle_i emit].
    rewrite T. split; reflexivity.
  - intros U. unfold toggle_leds. rewrite U. reflexivity.
Qed.

(** *** The file round trip *)

Lemma strncmp_eq_refl n : forall a, strncmp_eq a a n = true.
Proof.
  induction n as [|n IH]; intros a; [destruct a; reflexivity|].
  destruct a as [|c a]; simpl; [reflexivity|].
  rewrite Ascii.eqb_refl. apply IH.
Qed.

Lemma spills_trace l : forall s, trace (spills l s) = trace s.
Proof.
  induction l as [|p l IH]; intros s; [reflexivity|].
  unfold spills in *. cbn [fold_left]. rewrite IH. destruct p; reflexivity.
Qed.

Lemma spills_bytesWritten_ext l : forall s s',
  bytesWritten s = bytesWritten s' ->
  bytesWritten (spills l s) = bytesWritten (spills l s').
Proof.
  induction l as [|p l IH]; intros s s' H; [exact H|].
  unfold spills in *. cbn [fold_left]. apply IH. destruct p; cbn; congruence.
Qed.

Lemma spills_bytesWritten_keep l : forall s,
  (forall v, ~ In (spill_bytesWritten v) l) ->
  bytesWritten (spills l s) = bytesWritten s.
Proof.
  induction l as [|p l IH]; intros s N; [reflexivity|].
  unfold spills in *. cbn [fold_left]. rewrite IH.
  - destruct p; try reflexivity. exfalso. apply (N v). left. reflexivity.
  - intros v Hv. apply (N v). right. exact Hv.
Qed.

Lemma spills_line_idx_keep l : forall s,
  (forall v, ~ In (spill_line_idx v) l) ->
  line_idx (spills l s) = line_idx s.
Proof.
  induction l as [|p l IH]; intros s N; [reflexivity|].
  unfold spills in *. cbn [fold_left]. rewrite IH.
  - destruct p; try reflexivity. exfalso. apply (N v). left. reflexivity.
  - intros v Hv. apply (N v). right. exact Hv.
Qed.

Lemma spills_application_state_keep l : forall s,
  (forall v, ~ In (spill_usbh_usr_application_state v) l) ->
  usbh_usr_application_state (spills l s) = usbh_usr_application_state s.
Proof.
  induction l as [|p l IH]; intros s N; [reflexivity|].
  unfold spills in *. cbn [fold_left]. rewrite IH.
  - destruct p; try reflexivity. exfalso. apply (N v). left. reflexivity.
  - intros v Hv. apply (N v). right. exact Hv.
Qed.

Lemma spills_bytesWritten_from l : forall s,
  (bytesWritten (spills l s) = bytesWritten s /\
   forall v, ~ In (spill_bytesWritten v) l) \/
  In (spill_bytesWritten (bytesWritten (spills l s))) l.
Proof.
  induction l as [|p l IH]; intros s; [left; split; [reflexivity|intros v []]|].
  unfold spills in *. cbn [fold_left].
  destruct (IH (apply_spill s p)) as [[E N]|I]; [|right; right; exact I].
  rewrite E. destruct p; cbn [apply_spill bytesWritten set_application_state
    set_line_idx set_res set_startup set_toggle_i set_bytesWritten
    set_bytesToWrite set_read];
    try (left; split; [reflexivity|];
         intros w [H|H]; [discriminate H | exact (N w H)]).
  right. left. reflexivity.
Qed.

Lemma spills_line_idx_from l : forall s,
  (line_idx (spills l s) = line_idx s /\
   forall v, ~ In (spill_line_idx v) l) \/
  In (spill_line_idx (line_idx (spills l s))) l.
Proof.
  induction l as [|p l IH]; intros s; [left; split; [reflexivity|intros v []]|].
  unfold spills in *. cbn [fold_left].
  destruct (IH (apply_spill s p)) as [[E N]|I]; [|right; right; exact I].
  rewrite E. destruct p; cbn [apply_spill line_idx set_application_state
    set_line_idx set_res set_startup set_toggle_i set_bytesWritten
    set_bytesToWrite set_read];
    try (left; split; [reflexivity|];
         intros w [H|H]; [discriminate H | exact (N w H)]).
  right. left. reflexivity.
Qed.

Lemma written_at_compare_spec (s : state) :
  bytesWritten (spills (f_read_spill env) s) =
  written_at_compare env (bytesWritten s).
Proof. unfold written_at_compare. apply spills_bytesWritten_ext. reflexivity. Qed.

(** The lines [write_file] logs, newest first, as a function of the answers. *)
Definition write_file_lines : list event :=
  if f_open_write env =? FR_OK then
    (if (snd (f_write env) =? 0) || negb (fst (f_write env) =? FR_OK) then
       [LCD_ErrLog ("> GD32.TXT CANNOT be written." ++ CRLF)]
     else if f_open_read env =? FR_OK then
       if (snd (fst (f_read env)) =? 0) || negb (fst (fst (f_read env)) =? FR_OK) then
         [LCD_ErrLog ("> GD32.TXT CANNOT be read." ++ CRLF)]
       else if (snd (fst (f_read env)) =? written_at_compare env (snd (f_write env)))
               && strncmp_eq (snd (f_read env)) WriteTextBuff
                    (Z.to_nat (snd (fst (f_read env))))
       then [compare_success]
       else [LCD_ErrLog ("> File content compare: ERROR." ++ CRLF)]
     else [LCD_ErrLog ("> GD32.TXT CANNOT be opened for read." ++ CRLF)])
    ++ [LCD_UsrLog ("> GD32.TXT be opened for write." ++ LF);
        LCD_UsrLog ("> Writing File to disk flash ..." ++ CRLF)]
  else [LCD_ErrLog ("> GD32.TXT CANNOT be opened." ++ CRLF);
        LCD_UsrLog ("> Writing File to disk flash ..." ++ CRLF)].

Lemma write_file_trace s :
  trace (write_file env s) = (write_file_lines ++ trace s)%list.
Proof.
  unfold write_file, write_file_lines.
  destruct (f_open_write env =? FR_OK); [|reflexivity].
  cbn [bytesWritten res set_bytesWritten set_res].
  destruct ((snd (f_write env) =? 0) || negb (fst (f_write env) =? FR_OK)).
  { cbn [trace emit set_bytesWritten set_res]. rewrite spills_trace. reflexivity. }
  destruct (f_open_read env =? FR_OK).
  2:{ cbn [trace emit set_bytesWritten set_res]. rewrite spills_trace. reflexivity. }
  cbn [bytesRead res ReadTextBuff bytesWritten set_read set_res].
  rewrite written_at_compare_spec. cbn [bytesWritten set_bytesWritten].
  destruct ((snd (fst (f_read env)) =? 0) || negb (fst (fst (f_read env)) =? FR_OK));
    [|destruct ((snd (fst (f_read env)) =? written_at_compare env (snd (f_write env)))
                && strncmp_eq (snd (f_read env)) WriteTextBuff
                     (Z.to_nat (snd (fst (f_read env)))))];
    cbn [trace emit set_read set_res]; rewrite spills_trace;
    cbn [trace emit set_bytesWritten set_res]; rewrite spills_trace; reflexivity.
Qed.

Lemma write_file_lines_verdict :
  (In compare_success write_file_lines <-> round_trip_ok env = true) /\
  existsb is_ErrLog write_file_lines = negb (round_trip_ok env).
Proof.
  unfold write_file_lines, round_trip_ok.
  destruct (f_open_write env =? FR_OK); cbn [andb].
  2:{ split; [|reflexivity]. split; [|discriminate].
      intros [H|[H|[]]]; vm_compute in H; discriminate H. }
  assert (Tail : forall l : list event,
            (In compare_success
               (l ++ [LCD_UsrLog ("> GD32.TXT be opened for write." ++ LF);
                      LCD_UsrLog ("> Writing File to disk flash ..." ++ CRLF)])
             <-> In compare_success l) /\
            existsb is_ErrLog
               (l ++ [LCD_UsrLog ("> GD32.TXT be opened for write." ++ LF);
                      LCD_UsrLog ("> Writing File to disk flash ..." ++ CRLF)])
            = existsb is_ErrLog l).
  { intros l. split.
    - split; [|intros H; apply in_or_app; left; exact H].
      intros H. apply in_app_or in H. destruct H as [H|[H|[H|[]]]];
        [exact H | vm_compute in H; discriminate H | vm_compute in H; discriminate H].
    - rewrite existsb_app. cbn [existsb is_ErrLog]. rewrite !orb_false_r. reflexivity. }
  assert (One : forall m : string,
            (In compare_success [LCD_ErrLog m] <-> false = true) /\
            existsb is_ErrLog [LCD_ErrLog m] = negb false).
  { intros m. split; [|reflexivity]. split; [|discriminate].
    intros [H|[]]. discriminate H. }
  destruct (snd (f_write env) =? 0); cbn [orb andb negb];
    [rewrite (proj2 (Tail _)), (proj1 (Tail _)); apply One|].
  destruct (fst (f_write env) =? FR_OK); cbn [orb andb negb];
    [|rewrite (proj2 (Tail _)), (proj1 (Tail _)); apply One].
  destruct (f_open_read env =? FR_OK); cbn [andb];
    [|rewrite (proj2 (Tail _)), (proj1 (Tail _)); apply One].
  destruct (snd (fst (f_read env)) =? 0); cbn [orb andb negb];
    [rewrite (proj2 (Tail _)), (proj1 (Tail _)); apply One|].
  destruct (fst (fst (f_read env)) =? FR_OK); cbn [orb andb negb];
    [|rewrite (proj2 (Tail _)), (proj1 (Tail _)); apply One].
  destruct ((snd (fst (f_read env)) =? written_at_compare env (snd (f_write env)))
            && strncmp_eq (snd (f_read env)) WriteTextBuff
                 (Z.to_nat (snd (fst (f_read env)))));
    rewrite (proj2 (Tail _)), (proj1 (Tail _)); [|apply One].
  split; [|reflexivity]. split; [reflexivity | intros _; left; reflexivity].
Qed.

(** The read-back is reached: the file opened for writing, the write was
    good, and the file opened for reading. *)
Definition reads_back (env : Env) : bool :=
  (f_open_write env =? FR_OK)
  && negb (snd (f_write env) =? 0)
  && (fst (f_write env) =? FR_OK)
  && (f_open_read env =? FR_OK).

(** X4: the verdict of the write and read-back, and what the two count
    stores do beyond their variable.  The WRITEFILE case logs "File content
    compare: SUCCESS" exactly when every FatFs call answered FR_OK, both
    byte counts are non-zero, the count read equals [bytesWritten] as it
    stands at the comparison, and [strncmp] finds the first [bytesRead]
    bytes of the two buffers equal; in every other case it logs an error
    line and no success.  In a build where the count of the read-back does
    not reach [bytesWritten], a stick that stores what is written gets the
    success line; in a build where it does, the same stick gets the error
    line.  [line_idx] and the demo state survive only in a build where no
    count store reaches them: a read-back whose store reaches [line_idx]
    leaves the spilled value there. *)
Theorem X4_write_file_verdict s :
  (exists l,
     trace (write_file env s) = (l ++ trace s)%list /\
     (In compare_success l <-> round_trip_ok env = true) /\
     existsb is_ErrLog l = negb (round_trip_ok env)) /\
  (forall n,
     f_open_write env = FR_OK -> f_write env = (FR_OK, n) -> n <> 0 ->
     f_open_read env = FR_OK -> f_read env = (FR_OK, n, WriteTextBuff) ->
     ((forall v, ~ In (spill_bytesWritten v) (f_read_spill env)) ->
      round_trip_ok env = true) /\
     ((exists v, In (spill_bytesWritten v) (f_read_spill env)) ->
      (forall v, In (spill_bytesWritten v) (f_read_spill env) -> v <> n) ->
      round_trip_ok env = false)) /\
  ((forall v, ~ In (spill_line_idx v) (f_write_spill env ++ f_read_spill env)) ->
   line_idx (write_file env s) = line_idx s) /\
  ((forall v, ~ In (spill_usbh_usr_application_state v)
                   (f_write_spill env ++ f_read_spill env)) ->
   usbh_usr_application_state (write_file env s) = usbh_usr_application_state s) /\
  (reads_back env = true ->
   forall v, In (spill_line_idx v) (f_read_spill env) ->
   (forall w, In (spill_line_idx w) (f_read_spill env) -> w = v) ->
   line_idx (write_file env s) = v).
Proof.
  split; [|split; [|split; [|split]]].
  - exists write_file_lines. split; [apply write_file_trace|].
    apply write_file_lines_verdict.
  - intros n Ow Wr N0 Or Rd.
    assert (R : round_trip_ok env = (n =? written_at_compare env n)).
    { unfold round_trip_ok. rewrite Ow, Wr, Or, Rd. cbn [fst snd].
      change (FR_OK =? FR_OK) with true. rewrite strncmp_eq_refl.
      apply Z.eqb_neq in N0. rewrite N0. cbn [negb andb].
      rewrite andb_true_r. reflexivity. }
    rewrite R. unfold written_at_compare. split.
    + intros Cl. rewrite (spills_bytesWritten_keep _ _ Cl). apply Z.eqb_refl.
    + intros [v Hv] Nv. apply Z.eqb_neq.
      destruct (spills_bytesWritten_from (f_read_spill env)
                  (set_bytesWritten n init_state)) as [[_ N]|I].
      * destruct (N v Hv).
      * intros E. exact (Nv _ I (eq_sym E)).
  - intros Cl. unfold write_file.
    assert (Cw : forall v, ~ In (spill_line_idx v) (f_write_spill env))
      by (intros v Hv; apply (Cl v), in_or_app; left; exact Hv).
    assert (Cr : forall v, ~ In (spill_line_idx v) (f_read_spill env))
      by (intros v Hv; apply (Cl v), in_or_app; right; exact Hv).
    repeat match goal with
           | |- context [if ?c then _ else _] => destruct c
           end;
      cbn [line_idx emit set_read set_res set_bytesWritten];
      rewrite ?(spills_line_idx_keep _ _ Cr);
      cbn [line_idx emit set_read set_res set_bytesWritten];
      rewrite ?(spills_line_idx_keep _ _ Cw); reflexivity.
  - intros Cl. unfold write_file.
    assert (Cw : forall v, ~ In (spill_usbh_usr_application_state v) (f_write_spill env))
      by (intros v Hv; apply (Cl v), in_or_app; left; exact Hv).
    assert (Cr : forall v, ~ In (spill_usbh_usr_application_state v) (f_read_spill env))
      by (intros v Hv; apply (Cl v), in_or_app; right; exact Hv).
    repeat match goal with
           | |- context [if ?c then _ else _] => destruct c
           end;
      cbn [usbh_usr_application_state emit set_read set_res set_bytesWritten];
      rewrite ?(spills_application_state_keep _ _ Cr);
      cbn [usbh_usr_application_state emit set_read set_res set_bytesWritten];
      rewrite ?(spills_application_state_keep _ _ Cw); reflexivity.
  - intros Rb v Hv Uv. unfold reads_back in Rb.
    apply andb_true_iff in Rb. destruct Rb as [Rb Or].
    apply andb_true_iff in Rb. destruct Rb as [Rb Wr].
    apply andb_true_iff in Rb. destruct Rb as [Ow N0].
    unfold write_file. rewrite Ow.
    cbn [bytesWritten res set_bytesWritten set_res].
    apply negb_true_iff in N0. rewrite N0, Wr, Or. cbn [orb negb].
    match goal with
    | |- context [spills (f_read_spill env) ?x] =>
      destruct (spills_line_idx_from (f_read_spill env) x) as [[_ N]|I];
        [destruct (N v Hv)|apply Uv in I]
    end.
    repeat match goal with
           | |- context [if ?c then _ else _] => destruct c
           end; exact I.
Qed.

(** *** Whole runs of the demo *)

Lemma application_mono fuel fuel' s r :
  (fuel <= fuel')%nat ->
  usbh_usr_msc_application cfg env fuel s = Some r ->
  usbh_usr_msc_application cfg env fuel' s = Some r.
Proof.
  intros Hle H. unfold usbh_usr_msc_application in *.
  destruct (usbh_usr_application_state s); try exact H.
  - split_result H. rewrite (poll_key_mono cfg env _ fuel' _ _ _ _ Hle E).
    split_result H. destruct p as [r0 s1].
    rewrite (explore_disk_mono cfg env _ fuel' _ _ _ _ Hle E0). exact H.
  - split_result H. rewrite (poll_key_mono cfg env _ fuel' _ _ _ _ Hle E). exact H.
Qed.

Lemma repeat_at_demoend fuel n : forall s,
  usbh_usr_application_state s = USBH_USR_FS_DEMOEND ->
  repeat_application cfg env fuel n s = Some (List.repeat 0 n, s).
Proof.
  induction n as [|n IH]; intros s St; [reflexivity|].
  cbn [repeat_application List.repeat].
  unfold usbh_usr_msc_application. rewrite St, (IH s St). reflexivity.
Qed.

(** X5: the demo runs to its end.  Entered in INIT on a stick that mounts, in
    a world where the key waits and the listings end, three calls of
    [usbh_usr_msc_application] reach DEMOEND, every call returns 0, and any
    number of further calls stays there. *)
Theorem X5_demo_runs_to_end s :
  usbh_usr_application_state s = USBH_USR_FS_INIT ->
  f_mount env = FR_OK ->
  cooperative env -> wait_ends env KEY_WAKEUP RESET ->
  exists fuel, forall n, (3 <= n)%nat ->
    exists s',
      repeat_application cfg env fuel n s = Some (List.repeat 0 n, s') /\
      usbh_usr_application_state s' = USBH_USR_FS_DEMOEND.
Proof.
  intros St M Co Wk.
  destruct (application_total cfg env Co Wk s) as (f1 & r1 & s1 & H1).
  pose proof (application_step cfg env _ _ _ _ H1) as (S1 & R1 & _ & _).
  rewrite St in S1, R1. unfold FR_OK in *. rewrite M in S1, R1.
  cbn in S1, R1. subst r1.
  destruct (application_total cfg env Co Wk s1) as (f2 & r2 & s2 & H2).
  pose proof (application_step cfg env _ _ _ _ H2) as (S2 & R2 & _ & _).
  rewrite S1 in S2, R2. cbn in S2, R2. subst r2.
  destruct (application_total cfg env Co Wk s2) as (f3 & r3 & s3 & H3).
  pose proof (application_step cfg env _ _ _ _ H3) as (S3 & R3 & _ & _).
  rewrite S2 in S3, R3. cbn in S3, R3. subst r3.
  exists (Nat.max f1 (Nat.max f2 f3)). intros n Hn.
  destruct n as [|[|[|n]]]; try lia.
  exists s3. split; [|exact S3].
  cbn [repeat_application List.repeat].
  rewrite (application_mono f1 _ _ _ (Nat.le_max_l _ _) H1).
  rewrite (application_mono f2 (Nat.max f1 (Nat.max f2 f3)) _ _ ltac:(lia) H2).
  rewrite (application_mono f3 (Nat.max f1 (Nat.max f2 f3)) _ _ ltac:(lia) H3).
  rewrite (repeat_at_demoend _ n s3 S3). reflexivity.
Qed.

Definition mount_error : event :=
  LCD_ErrLog ("> Cannot initialize File System." ++ CRLF).

(** X6: while the stick does not mount the demo stays in INIT: any number of
    calls each return -1, each logs the one error line, and nothing else of
    the state moves (no key is polled, [line_idx] is untouched). *)
Theorem X6_mount_failure_repeats n : forall fuel s,
  usbh_usr_application_state s = USBH_USR_FS_INIT ->
  f_mount env <> FR_OK ->
  exists s',
    repeat_application cfg env fuel n s = Some (List.repeat (-1) n, s') /\
    usbh_usr_application_state s' = USBH_USR_FS_INIT /\
    trace s' = (List.repeat mount_error n ++ trace s)%list /\
    line_idx s' = line_idx s /\ clock s' = clock s.
Proof.
  induction n as [|n IH]; intros fuel s St M.
  - exists s. repeat split. exact St.
  - destruct (IH fuel (emit mount_error s) St M) as (s' & R & St' & T & L & K).
    exists s'. cbn [repeat_application List.repeat].
    unfold usbh_usr_msc_application. rewrite St.
    apply Z.eqb_neq in M. rewrite M. cbn [negb].
    fold mount_error. rewrite R.
    split; [reflexivity|]. split; [exact St'|]. split; [|split; assumption].
    rewrite T. cbn [trace emit].
    change (mount_error :: trace s) with ([mount_error] ++ trace s)%list.
    rewrite app_assoc. rewrite <- repeat_cons. reflexivity.
Qed.

(** X7: [usbh_user_deinit] restarts the demo and nothing else.  From any
    state it leaves INIT behind and keeps the start-up flag, the trace and
    [line_idx]; so the one-shot [usbh_user_init] stays done after it, and on
    a stick that mounts the next call of the demo mounts again and moves to
    READLIST. *)
Theorem X7_deinit_restarts_the_demo s :
  usbh_usr_application_state (usbh_user_deinit s) = USBH_USR_FS_INIT /\
  startup (usbh_user_deinit s) = startup s /\
  trace (usbh_user_deinit s) = trace s /\
  line_idx (usbh_user_deinit s) = line_idx s /\
  usbh_user_init cfg (usbh_user_deinit (usbh_user_init cfg s)) =
    usbh_user_deinit (usbh_user_init cfg s) /\
  (f_mount env = FR_OK ->
   forall fuel, exists s',
     usbh_usr_msc_application cfg env fuel (usbh_user_deinit s) = Some (0, s') /\
     usbh_usr_application_state s' = USBH_USR_FS_READLIST).
Proof.
  repeat split.
  - apply usbh_user_init_started.
    change (startup (usbh_user_deinit (usbh_user_init cfg s)))
      with (startup (usbh_user_init cfg s)).
    apply usbh_user_init_startup.
  - intros M fuel. unfold usbh_usr_msc_application.
    change (usbh_usr_application_state (usbh_user_deinit s)) with USBH_USR_FS_INIT.
    cbv iota. unfold FR_OK in *. rewrite M. cbn [Z.eqb negb].
    eexists. split; [reflexivity|].
    destruct (usbh_msc_lun_info_get env) as [[bn bs]|]; reflexivity.
Qed.


(** *** What the traversal prints and what it leaves alone *)

(** The demo's file variables and start-up flag are the same, and the trace
    has only grown. *)
Definition keeps (s s' : state) : Prop :=
  startup s' = startup s /\
  bytesWritten s' = bytesWritten s /\
  bytesToWrite s' = bytesToWrite s /\
  bytesRead s' = bytesRead s /\
  ReadTextBuff s' = ReadTextBuff s /\
  exists l, trace s' = (l ++ trace s)%list.

Lemma keeps_refl s : keeps s s.
Proof. repeat split. exists []. reflexivity. Qed.

Lemma keeps_trans s1 s2 s3 : keeps s1 s2 -> keeps s2 s3 -> keeps s1 s3.
Proof.
  intros (A1 & A2 & A3 & A4 & A5 & l1 & A6) (B1 & B2 & B3 & B4 & B5 & l2 & B6).
  repeat split; try congruence.
  exists (l2 ++ l1)%list. rewrite B6, A6, app_assoc. reflexivity.
Qed.

Lemma keeps_emit e s : keeps s (emit e s).
Proof. repeat split. exists [e]. reflexivity. Qed.

Lemma keeps_toggle_leds s : keeps s (toggle_leds cfg s).
Proof.
  unfold toggle_leds. destruct (USE_ULPI_PHY cfg); [|apply keeps_refl].
  destruct (toggle_i s =? 65536); repeat split.
  - eexists [_; _]. reflexivity.
  - exists []. reflexivity.
Qed.

Lemma keeps_hint_lines l1 l2 serial s : keeps s (hint_lines cfg l1 l2 serial s).
Proof.
  unfold hint_lines. destruct (USE_LCD cfg).
  - repeat split. eexists [_; _; _]. reflexivity.
  - revert s. induction serial as [|m serial IH]; intros s; cbn [fold_left].
    + apply keeps_refl.
    + eapply keeps_trans; [apply (keeps_emit (LCD_UsrLog m))|apply IH].
Qed.

Lemma keeps_poll_key fuel k v : forall s s',
  poll_key cfg env fuel k v s = Some s' -> keeps s s'.
Proof.
  induction fuel as [|fuel IH]; intros s s' H; simpl in H; [discriminate|].
  split_result H.
  - apply IH in H. eapply keeps_trans; [|exact H].
    eapply keeps_trans; [|apply keeps_toggle_leds].
    repeat split. exists []. reflexivity.
  - inversion H; subst. repeat split. exists []. reflexivity.
Qed.

Lemma keeps_next_line fuel s s' :
  next_line cfg env fuel s = Some s' -> keeps s s'.
Proof.
  unfold next_line. cbn [line_idx set_line_idx]. intros H.
  destruct (uint8 (line_idx s + 1) >? 4).
  - apply keeps_poll_key in H. eapply keeps_trans; [|exact H].
    eapply keeps_trans; [|apply keeps_hint_lines].
    repeat split. exists []. reflexivity.
  - inversion H; subst. repeat split. exists []. reflexivity.
Qed.

Lemma print_entry_trace fno lvl s :
  exists l,
    trace (print_entry fno lvl s) =
      (LCD_UsrLog (fname fno ++ CRLF) :: l ++ trace s)%list.
Proof.
  unfold print_entry. destruct (lvl =? 1); [|destruct (lvl =? 2)].
  - eexists [_]. reflexivity.
  - eexists [_]. reflexivity.
  - exists []. reflexivity.
Qed.

Lemma keeps_print_entry fno lvl s : keeps s (print_entry fno lvl s).
Proof.
  destruct (print_entry_trace fno lvl s) as (l & T).
  unfold keeps. rewrite T.
  unfold print_entry. destruct (lvl =? 1); [|destruct (lvl =? 2)];
    (repeat split; eexists (_ :: l); reflexivity).
Qed.

Lemma explore_keeps fuel :
  (forall path lvl s r s',
     explore_disk cfg env fuel path lvl s = Some (r, s') -> keeps s s') /\
  (forall path idx lvl s s',
     explore_loop cfg env fuel path idx lvl s = Some s' -> keeps s s') /\
  (forall fno lvl s s',
     explore_entry cfg env fuel fno lvl s = Some s' -> keeps s s').
Proof.
  induction fuel as [|fuel (IHd & IHl & IHe)].
  - repeat split; intros; discriminate.
  - split; [|split].
    + intros path lvl s r s' H. rewrite explore_disk_S in H.
      assert (K0 : forall x, keeps x (leave x))
        by (intros x; repeat split; exists []; reflexivity).
      assert (K1 : keeps s (set_res (f_opendir env path) (enter path lvl s)))
        by (repeat split; exists []; reflexivity).
      split_result H.
      * split_result H. inversion H; subst; clear H. apply IHl in E0.
        eapply keeps_trans; [exact K1|]. eapply keeps_trans; [exact E0|apply K0].
      * inversion H; subst. eapply keeps_trans; [exact K1|apply K0].
    + intros path idx lvl s s' H. rewrite explore_loop_S in H.
      assert (K1 : keeps s (set_res (fst (f_readdir env path idx)) (tick s)))
        by (repeat split; exists []; reflexivity).
      split_result H.
      * split_result H; [inversion H; subst; exact K1|].
        split_result H.
        -- eapply keeps_trans; [exact K1|]. eapply IHl; exact H.
        -- split_result H. apply IHe in E2. apply IHl in H.
           exact (keeps_trans _ _ _ K1 (keeps_trans _ _ _ E2 H)).
      * inversion H; subst. repeat split. exists []. reflexivity.
    + intros fno lvl s s' H. rewrite explore_entry_S in H.
      split_result H. apply keeps_next_line in E.
      pose proof (keeps_print_entry fno lvl s0) as P.
      split_result H.
      * split_result H. destruct p as [r0 s1]. inversion H; subst; clear H.
        apply IHd in E1.
        exact (keeps_trans _ _ _ E (keeps_trans _ _ _ P E1)).
      * inversion H; subst. exact (keeps_trans _ _ _ E P).
Qed.

(** X8: a traversal only reads the demo's other variables.  A completed
    [explore_disk] leaves [usbh_usr_application_state], the start-up flag,
    the byte counters and [ReadTextBuff] as they were, returns with its call
    depth back where it started, never turns the poll clock back, and only
    adds to the trace; the value it returns is the global [res]. *)
Theorem X8_explore_disk_reads_only fuel path lvl s r s' :
  explore_disk cfg env fuel path lvl s = Some (r, s') ->
  usbh_usr_application_state s' = usbh_usr_application_state s /\
  startup s' = startup s /\
  bytesWritten s' = bytesWritten s /\
  bytesToWrite s' = bytesToWrite s /\
  bytesRead s' = bytesRead s /\
  ReadTextBuff s' = ReadTextBuff s /\
  stack_depth s' = stack_depth s /\
  (clock s <= clock s')%nat /\
  (exists l, trace s' = (l ++ trace s)%list) /\
  r = res s'.
Proof.
  intros H.
  pose proof (proj1 (explore_keeps fuel) _ _ _ _ _ H) as (K1 & K2 & K3 & K4 & K5 & K6).
  pose proof (proj1 (explore_frame cfg env fuel) _ _ _ _ _ H) as ((F1 & F2 & F3 & _) & R).
  repeat split; assumption.
Qed.

(** X9: a traversal that cannot start lists nothing.  When [f_opendir]
    fails, [explore_disk] returns its error code at once; when the directory
    opens but the device is already disconnected, it returns FR_OK after one
    poll.  In both cases nothing is printed, [line_idx] is unchanged and no
    directory entry is read. *)
Theorem X9_explore_disk_cannot_start fuel path lvl s :
  (f_opendir env path <> FR_OK ->
   exists s',
     explore_disk cfg env (S fuel) path lvl s = Some (f_opendir env path, s') /\
     trace s' = trace s /\ line_idx s' = line_idx s /\ clock s' = clock s) /\
  (f_opendir env path = FR_OK -> connect_status env (clock s) = false ->
   exists s',
     explore_disk cfg env (S (S fuel)) path lvl s = Some (FR_OK, s') /\
     trace s' = trace s /\ line_idx s' = line_idx s /\ clock s' = S (clock s)).
Proof.
  split.
  - intros N. rewrite explore_disk_S. apply Z.eqb_neq in N. rewrite N.
    eexists. split; [reflexivity|]. repeat split.
  - intros O C. rewrite explore_disk_S, O. change (FR_OK =? FR_OK) with true. cbv iota.
    rewrite explore_loop_S. cbn [clock set_res enter]. rewrite C.
    eexists. split; [reflexivity|]. repeat split.
Qed.


(** Read [n] of the listing of [path] is reached and listed: no read up to
    it ends the listing, and its name does not begin with a dot. *)
Definition shown (path : string) (n : nat) : Prop :=
  (forall m, (m <= n)%nat -> readdir_stops (f_readdir env path m) = false) /\
  fname_is_dot (snd (f_readdir env path n)) = false.

(** The line that shows an entry. *)
Definition name_line (fno : FILINFO) : event := LCD_UsrLog (fname fno ++ CRLF).

Lemma keeps_In e s s' : keeps s s' -> In e (trace s) -> In e (trace s').
Proof.
  intros (_ & _ & _ & _ & _ & l & T) H. rewrite T. apply in_or_app. right. exact H.
Qed.

Lemma explore_entry_prints fuel fno lvl s s' :
  explore_entry cfg env fuel fno lvl s = Some s' -> In (name_line fno) (trace s').
Proof.
  intros H. destruct fuel as [|fuel]; [discriminate|].
  rewrite explore_entry_S in H. split_result H.
  assert (P : In (name_line fno) (trace (print_entry fno lvl s0))).
  { destruct (print_entry_trace fno lvl s0) as (l & T). rewrite T. left. reflexivity. }
  split_result H.
  - split_result H. destruct p as [r0 s1]. inversion H; subst; clear H.
    eapply keeps_In; [|exact P]. exact (proj1 (explore_keeps fuel) _ _ _ _ _ E1).
  - inversion H; subst. exact P.
Qed.

Section Connected.

Hypothesis connected : forall t, connect_status env t = true.

Lemma explore_loop_prints fuel : forall path idx lvl s s',
  explore_loop cfg env fuel path idx lvl s = Some s' ->
  forall n, (idx <= n)%nat ->
    (forall m, (idx <= m <= n)%nat -> readdir_stops (f_readdir env path m) = false) ->
    fname_is_dot (snd (f_readdir env path n)) = false ->
    In (name_line (snd (f_readdir env path n))) (trace s').
Proof.
  induction fuel as [|fuel IH]; intros path idx lvl s s' H n Hn Hs Hd; [discriminate|].
  rewrite explore_loop_S, connected, (Hs idx ltac:(lia)) in H.
  destruct (fname_is_dot (snd (f_readdir env path idx))) eqn:Dot.
  - assert (n <> idx) by (intros ->; congruence).
    apply (IH _ _ _ _ _ H n); [lia | intros m Hm; apply Hs; lia | exact Hd].
  - split_result H.
    destruct (Nat.eq_dec n idx) as [->|Ne].
    + eapply keeps_In; [exact (proj1 (proj2 (explore_keeps fuel)) _ _ _ _ _ H)|].
      eapply explore_entry_prints; exact E.
    + apply (IH _ _ _ _ _ H n); [lia | intros m Hm; apply Hs; lia | exact Hd].
Qed.

Lemma explore_disk_prints fuel path lvl s r s' :
  explore_disk cfg env fuel path lvl s = Some (r, s') ->
  f_opendir env path = FR_OK ->
  forall n, shown path n -> In (name_line (snd (f_readdir env path n))) (trace s').
Proof.
  intros H O n [Hs Hd]. destruct fuel as [|fuel]; [discriminate|].
  rewrite explore_disk_S, O in H. change (FR_OK =? FR_OK) with true in H. cbv iota in H.
  split_result H. inversion H; subst; clear H.
  change (trace (leave s0)) with (trace s0).
  apply (explore_loop_prints _ _ _ _ _ _ E n); [lia | intros m Hm; apply Hs; lia | exact Hd].
Qed.

Lemma explore_loop_prints_nested fuel : forall path idx s s',
  explore_loop cfg env fuel path idx 1 s = Some s' ->
  forall n, (idx <= n)%nat ->
    (forall m, (idx <= m <= n)%nat -> readdir_stops (f_readdir env path m) = false) ->
    fname_is_dot (snd (f_readdir env path n)) = false ->
    fattrib (snd (f_readdir env path n)) = AM_DIR ->
    f_opendir env (fname (snd (f_readdir env path n))) = FR_OK ->
    forall k, shown (fname (snd (f_readdir env path n))) k ->
      In (name_line (snd (f_readdir env (fname (snd (f_readdir env path n))) k)))
         (trace s').
Proof.
  induction fuel as [|fuel IH]; intros path idx s s' H n Hn Hs Hd Ha Ho k Hk;
    [discriminate|].
  rewrite explore_loop_S, connected, (Hs idx ltac:(lia)) in H.
  destruct (fname_is_dot (snd (f_readdir env path idx))) eqn:Dot.
  - assert (n <> idx) by (intros ->; congruence).
    apply (IH _ _ _ _ H n); auto; [lia | intros m Hm; apply Hs; lia].
  - split_result H.
    destruct (Nat.eq_dec n idx) as [->|Ne].
    + eapply keeps_In; [exact (proj1 (proj2 (explore_keeps fuel)) _ _ _ _ _ H)|].
      destruct fuel as [|fuel]; [discriminate|].
      rewrite explore_entry_S in E. split_result E.
      rewrite (proj2 (descends_true _ _) (conj Ha eq_refl)) in E.
      split_result E. destruct p as [r0 s2]. inversion E; subst; clear E.
      eapply explore_disk_prints; eassumption.
    + apply (IH _ _ _ _ H n); auto; [lia | intros m Hm; apply Hs; lia].
Qed.

(** X10: on a device that stays connected a completed traversal shows every
    entry of the directory: each read before the end of the listing whose
    name does not begin with a dot has its name line in the trace; and a
    traversal at level 1 also shows every such entry of each listed
    directory that could be opened. *)
Theorem X10_explore_disk_shows_every_entry fuel path lvl s r s' :
  explore_disk cfg env fuel path lvl s = Some (r, s') ->
  f_opendir env path = FR_OK ->
  (forall n, shown path n ->
     In (name_line (snd (f_readdir env path n))) (trace s')) /\
  (lvl = 1 ->
   forall n, shown path n ->
     fattrib (snd (f_readdir env path n)) = AM_DIR ->
     f_opendir env (fname (snd (f_readdir env path n))) = FR_OK ->
     forall k, shown (fname (snd (f_readdir env path n))) k ->
       In (name_line (snd (f_readdir env (fname (snd (f_readdir env path n))) k)))
          (trace s')).
Proof.
  intros H O. split; [apply (explore_disk_prints _ _ _ _ _ _ H O)|].
  intros -> n [Hs Hd] Ha Ho k Hk.
  destruct fuel as [|fuel]; [discriminate|].
  rewrite explore_disk_S, O in H. change (FR_OK =? FR_OK) with true in H. cbv iota in H.
  split_result H. inversion H; subst; clear H.
  change (trace (leave s0)) with (trace s0).
  apply (explore_loop_prints_nested _ _ _ _ _ E n); auto; [lia | intros m Hm; apply Hs; lia].
Qed.

(** *** Paging *)

(** X11: paging counts modulo five.  On a device that stays connected, a
    completed traversal of a directory whose listing ends at read [k] and
    in which no entry is descended into leaves [line_idx] at the old value
    plus the number of listed entries, modulo 5: the pause for the Tamper
    key comes with every fifth listed line. *)
Theorem X11_explore_disk_line_count fuel path lvl k s r s' :
  explore_disk cfg env fuel path lvl s = Some (r, s') ->
  f_opendir env path = FR_OK ->
  (forall m, (m < k)%nat ->
     readdir_stops (f_readdir env path m) = false /\
     descends (snd (f_readdir env path m)) lvl = false) ->
  readdir_stops (f_readdir env path k) = true ->
  0 <= line_idx s <= 4 ->
  line_idx s' = (line_idx s + Z.of_nat (count_listed env path 0 k)) mod 5.
Proof.
  intros H O Hs He R. destruct fuel as [|fuel]; [discriminate|].
  rewrite explore_disk_S, O in H. change (FR_OK =? FR_OK) with true in H. cbv iota in H.
  split_result H. inversion H; subst; clear H.
  change (line_idx (leave s0)) with (line_idx s0).
  apply (explore_loop_line cfg env connected _ _ _ k _ _ _ E); auto.
  intros m Hm. apply Hs. lia.
Qed.

End Connected.


End More.

(** *** The properties on concrete worlds *)

(** A user who holds the Tamper key for three polls and then lets go. *)
Definition release_env : Env :=
  mkEnv (fun _ => true)
        (fun _ t => if (t <? 3)%nat then SET else RESET)
        FR_OK None (fun _ => FR_OK) (fun _ => listing [])
        FR_OK (FR_OK, 46) FR_OK (FR_OK, 46, WriteTextBuff) [] [].

Definition docs_explored : state :=
  Eval vm_compute in
    match explore_disk serial_cfg demo_env 20 "DOCS" 2 (set_line_idx 4 init_state) with
    | Some (_, s) => s
    | None => init_state
    end.

Lemma X1_poll_key_ends_at_first_release_witness :
  (exists s',
     poll_key serial_cfg release_env 4 KEY_TAMPER SET init_state = Some s' /\
     clock s' = 4%nat /\
     same_core init_state s') /\
  (forall fuel, (fuel <= 3)%nat ->
     poll_key serial_cfg release_env fuel KEY_TAMPER SET init_state = None).
Proof.
  apply (X1_poll_key_ends_at_first_release serial_cfg release_env
           KEY_TAMPER SET 3 init_state).
  - intros i Hi. split; [reflexivity|].
    destruct i as [|[|[|i]]]; [reflexivity | reflexivity | reflexivity | lia].
  - right. simpl. discriminate.
Defined.

Lemma X2_application_blocks_on_keys_witness :
  usbh_usr_msc_application serial_cfg idle_user_env 7
    (in_state USBH_USR_FS_READLIST) = None.
Proof.
  destruct (X2_application_blocks_on_keys serial_cfg idle_user_env
              (in_state USBH_USR_FS_READLIST) (fun _ => eq_refl)) as [R _].
  apply R; reflexivity.
Defined.

Lemma X3_toggle_leds_period_witness :
  trace (Nat.iter (S (Z.to_nat 65536)) (toggle_leds lcd_cfg) init_state) =
    [gd_eval_led_toggle LED2; gd_eval_led_toggle LED1].
Proof.
  destruct (X3_toggle_leds_period lcd_cfg init_state) as (P & _).
  destruct (P eq_refl eq_refl) as (_ & _ & T). exact T.
Defined.

(** The demo stick in a build that lays the variables out in the order of
    their declaration: [bytesToWrite] lies behind [bytesWritten], and
    [line_idx] and [usbh_usr_application_state] lie behind [bytesRead]. *)
Definition declared_order_env : Env :=
  mkEnv (fun _ => true)
        (fun k _ => match k with KEY_TAMPER => RESET | KEY_WAKEUP => SET end)
        FR_OK (Some (1000, 512))
        (fun _ => FR_OK) (fun path => listing (demo_dirs path))
        FR_OK (FR_OK, 46) FR_OK (FR_OK, 46, WriteTextBuff)
        [spill_bytesToWrite 0]
        [spill_line_idx 0; spill_usbh_usr_application_state USBH_USR_FS_INIT].

(** The same stick in a build that puts [bytesWritten] behind [bytesRead]. *)
Definition reordered_env : Env :=
  mkEnv (fun _ => true)
        (fun k _ => match k with KEY_TAMPER => RESET | KEY_WAKEUP => SET end)
        FR_OK (Some (1000, 512))
        (fun _ => FR_OK) (fun path => listing (demo_dirs path))
        FR_OK (FR_OK, 46) FR_OK (FR_OK, 46, WriteTextBuff)
        [spill_bytesToWrite 0]
        [spill_bytesWritten 0].

Lemma X4_write_file_verdict_witness :
  (In compare_success (trace (write_file declared_order_env (set_line_idx 3 init_state))) /\
   line_idx (write_file declared_order_env (set_line_idx 3 init_state)) = 0 /\
   bytesToWrite (write_file declared_order_env (set_line_idx 3 init_state)) = 0) /\
  (exists l,
     trace (write_file reordered_env init_state) = (l ++ trace init_state)%list /\
     ~ In compare_success l /\ existsb is_ErrLog l = true).
Proof.
  split.
  - destruct (X4_write_file_verdict declared_order_env (set_line_idx 3 init_state))
      as ((l & T & V & _) & F & _ & _ & L).
    split.
    + rewrite T. apply in_or_app. left. apply V.
      apply (proj1 (F 46 eq_refl eq_refl ltac:(discriminate) eq_refl eq_refl)).
      intros v [H|[H|[]]]; discriminate H.
    + split; [|reflexivity].
      apply (L eq_refl 0); [left; reflexivity|].
      intros w [H|[H|[]]]; [congruence | discriminate H].
  - destruct (X4_write_file_verdict reordered_env init_state)
      as ((l & T & V & E) & F & _).
    assert (R : round_trip_ok reordered_env = false).
    { apply (proj2 (F 46 eq_refl eq_refl ltac:(discriminate) eq_refl eq_refl)).
      - exists 0. left. reflexivity.
      - intros v [H|[]]. inversion H. discriminate. }
    exists l. split; [exact T|]. split.
    + intros H. apply V in H. congruence.
    + rewrite E, R. reflexivity.
Defined.

Lemma X5_demo_runs_to_end_witness :
  exists fuel, forall n, (3 <= n)%nat ->
    exists s',
      repeat_application serial_cfg demo_env fuel n init_state
        = Some (List.repeat 0 n, s') /\
      usbh_usr_application_state s' = USBH_USR_FS_DEMOEND.
Proof.
  apply (X5_demo_runs_to_end serial_cfg demo_env init_state).
  - reflexivity.
  - reflexivity.
  - exact demo_env_cooperative.
  - exact demo_env_wakeup.
Defined.

Lemma X6_mount_failure_repeats_witness :
  exists s',
    repeat_application serial_cfg unmountable_env 0 3 init_state
      = Some ([-1; -1; -1], s') /\
    usbh_usr_application_state s' = USBH_USR_FS_INIT /\
    trace s' = [mount_error; mount_error; mount_error] /\
    line_idx s' = 0 /\ clock s' = 0%nat.
Proof.
  apply (X6_mount_failure_repeats serial_cfg unmountable_env 3 0%nat init_state).
  - reflexivity.
  - simpl. unfold FR_OK. lia.
Defined.

Lemma X8_explore_disk_reads_only_witness :
  usbh_usr_application_state demo_explored = USBH_USR_FS_INIT /\
  startup demo_explored = 0 /\
  bytesWritten demo_explored = 0 /\
  bytesToWrite demo_explored = 0 /\
  bytesRead demo_explored = 0 /\
  ReadTextBuff demo_explored = EmptyString /\
  stack_depth demo_explored = 0%nat /\
  (0 <= clock demo_explored)%nat /\
  (exists l, trace demo_explored = (l ++ [])%list) /\
  0 = res demo_explored.
Proof.
  assert (E : explore_disk lcd_cfg demo_env 20 "0:/" 1 init_state = Some (0, demo_explored))
    by (vm_compute; reflexivity).
  exact (X8_explore_disk_reads_only lcd_cfg demo_env 20 "0:/" 1 init_state 0
           demo_explored E).
Defined.

Lemma X10_explore_disk_shows_every_entry_witness :
  In (name_line (file "README.TXT")) (trace demo_explored) /\
  In (name_line (file "NOTES.TXT")) (trace demo_explored).
Proof.
  assert (E : explore_disk lcd_cfg demo_env 20 "0:/" 1 init_state = Some (0, demo_explored))
    by (vm_compute; reflexivity).
  destruct (X10_explore_disk_shows_every_entry lcd_cfg demo_env (fun _ => eq_refl)
              20 "0:/" 1 init_state 0 demo_explored E eq_refl) as (Root & Sub).
  split.
  - apply (Root 3%nat). split; [|reflexivity].
    intros m Hm. destruct m as [|[|[|[|m]]]]; [reflexivity .. | lia].
  - assert (Docs : shown demo_env "0:/" 2).
    { split; [|reflexivity].
      intros m Hm. destruct m as [|[|[|m]]]; [reflexivity .. | lia]. }
    apply (Sub eq_refl 2%nat Docs eq_refl eq_refl 1%nat).
    split; [|reflexivity].
    intros m Hm. destruct m as [|[|m]]; [reflexivity .. | lia].
Defined.

Lemma X11_explore_disk_line_count_witness :
  line_idx docs_explored = (4 + Z.of_nat (count_listed demo_env "DOCS" 0 2)) mod 5.
Proof.
  assert (E : explore_disk serial_cfg demo_env 20 "DOCS" 2 (set_line_idx 4 init_state)
              = Some (0, docs_explored))
    by (vm_compute; reflexivity).
  apply (X11_explore_disk_line_count serial_cfg demo_env (fun _ => eq_refl)
           20 "DOCS" 2 2 (set_line_idx 4 init_state) 0 docs_explored E).
  - reflexivity.
  - intros m Hm. destruct m as [|[|m]]; [split; reflexivity .. | lia].
  - reflexivity.
  - simpl. lia.
Defined.


End UsbhUsrMore.

(* ====================================================================== *)
(** ** More about netconf.c: the DHCP status over whole runs and the pace
       of the timers *)
(* ====================================================================== *)

Module NetconfMore.
Import Netconf NetconfFacts.

(** How far the DHCP polling has come: the position of a status in the
    enumeration [dhcp_addr_status_enum]. *)
Definition rank (v : dhcp_addr_status_enum) : nat :=
  match v with
  | DHCP_ADDR_NONE => 0
  | DHCP_ADDR_BEGIN => 1
  | DHCP_ADDR_GOT => 2
  | DHCP_ADDR_FAIL => 3
  end.

(** The four timers of [lwip_timeouts_check]. *)
Inductive timer : Set := timer_tcp | timer_arp | timer_dhcp_fine | timer_dhcp_coarse.

Definition timer_call (tm : timer) : call :=
  match tm with
  | timer_tcp => call_tcp_tmr
  | timer_arp => call_etharp_tmr
  | timer_dhcp_fine => call_dhcp_fine_tmr
  | timer_dhcp_coarse => call_dhcp_coarse_tmr
  end.

Definition timer_interval (tm : timer) : Z :=
  match tm with
  | timer_tcp => TCP_TMR_INTERVAL
  | timer_arp => ARP_TMR_INTERVAL
  | timer_dhcp_fine => DHCP_FINE_TIMER_MSECS
  | timer_dhcp_coarse => DHCP_COARSE_TIMER_MSECS
  end.

Definition timer_compiled (cfg : Config) (tm : timer) : bool :=
  match tm with
  | timer_tcp => LWIP_TCP cfg
  | timer_arp => true
  | timer_dhcp_fine | timer_dhcp_coarse => USE_DHCP cfg
  end.

Definition timer_recorded {api : lwip_api} (tm : timer) (s : state api) : Z :=
  match tm with
  | timer_tcp => tcpcurtime s
  | timer_arp => arpcurtime s
  | timer_dhcp_fine => finecurtime s
  | timer_dhcp_coarse => coarsecurtime s
  end.

(** [r <= t1 <= t2 <= ... <= T] *)
Fixpoint ascending (r : Z) (ts : list Z) (T : Z) : Prop :=
  match ts with
  | [] => r <= T
  | t :: ts' => r <= t /\ ascending t ts' T
  end.

(** Whether the [switch] for interface [n] is compiled in. *)
Definition netif_compiled (cfg : Config) (n : netif_id) : bool :=
  match n with
  | g_mynetif0 => USE_ENET0 cfg
  | g_mynetif1 => USE_ENET1 cfg
  end.

Section More.

Variable api : lwip_api.
Variable cfg : Config.

Abbreviation state := (Netconf.state api).

(** [ip_address] is non-zero once an address was got and zero once DHCP was
    given up. *)
Definition address_agrees (s : state) : Prop :=
  (dhcp_addr_status s = DHCP_ADDR_GOT -> ip_address s <> 0) /\
  (dhcp_addr_status s = DHCP_ADDR_FAIL -> ip_address s = 0).

(** *** How [lwip_timeouts_check] is put together *)

(** Only timer calls were made between [s] and [s']. *)
Definition timers_only (s s' : state) : Prop :=
  dhcp_addr_status s' = dhcp_addr_status s /\
  ip_address s' = ip_address s /\
  forall c, is_timer c = false -> count c (log s') = count c (log s).

Lemma timers_only_refl s : timers_only s s.
Proof. repeat split. Qed.

Lemma timers_only_trans s1 s2 s3 :
  timers_only s1 s2 -> timers_only s2 s3 -> timers_only s1 s3.
Proof.
  intros (A1 & A2 & A3) (B1 & B2 & B3). repeat split; try congruence.
  intros c Hc. rewrite B3, A3; auto.
Qed.

Lemma timers_only_fire c f (set : Z -> state -> state) v s :
  is_timer c = true ->
  (forall x, dhcp_addr_status (set v x) = dhcp_addr_status x /\
             ip_address (set v x) = ip_address x /\ log (set v x) = log x) ->
  timers_only s (invoke api c f (set v s)).
Proof.
  intros Hc Hset. destruct (Hset s) as (A & B & C).
  repeat split; cbn [dhcp_addr_status ip_address log invoke]; auto.
  intros d Hd. rewrite C. apply count_cons_other. intros ->. congruence.
Qed.

(** A call of [lwip_timeouts_check] is timer calls, then possibly one
    [lwip_dhcp_address_get], then timer calls. *)
Lemma lwip_timeouts_check_shape curtime s :
  exists s1 s2,
    timers_only s s1 /\
    (s2 = s1 \/ s2 = lwip_dhcp_address_get api cfg s1) /\
    timers_only s2 (lwip_timeouts_check api cfg curtime s).
Proof.
  unfold lwip_timeouts_check.
  set (s1 := if LWIP_TCP cfg
             then if elapsed curtime (tcpcurtime s) TCP_TMR_INTERVAL
                  then invoke api call_tcp_tmr (tcp_tmr api) (set_tcpcurtime api curtime s)
                  else s
             else s).
  assert (T1 : timers_only s s1).
  { subst s1. destruct (LWIP_TCP cfg); [|apply timers_only_refl].
    destruct (elapsed curtime (tcpcurtime s) TCP_TMR_INTERVAL); [|apply timers_only_refl].
    apply timers_only_fire; [reflexivity | intros x; repeat split]. }
  set (s2 := if elapsed curtime (arpcurtime s1) ARP_TMR_INTERVAL
             then invoke api call_etharp_tmr (etharp_tmr api) (set_arpcurtime api curtime s1)
             else s1).
  assert (T2 : timers_only s1 s2).
  { subst s2. destruct (elapsed curtime (arpcurtime s1) ARP_TMR_INTERVAL);
      [|apply timers_only_refl].
    apply timers_only_fire; [reflexivity | intros x; repeat split]. }
  assert (Co : forall x, timers_only x
            (if elapsed curtime (coarsecurtime x) DHCP_COARSE_TIMER_MSECS
             then invoke api call_dhcp_coarse_tmr (dhcp_coarse_tmr api)
                    (set_coarsecurtime api curtime x)
             else x)).
  { intros x. destruct (elapsed curtime (coarsecurtime x) DHCP_COARSE_TIMER_MSECS);
      [|apply timers_only_refl].
    apply timers_only_fire; [reflexivity | intros y; repeat split]. }
  destruct (USE_DHCP cfg).
  2:{ exists s2, s2. split; [exact (timers_only_trans _ _ _ T1 T2)|].
      split; [left; reflexivity | apply timers_only_refl]. }
  destruct (elapsed curtime (finecurtime s2) DHCP_FINE_TIMER_MSECS).
  2:{ exists s2, s2. split; [exact (timers_only_trans _ _ _ T1 T2)|].
      split; [left; reflexivity | apply Co]. }
  set (s3 := invoke api call_dhcp_fine_tmr (dhcp_fine_tmr api)
               (set_finecurtime api curtime s2)).
  assert (T3 : timers_only s2 s3).
  { subst s3. apply timers_only_fire; [reflexivity | intros x; repeat split]. }
  exists s3.
  destruct (dhcp_addr_status s3);
    eexists; (split; [exact (timers_only_trans _ _ _ T1 (timers_only_trans _ _ _ T2 T3))|]);
    (split; [|apply Co]); auto.
Qed.

(** An invariant of [lwip_dhcp_address_get] that timer calls cannot break is
    an invariant of every run. *)
Lemma run_invariant (P : state -> Prop) :
  (forall s s', timers_only s s' -> P s -> P s') ->
  (forall s, P s -> P (lwip_dhcp_address_get api cfg s)) ->
  forall es s, P s -> P (run api cfg es s).
Proof.
  intros Ht Hg. induction es as [|e es IH]; intros s Ps; [exact Ps|].
  unfold run in *. cbn [fold_left]. apply IH.
  destruct e as [curtime|]; cbn [run_entry]; [|apply Hg; exact Ps].
  destruct (lwip_timeouts_check_shape curtime s) as (s1 & s2 & T1 & [->| ->] & T2).
  - eapply Ht; [exact T2|]. eapply Ht; [exact T1 | exact Ps].
  - eapply Ht; [exact T2|]. apply Hg. eapply Ht; [exact T1 | exact Ps].
Qed.

(** *** The DHCP status over whole runs *)

(** What one [switch] of [lwip_dhcp_address_get] can do. *)
Inductive switch_step (n : netif_id) (x y : state) : Prop :=
| step_start :
    dhcp_addr_status x = DHCP_ADDR_NONE ->
    dhcp_addr_status y = DHCP_ADDR_BEGIN ->
    ip_address y = ip_address x ->
    log y = call_dhcp_start n :: log x ->
    switch_step n x y
| step_got :
    dhcp_addr_status x = DHCP_ADDR_BEGIN ->
    dhcp_addr_status y = DHCP_ADDR_GOT ->
    ip_address y <> 0 ->
    log y = call_printf_ip (ip_address y) :: log x ->
    switch_step n x y
| step_fail gd_ipaddr gd_netmask gd_gw :
    dhcp_addr_status x = DHCP_ADDR_BEGIN ->
    dhcp_addr_status y = DHCP_ADDR_FAIL ->
    ip_address y = 0 ->
    log y = call_netif_set_addr n gd_ipaddr gd_netmask gd_gw
            :: call_dhcp_stop n :: log x ->
    switch_step n x y
| step_wait :
    dhcp_addr_status x = DHCP_ADDR_BEGIN ->
    dhcp_addr_status y = DHCP_ADDR_BEGIN ->
    log y = log x ->
    switch_step n x y
| step_done :
    dhcp_addr_status x = DHCP_ADDR_GOT \/ dhcp_addr_status x = DHCP_ADDR_FAIL ->
    y = x ->
    switch_step n x y.

Lemma dhcp_switch_step n x : switch_step n x (dhcp_switch api cfg n x).
Proof.
  unfold dhcp_switch. destruct (dhcp_addr_status x) eqn:St.
  - apply step_start; auto.
  - cbn [ip_address set_ip_address].
    destruct (negb (netif_ip_addr api n (lwip x) =? 0)) eqn:Ip.
    + apply step_got; auto.
      cbn [ip_address invoke set_dhcp_addr_status set_ip_address].
      apply negb_true_iff, Z.eqb_neq in Ip. exact Ip.
    + apply negb_false_iff, Z.eqb_eq in Ip.
      destruct (netif_dhcp_tries api n
                  (lwip (set_ip_address api (netif_ip_addr api n (lwip x)) x))
                >? DHCP_TRIES_MAX_TIMES).
      * eapply step_fail; auto.
        cbn [log invoke set_dhcp_addr_status set_ip_address]. reflexivity.
      * apply step_wait; auto.
  - apply step_done; auto.
  - apply step_done; auto.
Qed.

(** An invariant of the entry into [lwip_dhcp_address_get] and of each
    [switch] is an invariant of the function. *)
Lemma lwip_dhcp_address_get_invariant (P : state -> Prop) :
  (forall x, P x -> P (invoke api call_lwip_dhcp_address_get (fun l => l) x)) ->
  (forall n x y, netif_compiled cfg n = true -> switch_step n x y -> P x -> P y) ->
  forall s, P s -> P (lwip_dhcp_address_get api cfg s).
Proof.
  intros He Hs s Ps. unfold lwip_dhcp_address_get.
  set (s0 := invoke api call_lwip_dhcp_address_get (fun l => l) s).
  assert (P0 : P s0) by (apply He; exact Ps).
  destruct (USE_ENET0 cfg) eqn:U0; destruct (USE_ENET1 cfg) eqn:U1; auto.
  - apply (Hs g_mynetif1 (dhcp_switch api cfg g_mynetif0 s0)); auto using dhcp_switch_step.
    apply (Hs g_mynetif0 s0); auto using dhcp_switch_step.
  - apply (Hs g_mynetif0 s0); auto using dhcp_switch_step.
  - apply (Hs g_mynetif1 s0); auto using dhcp_switch_step.
Qed.

(** X12: the DHCP status only moves forward.  Over any sequence of calls of
    [lwip_timeouts_check] and [lwip_dhcp_address_get] the status never
    returns to an earlier one in the order NONE, BEGIN, GOT, FAIL, and GOT
    and FAIL are never left: in particular FAIL never becomes GOT. *)
Theorem X12_dhcp_status_moves_forward es s :
  (rank (dhcp_addr_status s) <= rank (dhcp_addr_status (run api cfg es s)))%nat /\
  (dhcp_addr_status s = DHCP_ADDR_GOT ->
   dhcp_addr_status (run api cfg es s) = DHCP_ADDR_GOT) /\
  (dhcp_addr_status s = DHCP_ADDR_FAIL ->
   dhcp_addr_status (run api cfg es s) = DHCP_ADDR_FAIL).
Proof.
  split; [|split].
  - apply (run_invariant (fun x => (rank (dhcp_addr_status s)
                                    <= rank (dhcp_addr_status x))%nat)).
    + intros x x' (A & _) H. rewrite A. exact H.
    + apply lwip_dhcp_address_get_invariant.
      * intros x H. exact H.
      * intros n x y _ St H.
        destruct St as [A B _ _|A B _ _|? ? ? A B _ _|A B _|_ ->];
          rewrite ?A, ?B in *; cbn [rank] in *; lia.
    + lia.
  - intros G. rewrite (run_settled api cfg es s (or_introl G)). exact G.
  - intros F. rewrite (run_settled api cfg es s (or_intror F)). exact F.
Qed.

(** The calls of [dhcp_start] in a log, on either interface. *)
Definition starts (s : state) : nat :=
  (count (call_dhcp_start g_mynetif0) (log s)
   + count (call_dhcp_start g_mynetif1) (log s))%nat.

Definition is_none (s : state) : nat :=
  match dhcp_addr_status s with
  | DHCP_ADDR_NONE => 1
  | _ => 0
  end.

Ltac count_calls :=
  repeat first [ rewrite count_cons_same
               | rewrite count_cons_other by discriminate ].

Lemma count_start_cons n m l :
  (count (call_dhcp_start g_mynetif0) (call_dhcp_start m :: l)
   + count (call_dhcp_start g_mynetif1) (call_dhcp_start m :: l)
   = S (count (call_dhcp_start g_mynetif0) l + count (call_dhcp_start g_mynetif1) l))%nat /\
  (n <> m -> count (call_dhcp_start n) (call_dhcp_start m :: l)
             = count (call_dhcp_start n) l).
Proof.
  split.
  - destruct m; count_calls; lia.
  - intros N. apply count_cons_other. congruence.
Qed.

(** X13: DHCP is started at most once.  Over any sequence of calls,
    [dhcp_start] is called at most once more, and only if the status was
    still NONE; and in a build with [USE_ENET0] it is never called for
    [g_mynetif1], whether or not [USE_ENET1] is set, because the first
    [switch] has already left NONE when the second one runs. *)
Theorem X13_dhcp_started_at_most_once es s :
  (starts (run api cfg es s) <= starts s + is_none s)%nat /\
  (USE_ENET0 cfg = true ->
   count (call_dhcp_start g_mynetif1) (log (run api cfg es s)) =
   count (call_dhcp_start g_mynetif1) (log s)).
Proof.
  split.
  - assert (R : (starts (run api cfg es s) + is_none (run api cfg es s)
                 <= starts s + is_none s)%nat); [|lia].
    apply (run_invariant (fun x => (starts x + is_none x <= starts s + is_none s)%nat)).
    + intros x x' (A & _ & C) H. unfold starts, is_none in *.
      rewrite A, !C by reflexivity. exact H.
    + apply lwip_dhcp_address_get_invariant.
      * intros x H. unfold starts, is_none in *.
        cbn [log invoke dhcp_addr_status]. count_calls. exact H.
      * intros n x y _ St H. unfold starts, is_none in *.
        destruct St as [A B _ L|A B _ L|? ? ? A B _ L|A B L|_ ->];
          rewrite ?A, ?B, ?L in *; try exact H.
        rewrite (proj1 (count_start_cons n n (log x))). lia.
    + lia.
  - intros U.
    apply (run_invariant (fun x => count (call_dhcp_start g_mynetif1) (log x) =
                                   count (call_dhcp_start g_mynetif1) (log s))).
    + intros x x' (_ & _ & C) H. rewrite C by reflexivity. exact H.
    + intros x H. rewrite <- H. unfold lwip_dhcp_address_get. rewrite U.
      set (x0 := invoke api call_lwip_dhcp_address_get (fun l => l) x).
      assert (C0 : count (call_dhcp_start g_mynetif1) (log x0) =
                   count (call_dhcp_start g_mynetif1) (log x))
        by (subst x0; cbn [log invoke]; count_calls; reflexivity).
      pose proof (dhcp_switch_step g_mynetif0 x0) as S0.
      set (y := dhcp_switch api cfg g_mynetif0 x0) in *.
      assert (Y : count (call_dhcp_start g_mynetif1) (log y) =
                  count (call_dhcp_start g_mynetif1) (log x)
                  /\ dhcp_addr_status y <> DHCP_ADDR_NONE).
      { rewrite <- C0.
        destruct S0 as [A B _ L|A B _ L|? ? ? A B _ L|A B L|[A|A] E];
          rewrite ?L, ?B; try (split; [count_calls; reflexivity | discriminate]).
        - rewrite E. split; [reflexivity | congruence].
        - rewrite E. split; [reflexivity | congruence]. }
      destruct Y as [Y1 Y2].
      destruct (USE_ENET1 cfg); [|exact Y1].
      rewrite <- Y1.
      destruct (dhcp_switch_step g_mynetif1 y) as [A B _ L|A B _ L|? ? ? A B _ L|A B L|_ ->];
        rewrite ?L; try contradiction; count_calls; reflexivity.
    + reflexivity.
Qed.

(** X14: [ip_address] tells how DHCP ended.  If it is non-zero whenever the
    status is GOT and zero whenever the status is FAIL, which holds at
    start-up, then it is so after any sequence of calls: an address that was
    got is never 0, and giving up leaves the variable at 0 while the
    interface gets the board address. *)
Theorem X14_ip_address_agrees_with_status es s :
  address_agrees s -> address_agrees (run api cfg es s).
Proof.
  apply (run_invariant address_agrees).
  - intros x x' (A & B & _) H. unfold address_agrees in *. rewrite A, B. exact H.
  - apply lwip_dhcp_address_get_invariant.
    + intros x H. exact H.
    + intros n x y _ St [HG HF]. unfold address_agrees.
      destruct St as [A B _ _|A B I _|? ? ? A B I _|A B _|_ ->];
        rewrite ?B; try (split; intros; congruence).
      split; assumption.
Qed.

(** X15: how one poll of the DHCP client ends.  In BEGIN, when the first
    compiled interface has a non-zero address, [lwip_dhcp_address_get] moves
    to GOT, records that address in [ip_address], prints it, and leaves lwIP
    alone.  When every compiled interface still has address 0 and at most
    [DHCP_TRIES_MAX_TIMES] tries, it stays in BEGIN and calls nothing. *)
Theorem X15_dhcp_poll_outcomes s :
  dhcp_addr_status s = DHCP_ADDR_BEGIN ->
  (forall n, first_netif cfg = Some n ->
     netif_ip_addr api n (lwip s) <> 0 ->
     let s' := lwip_dhcp_address_get api cfg s in
     dhcp_addr_status s' = DHCP_ADDR_GOT /\
     ip_address s' = netif_ip_addr api n (lwip s) /\
     lwip s' = lwip s /\
     log s' = call_printf_ip (netif_ip_addr api n (lwip s))
              :: call_lwip_dhcp_address_get :: log s) /\
  ((forall n, netif_compiled cfg n = true ->
      netif_ip_addr api n (lwip s) = 0 /\
      netif_dhcp_tries api n (lwip s) <= DHCP_TRIES_MAX_TIMES) ->
   let s' := lwip_dhcp_address_get api cfg s in
   dhcp_addr_status s' = DHCP_ADDR_BEGIN /\
   lwip s' = lwip s /\
   log s' = call_lwip_dhcp_address_get :: log s).
Proof.
  intros B. split.
  - intros n Hn Hip. cbv zeta. unfold first_netif in Hn.
    apply Z.eqb_neq in Hip.
    unfold lwip_dhcp_address_get, dhcp_switch.
    destruct (USE_ENET0 cfg); [|destruct (USE_ENET1 cfg); [|discriminate]];
      inversion Hn; subst n;
      cbn [dhcp_addr_status ip_address lwip log invoke set_dhcp_addr_status
           set_ip_address];
      rewrite B, Hip; cbn [negb];
      cbn [dhcp_addr_status ip_address lwip log invoke set_dhcp_addr_status
           set_ip_address];
      try (destruct (USE_ENET1 cfg));
      cbn [dhcp_addr_status ip_address lwip log invoke set_dhcp_addr_status
           set_ip_address];
      repeat split.
  - intros Hall. cbv zeta.
    assert (W : forall n x, netif_compiled cfg n = true ->
                dhcp_addr_status x = DHCP_ADDR_BEGIN -> lwip x = lwip s ->
                dhcp_addr_status (dhcp_switch api cfg n x) = DHCP_ADDR_BEGIN /\
                lwip (dhcp_switch api cfg n x) = lwip s /\
                log (dhcp_switch api cfg n x) = log x).
    { intros n x Hc Bx Lx. destruct (Hall n Hc) as [Ip Tr].
      unfold dhcp_switch. rewrite Bx.
      cbn [ip_address set_ip_address lwip]. rewrite Lx, Ip. cbn [Z.eqb negb].
      replace (netif_dhcp_tries api n (lwip s) >? DHCP_TRIES_MAX_TIMES) with false
        by (symmetry; rewrite Z.gtb_ltb; apply Z.ltb_ge; exact Tr).
      cbn [dhcp_addr_status lwip log set_ip_address]. auto. }
    unfold lwip_dhcp_address_get.
    set (s0 := invoke api call_lwip_dhcp_address_get (fun l => l) s).
    destruct (USE_ENET0 cfg) eqn:U0; destruct (USE_ENET1 cfg) eqn:U1.
    + destruct (W g_mynetif0 s0 U0 B eq_refl) as (A1 & A2 & A3).
      destruct (W g_mynetif1 _ U1 A1 A2) as (B1 & B2 & B3).
      rewrite B1, B2, B3, A3. auto.
    + destruct (W g_mynetif0 s0 U0 B eq_refl) as (A1 & A2 & A3).
      rewrite A1, A2, A3. auto.
    + destruct (W g_mynetif1 s0 U1 B eq_refl) as (A1 & A2 & A3).
      rewrite A1, A2, A3. auto.
    + auto.
Qed.


(** *** The pace of the timers *)

(** The four stages of [lwip_timeouts_check], one per timer. *)
Definition stage (tm : timer) (curtime : Z) (s : state) : state :=
  if timer_compiled cfg tm
     && elapsed curtime (timer_recorded tm s) (timer_interval tm)
  then
    match tm with
    | timer_tcp =>
      invoke api call_tcp_tmr (tcp_tmr api) (set_tcpcurtime api curtime s)
    | timer_arp =>
      invoke api call_etharp_tmr (etharp_tmr api) (set_arpcurtime api curtime s)
    | timer_dhcp_fine =>
      let s := invoke api call_dhcp_fine_tmr (dhcp_fine_tmr api)
                 (set_finecurtime api curtime s) in
      match dhcp_addr_status s with
      | DHCP_ADDR_GOT | DHCP_ADDR_FAIL => s
      | _ => lwip_dhcp_address_get api cfg s
      end
    | timer_dhcp_coarse =>
      invoke api call_dhcp_coarse_tmr (dhcp_coarse_tmr api)
        (set_coarsecurtime api curtime s)
    end
  else s.

Lemma lwip_timeouts_check_stages curtime s :
  lwip_timeouts_check api cfg curtime s =
  stage timer_dhcp_coarse curtime
    (stage timer_dhcp_fine curtime
       (stage timer_arp curtime (stage timer_tcp curtime s))).
Proof.
  unfold lwip_timeouts_check, stage.
  cbn [timer_compiled timer_recorded timer_interval andb].
  destruct (LWIP_TCP cfg); destruct (USE_DHCP cfg); cbn [andb]; reflexivity.
Qed.

(** What a stage does to the timer [tm]: its own timer fires when due, the
    others are left as they are. *)
Definition stage_fires (own tm : timer) (curtime : Z) (s : state) : bool :=
  match own, tm with
  | timer_tcp, timer_tcp | timer_arp, timer_arp
  | timer_dhcp_fine, timer_dhcp_fine | timer_dhcp_coarse, timer_dhcp_coarse =>
    timer_compiled cfg tm && elapsed curtime (timer_recorded tm s) (timer_interval tm)
  | _, _ => false
  end.

Lemma timer_call_is_timer tm : is_timer (timer_call tm) = true.
Proof. destruct tm; reflexivity. Qed.

Lemma stage_effect own tm curtime s :
  timer_recorded tm (stage own curtime s) =
    (if stage_fires own tm curtime s then curtime else timer_recorded tm s) /\
  count (timer_call tm) (log (stage own curtime s)) =
    (count (timer_call tm) (log s) + (if stage_fires own tm curtime s then 1 else 0))%nat.
Proof.
  unfold stage.
  destruct (timer_compiled cfg own
            && elapsed curtime (timer_recorded own s) (timer_interval own)) eqn:F.
  2:{ replace (stage_fires own tm curtime s) with false
        by (destruct own, tm; cbn [stage_fires]; congruence).
      split; [reflexivity | lia]. }
  destruct own.
  1,2,4: destruct tm; cbn [stage_fires]; rewrite ?F;
         cbn [timer_recorded timer_call tcpcurtime arpcurtime finecurtime coarsecurtime
              log invoke set_tcpcurtime set_arpcurtime set_coarsecurtime];
         count_calls; split; (reflexivity || lia).
  set (s1 := invoke api call_dhcp_fine_tmr (dhcp_fine_tmr api)
               (set_finecurtime api curtime s)).
  assert (G : same_timers api s1
                match dhcp_addr_status s1 with
                | DHCP_ADDR_GOT | DHCP_ADDR_FAIL => s1
                | _ => lwip_dhcp_address_get api cfg s1
                end).
  { destruct (dhcp_addr_status s1);
      (apply same_timers_refl || apply lwip_dhcp_address_get_same_timers). }
  destruct G as (G1 & G2 & G3 & G4 & G5).
  rewrite (G5 _ (timer_call_is_timer tm)).
  destruct tm; cbn [stage_fires]; rewrite ?F; cbn [timer_recorded];
    rewrite ?G1, ?G2, ?G3, ?G4;
    subst s1;
    cbn [timer_call tcpcurtime arpcurtime finecurtime coarsecurtime
         log invoke set_finecurtime];
    count_calls; split; (reflexivity || lia).
Qed.

(** The timer [tm] fires in a call when it is compiled in and due. *)
Definition fires (tm : timer) (curtime : Z) (s : state) : bool :=
  timer_compiled cfg tm && elapsed curtime (timer_recorded tm s) (timer_interval tm).

Lemma check_effect tm curtime s :
  timer_recorded tm (lwip_timeouts_check api cfg curtime s) =
    (if fires tm curtime s then curtime else timer_recorded tm s) /\
  count (timer_call tm) (log (lwip_timeouts_check api cfg curtime s)) =
    (count (timer_call tm) (log s) + (if fires tm curtime s then 1 else 0))%nat.
Proof.
  rewrite lwip_timeouts_check_stages.
  set (s1 := stage timer_tcp curtime s).
  set (s2 := stage timer_arp curtime s1).
  set (s3 := stage timer_dhcp_fine curtime s2).
  destruct (stage_effect timer_tcp tm curtime s) as [R1 C1].
  destruct (stage_effect timer_arp tm curtime s1) as [R2 C2].
  destruct (stage_effect timer_dhcp_fine tm curtime s2) as [R3 C3].
  destruct (stage_effect timer_dhcp_coarse tm curtime s3) as [R4 C4].
  fold s1 in R1, C1. fold s2 in R2, C2. fold s3 in R3, C3.
  rewrite R4, C4. unfold fires.
  destruct tm; cbn [stage_fires] in *;
    rewrite ?R3, ?C3, ?R2, ?C2, ?R1, ?C1; split; (reflexivity || lia).
Qed.

Lemma interval_positive tm : 0 < timer_interval tm.
Proof. destruct tm; reflexivity. Qed.

Lemma not_elapsed_at_once curtime tm : elapsed curtime curtime (timer_interval tm) = false.
Proof.
  unfold elapsed, uint32. rewrite Z.sub_diag. cbn [Z.modulo].
  destruct tm; reflexivity.
Qed.

Lemma check_quiet curtime s :
  (forall tm, fires tm curtime s = false) ->
  lwip_timeouts_check api cfg curtime s = s.
Proof.
  intros Q. rewrite lwip_timeouts_check_stages.
  assert (St : forall tm, stage tm curtime s = s).
  { intros tm. unfold stage. pose proof (Q tm) as F. unfold fires in F.
    rewrite F. reflexivity. }
  rewrite (St timer_tcp), (St timer_arp), (St timer_dhcp_fine), (St timer_dhcp_coarse).
  reflexivity.
Qed.

(** X16: polling twice at the same time does nothing the second time.  A
    second [lwip_timeouts_check] with the same [curtime] returns the state
    unchanged: no timer is called again and the DHCP polling is not
    entered. *)
Theorem X16_timeouts_check_idempotent curtime s :
  lwip_timeouts_check api cfg curtime (lwip_timeouts_check api cfg curtime s) =
  lwip_timeouts_check api cfg curtime s.
Proof.
  apply check_quiet. intros tm. unfold fires.
  destruct (check_effect tm curtime s) as [R _]. rewrite R. unfold fires.
  destruct (timer_compiled cfg tm); [|reflexivity]. cbn [andb].
  destruct (elapsed curtime (timer_recorded tm s) (timer_interval tm)) eqn:E.
  - apply not_elapsed_at_once.
  - exact E.
Qed.

Lemma ascending_weaken r r' ts T : r' <= r -> ascending r ts T -> ascending r' ts T.
Proof. destruct ts; cbn [ascending]; intuition lia. Qed.

(** X17: no timer runs faster than its period.  When [lwip_timeouts_check]
    is called at times that do not decrease and stay below 2^32, starting at
    or after the recorded time of a timer, that timer is called at most once
    per full interval that fits between its recorded time and the last call:
    at most [(T - recorded) / interval] times. *)
Theorem X17_timer_rate_bound tm ts : forall s T,
  0 <= timer_recorded tm s ->
  T < 4294967296 ->
  ascending (timer_recorded tm s) ts T ->
  (count (timer_call tm) (log (run api cfg (List.map enter_lwip_timeouts_check ts) s))
   <= count (timer_call tm) (log s)
      + Z.to_nat ((T - timer_recorded tm s) / timer_interval tm))%nat.
Proof.
  pose proof (interval_positive tm) as Ipos.
  induction ts as [|t ts IH]; intros s T R0 HT Asc.
  - unfold run. cbn [List.map fold_left]. lia.
  - destruct Asc as [Ht Asc].
    unfold run in *. cbn [List.map fold_left run_entry].
    destruct (check_effect tm t s) as [R C].
    set (s1 := lwip_timeouts_check api cfg t s) in *.
    assert (Tt : t <= T).
    { clear - Asc. revert t Asc. induction ts as [|u ts IHts]; intros t Asc;
        cbn [ascending] in Asc; [lia|].
      destruct Asc as [A B]. specialize (IHts _ B). lia. }
    unfold fires in R, C.
    destruct (timer_compiled cfg tm
              && elapsed t (timer_recorded tm s) (timer_interval tm)) eqn:F.
    + assert (Due : timer_interval tm <= t - timer_recorded tm s).
      { apply andb_true_iff in F. destruct F as [_ F].
        unfold elapsed, uint32 in F. rewrite Z.geb_le in F.
        rewrite Z.mod_small in F by lia. exact F. }
      specialize (IH s1 T). rewrite R in IH.
      specialize (IH ltac:(lia) HT Asc). rewrite C in IH.
      assert (D : (T - t) / timer_interval tm + 1
                  <= (T - timer_recorded tm s) / timer_interval tm).
      { rewrite <- Z.div_add by lia. apply Z.div_le_mono; lia. }
      assert (0 <= (T - t) / timer_interval tm) by (apply Z.div_pos; lia).
      lia.
    + specialize (IH s1 T). rewrite R in IH.
      specialize (IH R0 HT (ascending_weaken _ _ _ _ Ht Asc)). rewrite C in IH.
      lia.
Qed.


End More.

(** The toy stack polled every 500 ms with no DHCP answer: the fifth poll
    gives up. *)
Definition toy_polls : list (entry) :=
  List.map enter_lwip_timeouts_check [500; 1000; 1500; 2000; 2500].

(** The toy stack in BEGIN with an address on the first interface. *)
Definition toy_offered : Netconf.state toy_lwip :=
  mkState toy_lwip 0 0 0 0 DHCP_ADDR_BEGIN 0
    (mkToy 1778493632 0 0 1, mkToy 0 0 0 0) [].

Lemma X14_ip_address_agrees_with_status_witness :
  address_agrees toy_lwip toy_init /\
  dhcp_addr_status (run toy_lwip toy_cfg toy_polls toy_init) = DHCP_ADDR_FAIL /\
  address_agrees toy_lwip (run toy_lwip toy_cfg toy_polls toy_init).
Proof.
  assert (A : address_agrees toy_lwip toy_init)
    by (split; intros H; vm_compute in H; discriminate).
  split; [exact A|]. split; [vm_compute; reflexivity|].
  exact (X14_ip_address_agrees_with_status toy_lwip toy_cfg toy_polls toy_init A).
Defined.

Lemma X15_dhcp_poll_outcomes_witness :
  dhcp_addr_status toy_offered = DHCP_ADDR_BEGIN /\
  first_netif toy_cfg = Some g_mynetif0 /\
  netif_ip_addr toy_lwip g_mynetif0 (lwip toy_offered) <> 0 /\
  dhcp_addr_status (lwip_dhcp_address_get toy_lwip toy_cfg toy_offered) = DHCP_ADDR_GOT /\
  ip_address (lwip_dhcp_address_get toy_lwip toy_cfg toy_offered) = 1778493632.
Proof.
  assert (B : dhcp_addr_status toy_offered = DHCP_ADDR_BEGIN) by reflexivity.
  assert (F : first_netif toy_cfg = Some g_mynetif0) by reflexivity.
  assert (I : netif_ip_addr toy_lwip g_mynetif0 (lwip toy_offered) <> 0)
    by (vm_compute; discriminate).
  destruct (X15_dhcp_poll_outcomes toy_lwip toy_cfg toy_offered B) as [G _].
  destruct (G g_mynetif0 F I) as (G1 & G2 & _).
  split; [exact B|]. split; [exact F|]. split; [exact I|].
  split; [exact G1 | exact G2].
Defined.

(** Five calls of [lwip_timeouts_check] within 600 ms. *)
Definition toy_times : list Z := [0; 100; 250; 300; 600].

Lemma X17_timer_rate_bound_witness :
  0 <= timer_recorded timer_tcp toy_init /\
  600 < 4294967296 /\
  ascending (timer_recorded timer_tcp toy_init) toy_times 600 /\
  (count call_tcp_tmr
     (log (run toy_lwip toy_cfg
             (List.map enter_lwip_timeouts_check toy_times) toy_init))
   <= 2)%nat.
Proof.
  assert (R : 0 <= timer_recorded timer_tcp toy_init) by (vm_compute; discriminate).
  assert (T : 600 < 4294967296) by reflexivity.
  assert (A : ascending (timer_recorded timer_tcp toy_init)
                toy_times 600)
    by (vm_compute; intuition discriminate).
  split; [exact R|]. split; [exact T|]. split; [exact A|].
  exact (X17_timer_rate_bound toy_lwip toy_cfg timer_tcp toy_times
           toy_init 600 R T A).
Defined.

End NetconfMore.

(* ====================================================================== *)
(** ** More about gd32h7xx_it.c *)
(* ====================================================================== *)

Module ItMore.
Import It ItFacts.
Import ITreeNotations.
Local Open Scope itree_scope.

(** The MAC a call names, if it names one. *)
Definition call_periph (c : call) : option enet_periph :=
  match c with
  | called_enet_interrupt_flag_get p _ => Some p
  | called_enet_interrupt_flag_clear p _ => Some p
  | _ => None
  end.

Definition is_switch (c : call) : bool :=
  match c with called_portEND_SWITCHING_ISR _ => true | _ => false end.

(** The calls a relay of MAC [p] makes when nothing is pending, newest
    first. *)
Definition quiet_calls (p : enet_periph) : list call :=
  [called_enet_interrupt_flag_clear p ENET_DMA_INT_FLAG_NI_CLR;
   called_enet_interrupt_flag_clear p ENET_DMA_INT_FLAG_RS_CLR;
   called_enet_interrupt_flag_get p ENET_DMA_INT_FLAG_RS].

Lemma relayed_task_woken p b : task_woken (relayed p b) = task_woken b.
Proof.
  unfold relayed.
  destruct (FlagStatus_eqb SET (pending b p ENET_DMA_INT_FLAG_RS));
    cbn [task_woken log_call]; [|reflexivity].
  destruct (negb (task_woken b =? pdFALSE)); reflexivity.
Qed.

Lemma relayed_pending p b q f :
  pending (relayed p b) q f =
  if enet_periph_eqb p q then RESET else pending b q f.
Proof.
  unfold relayed.
  destruct (FlagStatus_eqb SET (pending b p ENET_DMA_INT_FLAG_RS));
    cbn [task_woken log_call];
    [destruct (negb (task_woken b =? pdFALSE))|change (pdFALSE =? pdFALSE) with true];
    cbn [negb pending log_call clear_flag give switch_context];
    destruct (enet_periph_eqb p q); destruct f; reflexivity.
Qed.

Lemma relayed_quiet p b :
  pending b p ENET_DMA_INT_FLAG_RS = RESET ->
  given (relayed p b) = given b /\
  switches (relayed p b) = switches b /\
  calls (relayed p b) = (quiet_calls p ++ calls b)%list.
Proof.
  intros Q. unfold relayed. rewrite Q. cbn [FlagStatus_eqb].
  change (pdFALSE =? pdFALSE) with true. cbn [negb].
  repeat split.
Qed.

(** The calls one run of the relay of MAC [p] makes, newest first. *)
Definition relay_calls (p : enet_periph) (b : board) : list call :=
  let set := FlagStatus_eqb SET (pending b p ENET_DMA_INT_FLAG_RS) in
  ((if set && negb (task_woken b =? pdFALSE)
    then [called_portEND_SWITCHING_ISR (task_woken b)] else [])
   ++ [called_enet_interrupt_flag_clear p ENET_DMA_INT_FLAG_NI_CLR;
       called_enet_interrupt_flag_clear p ENET_DMA_INT_FLAG_RS_CLR]
   ++ (if set then [called_xSemaphoreGiveFromISR g_rx_semaphore] else [])
   ++ [called_enet_interrupt_flag_get p ENET_DMA_INT_FLAG_RS])%list.

Lemma relayed_calls p b : calls (relayed p b) = (relay_calls p b ++ calls b)%list.
Proof.
  unfold relayed, relay_calls.
  destruct (FlagStatus_eqb SET (pending b p ENET_DMA_INT_FLAG_RS));
    cbn [task_woken log_call andb];
    [destruct (negb (task_woken b =? pdFALSE))|change (pdFALSE =? pdFALSE) with true];
    reflexivity.
Qed.

Lemma relayed_given p b :
  given (relayed p b) =
  if FlagStatus_eqb SET (pending b p ENET_DMA_INT_FLAG_RS)
  then S (given b) else given b.
Proof.
  unfold relayed.
  destruct (FlagStatus_eqb SET (pending b p ENET_DMA_INT_FLAG_RS));
    cbn [task_woken log_call];
    [destruct (negb (task_woken b =? pdFALSE))|change (pdFALSE =? pdFALSE) with true];
    reflexivity.
Qed.

Lemma relayed_switches p b :
  switches (relayed p b) =
  if FlagStatus_eqb SET (pending b p ENET_DMA_INT_FLAG_RS)
     && negb (task_woken b =? pdFALSE)
  then S (switches b) else switches b.
Proof.
  unfold relayed.
  destruct (FlagStatus_eqb SET (pending b p ENET_DMA_INT_FLAG_RS));
    cbn [task_woken log_call andb];
    [destruct (negb (task_woken b =? pdFALSE))|change (pdFALSE =? pdFALSE) with true];
    reflexivity.
Qed.

Lemma relays_run p q b :
  interp_state board_handler (ENET_IRQHandler p ;; ENET_IRQHandler q) b
  ≈ Ret (relayed q (relayed p b), tt).
Proof.
  rewrite interp_state_bind, ENET_IRQHandler_runs, bind_ret_l.
  cbn [fst snd]. apply ENET_IRQHandler_runs.
Qed.

(** X18: when the relay asks for a context switch.  The relay of either MAC
    calls [portEND_SWITCHING_ISR] exactly when the RS flag of its MAC was set
    on entry and the give left a value other than [pdFALSE] in
    [xHigherPriorityTaskWoken]; the call is then the last one of the run and
    passes that value.  With the flag reset no switch is asked for, whatever
    a give would have answered. *)
Theorem X18_context_switch_request p b :
  let asked := FlagStatus_eqb SET (pending b p ENET_DMA_INT_FLAG_RS)
               && negb (task_woken b =? pdFALSE) in
  let b' := relayed p b in
  interp_state board_handler (ENET_IRQHandler p) b ≈ Ret (b', tt) /\
  switches b' = (if asked then S (switches b) else switches b) /\
  (exists l, calls b' = (l ++ calls b)%list /\
     existsb is_switch l = asked /\
     (asked = true ->
      exists l', l = called_portEND_SWITCHING_ISR (task_woken b) :: l' /\
                 existsb is_switch l' = false)).
Proof.
  cbv zeta. split; [apply ENET_IRQHandler_runs|].
  split; [apply relayed_switches|].
  exists (relay_calls p b). split; [apply relayed_calls|].
  unfold relay_calls.
  destruct (FlagStatus_eqb SET (pending b p ENET_DMA_INT_FLAG_RS));
    destruct (negb (task_woken b =? pdFALSE)); cbn [andb];
    (split; [reflexivity|]); try discriminate.
  intros _. eexists. split; reflexivity.
Qed.

(** X19: a frame is relayed once.  When the relay of a MAC runs twice in a
    row, the second run finds the RS flag cleared by the first: it gives no
    semaphore, asks for no context switch, and only reads the flag and
    clears RS and NI again. *)
Theorem X19_second_relay_is_quiet p b :
  let b1 := relayed p b in
  let b2 := relayed p b1 in
  interp_state board_handler (ENET_IRQHandler p ;; ENET_IRQHandler p) b
  ≈ Ret (b2, tt) /\
  given b2 = given b1 /\
  switches b2 = switches b1 /\
  calls b2 = (quiet_calls p ++ calls b1)%list.
Proof.
  cbv zeta. split; [apply relays_run|].
  apply relayed_quiet.
  rewrite relayed_pending, enet_periph_eqb_refl. reflexivity.
Qed.

(** X20: the relays keep to their own MAC.  The relay of one MAC leaves both
    flags of the other MAC as they were and names only its own MAC in the
    calls it makes; so a frame pending on the other MAC is still relayed,
    with its give, when that MAC's relay runs next. *)
Theorem X20_relays_are_independent p q b :
  p <> q ->
  let b1 := relayed p b in
  let b2 := relayed q b1 in
  interp_state board_handler (ENET_IRQHandler p ;; ENET_IRQHandler q) b
  ≈ Ret (b2, tt) /\
  (forall f, pending b1 q f = pending b q f) /\
  (exists l, calls b1 = (l ++ calls b)%list /\
     forall c r, In c l -> call_periph c = Some r -> r = p) /\
  given b2 = (if FlagStatus_eqb SET (pending b q ENET_DMA_INT_FLAG_RS)
              then S (given b1) else given b1).
Proof.
  intros Npq. cbv zeta. split; [apply relays_run|].
  assert (E : enet_periph_eqb p q = false)
    by (destruct p, q; try reflexivity; congruence).
  assert (P : forall f, pending (relayed p b) q f = pending b q f)
    by (intros f; rewrite relayed_pending, E; reflexivity).
  split; [exact P|]. split.
  - exists (relay_calls p b). split; [apply relayed_calls|].
    intros c r Hin Hc. unfold relay_calls in Hin.
    destruct (FlagStatus_eqb SET (pending b p ENET_DMA_INT_FLAG_RS));
      destruct (negb (task_woken b =? pdFALSE)); cbn [andb app In] in Hin;
      repeat (destruct Hin as [<-|Hin]; [cbn [call_periph] in Hc; congruence|]);
      destruct Hin.
  - rewrite relayed_given, P. reflexivity.
Qed.

Lemma X20_relays_are_independent_witness :
  ENET0 <> ENET1 /\
  pending (relayed ENET0 frame_board) ENET1 ENET_DMA_INT_FLAG_RS = RESET /\
  given (relayed ENET1 (relayed ENET0 frame_board)) = 1%nat.
Proof.
  assert (N : ENET0 <> ENET1) by discriminate.
  destruct (X20_relays_are_independent ENET0 ENET1 frame_board N) as (_ & P & _ & G).
  split; [exact N|]. split; [exact (P ENET_DMA_INT_FLAG_RS)|exact G].
Defined.

End ItMore.

(* ====================================================================== *)
(** ** main.c of the raw web server, with the frame entries of netconf.c *)
(* ====================================================================== *)

Module Main.
Import Netconf.

Definition SYSTEMTICK_PERIOD_MS : Z := 10.

(** The compile-time switches main.c tests beside those of netconf.c. *)
Record MainConfig : Set := mkMainConfig {
  USE_ENET_INTERRUPT : bool;
  TIMEOUT_CHECK_USE_LWIP : bool
}.

(** Calls into lwIP that main.c and the frame entries make. *)
Inductive main_call : Set :=
| call_ethernetif_input (n : netif_id)
| call_sys_check_timeouts.

Section Model.

Variable api : lwip_api.
Variable cfg : Netconf.Config.
Variable mcfg : MainConfig.

(** What the board and lwIP answer.  [g_localtime] is volatile: the SysTick
    interrupt, whose handler calls [time_update], runs between two reads of
    it; [systick i] is the number of interrupts served before read number
    [i].  [enet_rxframe_size_get n i] is the answer for the MAC of interface
    [n] in pass [i] of the main loop. *)
Record Env : Type := mkEnv {
  systick : nat -> nat;
  enet_rxframe_size_get : netif_id -> nat -> Z;
  ethernetif_input : netif_id -> stack api -> stack api;
  sys_check_timeouts : stack api -> stack api
}.

Variable env : Env.

(** The globals of main.c beside those of netconf.c; [reads] and [passes]
    count the reads of [g_localtime] and the passes of the main loop. *)
Record state : Type := mkState {
  net : Netconf.state api;
  g_localtime : Z;
  g_timedelay : Z;
  reads : nat;
  passes : nat;
  calls : list main_call
}.

Definition on_net (f : Netconf.state api -> Netconf.state api) (s : state) : state :=
  mkState (f (net s)) (g_localtime s) (g_timedelay s) (reads s) (passes s) (calls s).

Definition set_g_timedelay (v : Z) (s : state) : state :=
  mkState (net s) (g_localtime s) v (reads s) (passes s) (calls s).

Definition emit (c : main_call) (s : state) : state :=
  mkState (net s) (g_localtime s) (g_timedelay s) (reads s) (passes s) (c :: calls s).

Definition next_pass (s : state) : state :=
  mkState (net s) (g_localtime s) (g_timedelay s) (reads s) (S (passes s)) (calls s).

(** [g_localtime += SYSTEMTICK_PERIOD_MS] *)
Definition time_update (s : state) : state :=
  mkState (net s) (uint32 (g_localtime s + SYSTEMTICK_PERIOD_MS)) (g_timedelay s)
    (reads s) (passes s) (calls s).

(** One read of the volatile [g_localtime], after the pending interrupts. *)
Definition read_g_localtime (s : state) : Z * state :=
  let s := Nat.iter (systick env (reads s)) time_update s in
  (g_localtime s,
   mkState (net s) (g_localtime s) (g_timedelay s) (S (reads s)) (passes s) (calls s)).

(** [while (g_timedelay > g_localtime) { }] *)
Fixpoint delay_wait (fuel : nat) (s : state) : option state :=
  match fuel with
  | O => None
  | S fuel =>
    let '(t, s) := read_g_localtime s in
    if g_timedelay s >? t then delay_wait fuel s else Some s
  end.

Definition delay_10ms (fuel : nat) (ncount : Z) (s : state) : option state :=
  let '(t, s) := read_g_localtime s in
  let s := set_g_timedelay (uint32 (t + ncount)) s in
  delay_wait fuel s.

(** A call into lwIP that only touches what lwIP owns. *)
Definition in_stack (f : stack api -> stack api) (x : Netconf.state api)
  : Netconf.state api :=
  Netconf.mkState api (tcpcurtime x) (arpcurtime x) (finecurtime x) (coarsecurtime x)
    (dhcp_addr_status x) (ip_address x) (f (lwip x)) (log x).

(** netconf.c: [lwip_frame_recv0] and [lwip_frame_recv1]. *)
Definition lwip_frame_recv (n : netif_id) (s : state) : state :=
  emit (call_ethernetif_input n) (on_net (in_stack (ethernetif_input env n)) s).

Definition lwip_frame_recv0 : state -> state := lwip_frame_recv g_mynetif0.
Definition lwip_frame_recv1 : state -> state := lwip_frame_recv g_mynetif1.

(** One pass of the [while (1)] of [main]. *)
Definition main_pass (s : state) : state :=
  let s :=
    if USE_ENET0 cfg && negb (USE_ENET_INTERRUPT mcfg) then
      if negb (enet_rxframe_size_get env g_mynetif0 (passes s) =? 0)
      then lwip_frame_recv0 s else s
    else s in
  let s :=
    if USE_ENET1 cfg && negb (USE_ENET_INTERRUPT mcfg) then
      if negb (enet_rxframe_size_get env g_mynetif1 (passes s) =? 0)
      then lwip_frame_recv1 s else s
    else s in
  let s :=
    if TIMEOUT_CHECK_USE_LWIP mcfg then
      let s := emit call_sys_check_timeouts
                 (on_net (in_stack (sys_check_timeouts env)) s) in
      if USE_DHCP cfg then on_net (lwip_dhcp_address_get api cfg) s else s
    else
      let '(curtime, s) := read_g_localtime s in
      on_net (lwip_timeouts_check api cfg curtime) s in
  next_pass s.

(** The first [n] passes of the main loop, which never ends. *)
Definition main_loop (n : nat) (s : state) : state := Nat.iter n main_pass s.

End Model.

Arguments systick {api}.
Arguments enet_rxframe_size_get {api}.
Arguments ethernetif_input {api}.
Arguments sys_check_timeouts {api}.
Arguments net {api}.
Arguments g_localtime {api}.
Arguments g_timedelay {api}.
Arguments reads {api}.
Arguments passes {api}.
Arguments calls {api}.
Arguments time_update {api}.
Arguments read_g_localtime {api}.
Arguments delay_wait {api}.
Arguments delay_10ms {api}.
Arguments lwip_frame_recv {api}.
Arguments main_pass {api}.
Arguments main_loop {api}.

(** The toy stack after reset, with a SysTick interrupt before every second
    read and a frame on interface 0 in every fourth pass. *)
Definition toy_env : Env toy_lwip :=
  mkEnv toy_lwip (fun i => if Nat.even i then 0%nat else 1%nat)
    (fun n i => match n with
                | g_mynetif0 => if (i mod 4 =? 0)%nat then 64 else 0
                | g_mynetif1 => 0
                end)
    (fun n st => st) (fun st => st).

Definition toy_mcfg : MainConfig := mkMainConfig false false.

Definition toy_reset : state toy_lwip := mkState toy_lwip toy_init 0 0 0 0 [].

(** Twenty milliseconds before [g_localtime] wraps around, with an
    interrupt pending. *)
Definition toy_late : state toy_lwip :=
  mkState toy_lwip toy_init 4294967276 0 1 0 [].

End Main.

(* ====================================================================== *)
(** ** Facts about main.c *)
(* ====================================================================== *)

Module MainFacts.
Import Netconf NetconfFacts NetconfMore Main.

Section Facts.

Variable api : lwip_api.
Variable cfg : Netconf.Config.
Variable mcfg : MainConfig.
Variable env : Env api.

Abbreviation state := (Main.state api).

(** *** The clock *)

(** [g_localtime] after [k] SysTick interrupts. *)
Definition ticked (k : nat) (t : Z) : Z :=
  Nat.iter k (fun t => uint32 (t + SYSTEMTICK_PERIOD_MS)) t.

Lemma ticks_fields k (s : state) :
  let s' := Nat.iter k time_update s in
  net s' = net s /\ g_localtime s' = ticked k (g_localtime s) /\
  g_timedelay s' = g_timedelay s /\ reads s' = reads s /\
  passes s' = passes s /\ calls s' = calls s.
Proof.
  cbv zeta. induction k as [|k IH].
  - repeat split.
  - destruct IH as (A & B & C & D & E & F).
    unfold ticked in *. rewrite !Nat.iter_succ.
    remember (Nat.iter k time_update s) as x eqn:Ex. clear Ex.
    unfold time_update.
    cbn [net g_localtime g_timedelay reads passes calls].
    rewrite A, B, C, D, E, F. repeat split.
Qed.

Lemma ticked_no_wrap k t :
  0 <= t -> t + 10 * Z.of_nat k < 4294967296 -> ticked k t = t + 10 * Z.of_nat k.
Proof.
  intros T0. induction k as [|k IH]; intros H.
  - cbn. lia.
  - unfold ticked in *. rewrite Nat.iter_succ, IH by lia.
    unfold uint32, SYSTEMTICK_PERIOD_MS. rewrite Z.mod_small; lia.
Qed.

Lemma ticked_range k t : 0 <= t < 4294967296 -> 0 <= ticked k t < 4294967296.
Proof.
  intros T0. destruct k as [|k]; [exact T0|].
  unfold ticked. rewrite Nat.iter_succ. unfold uint32.
  apply Z.mod_pos_bound. reflexivity.
Qed.

Lemma read_g_localtime_spec (s : state) :
  let t := ticked (systick env (reads s)) (g_localtime s) in
  read_g_localtime env s =
  (t, mkState api (net s) t (g_timedelay s) (S (reads s)) (passes s) (calls s)).
Proof.
  cbv zeta. unfold read_g_localtime.
  destruct (ticks_fields (systick env (reads s)) s) as (A & B & C & D & E & F).
  rewrite A, B, C, D, E, F. reflexivity.
Qed.

(** *** [delay_10ms] *)

Lemma delay_wait_S fuel (s : state) :
  delay_wait env (S fuel) s =
  let '(t, s) := read_g_localtime env s in
  if g_timedelay s >? t then delay_wait env fuel s else Some s.
Proof. reflexivity. Qed.

(** X21: a deadline past the end of the clock is not waited for.  When
    [g_localtime + ncount] does not fit in 32 bits, [g_timedelay] wraps to a
    value below [g_localtime], and [delay_10ms] returns at its first
    comparison: no time passes beyond the interrupts that were pending at
    its two reads. *)
Theorem X21_delay_10ms_deadline_wraps fuel ncount (s : state) :
  let t := fst (read_g_localtime env s) in
  let k := systick env (S (reads s)) in
  0 <= g_localtime s < 4294967296 ->
  0 <= ncount < 4294967296 ->
  4294967296 <= t + ncount ->
  t + 10 * Z.of_nat k < 4294967296 ->
  exists s',
    delay_10ms env (S fuel) ncount s = Some s' /\
    reads s' = S (S (reads s)) /\
    g_timedelay s' = t + ncount - 4294967296 /\
    g_localtime s' = t + 10 * Z.of_nat k.
Proof.
  cbv zeta. rewrite !read_g_localtime_spec. cbn [fst].
  set (t := ticked (systick env (reads s)) (g_localtime s)).
  intros G N W K.
  assert (T : 0 <= t < 4294967296) by (apply ticked_range; exact G).
  unfold delay_10ms. rewrite read_g_localtime_spec. fold t.
  rewrite delay_wait_S, read_g_localtime_spec.
  cbn [set_g_timedelay net g_localtime g_timedelay reads passes calls].
  rewrite ticked_no_wrap by lia.
  assert (D : uint32 (t + ncount) = t + ncount - 4294967296).
  { unfold uint32.
    replace (t + ncount) with (t + ncount - 4294967296 + 1 * 4294967296) by lia.
    rewrite Z.mod_add by lia. rewrite Z.mod_small; lia. }
  rewrite D.
  destruct (t + ncount - 4294967296 >? t + 10 * Z.of_nat (systick env (S (reads s))))
    eqn:C.
  - rewrite Z.gtb_ltb in C. apply Z.ltb_lt in C. lia.
  - eexists. split; [reflexivity|]. repeat split.
Qed.

Section Ticking.

(** The SysTick interrupt keeps coming, and the loops are fast enough to see
    each value of the clock. *)
Hypothesis one_tick : forall i, (systick env i <= 1)%nat.
Hypothesis ticking : forall i, exists j, (i <= j)%nat /\ systick env j = 1%nat.

Lemma delay_wait_idle d : forall g (s : state),
  systick env (reads s + g) = 1%nat ->
  g_timedelay s = d ->
  0 <= g_localtime s < d ->
  d + 10 < 4294967296 ->
  exists k s1,
    (forall fuel, delay_wait env (k + S fuel) s =
       if d >? g_localtime s + 10 then delay_wait env fuel s1 else Some s1) /\
    g_timedelay s1 = d /\ g_localtime s1 = g_localtime s + 10.
Proof.
  assert (Tick : forall s : state,
            systick env (reads s) = 1%nat ->
            0 <= g_localtime s < g_timedelay s ->
            g_timedelay s + 10 < 4294967296 ->
            exists k s1,
              (forall fuel, delay_wait env (k + S fuel) s =
                 if g_timedelay s >? g_localtime s + 10
                 then delay_wait env fuel s1 else Some s1) /\
              g_timedelay s1 = g_timedelay s /\
              g_localtime s1 = g_localtime s + 10).
  { intros s K T W.
    pose proof (read_g_localtime_spec s) as R. cbv zeta in R.
    rewrite K in R. rewrite ticked_no_wrap in R by lia.
    change (10 * Z.of_nat 1) with 10 in R.
    exists 0%nat. eexists. split; [|split].
    - intros fuel. cbn [Nat.add]. rewrite delay_wait_S, R.
      cbn [g_timedelay]. reflexivity.
    - reflexivity.
    - reflexivity. }
  induction g as [|g IHg]; intros s Sj D T W; subst d.
  - rewrite Nat.add_0_r in Sj. apply Tick; assumption.
  - pose proof (one_tick (reads s)) as O.
    destruct (systick env (reads s)) as [|[|k]] eqn:K; [| |lia].
    + pose proof (read_g_localtime_spec s) as R. cbv zeta in R.
      rewrite K in R. change (ticked 0 (g_localtime s)) with (g_localtime s) in R.
      destruct (IHg (mkState api (net s) (g_localtime s) (g_timedelay s)
                       (S (reads s)) (passes s) (calls s)))
        as (k & s1 & F & F1 & F2);
        cbn [g_timedelay g_localtime reads]; try lia; try reflexivity.
      { rewrite <- Sj. f_equal. lia. }
      cbn [g_localtime g_timedelay] in F, F1, F2.
      exists (S k), s1. split; [|split; assumption].
      intros fuel. cbn [Nat.add]. rewrite delay_wait_S, R.
      cbn [g_timedelay].
      assert (C : (g_timedelay s >? g_localtime s) = true)
        by (rewrite Z.gtb_ltb; apply Z.ltb_lt; lia).
      rewrite C. apply F.
    + apply Tick; assumption.
Qed.

Lemma delay_wait_total d : forall m (s : state),
  g_timedelay s = d ->
  0 <= g_localtime s < d ->
  d + 10 < 4294967296 ->
  d - g_localtime s <= 10 * Z.of_nat m ->
  exists fuel s',
    delay_wait env fuel s = Some s' /\ g_timedelay s' = d /\
    d <= g_localtime s' < d + 10.
Proof.
  induction m as [|m IH]; intros s D T W M; [lia|].
  destruct (ticking (reads s)) as (j & Hj & Sj).
  replace j with (reads s + (j - reads s))%nat in Sj by lia.
  destruct (delay_wait_idle d _ s Sj D T W) as (k & s1 & F & F1 & F2).
  destruct (d >? g_localtime s + 10) eqn:C.
  - rewrite Z.gtb_ltb in C. apply Z.ltb_lt in C.
    destruct (IH s1 F1 ltac:(lia) W ltac:(lia)) as (fuel & s' & G & G1 & G2).
    exists (k + S fuel)%nat, s'. rewrite F. split; [exact G|split; assumption].
  - rewrite Z.gtb_ltb in C. apply Z.ltb_ge in C.
    exists (k + 1)%nat, s1. rewrite F. split; [reflexivity|]. split; [exact F1|lia].
Qed.

(** X22: a delay ends within one tick of its deadline.  While the SysTick
    interrupt keeps coming and the deadline [g_localtime + ncount] stays
    clear of the end of the 32-bit clock, [delay_10ms] returns, and it
    returns with [g_localtime] at or past the deadline by at most one
    period of 10 (by less than one when [ncount] is not 0).  The wait is
    [ncount] units of [g_localtime], which [time_update] advances by 10 per
    tick. *)
Theorem X22_delay_10ms_returns_on_time ncount (s : state) :
  let t := fst (read_g_localtime env s) in
  0 <= g_localtime s < 4294967296 ->
  0 <= ncount ->
  t + ncount + 10 < 4294967296 ->
  exists fuel s',
    delay_10ms env fuel ncount s = Some s' /\
    g_timedelay s' = t + ncount /\
    t + ncount <= g_localtime s' <= t + ncount + 10 /\
    (0 < ncount -> g_localtime s' < t + ncount + 10).
Proof.
  cbv zeta. rewrite read_g_localtime_spec. cbn [fst].
  set (t := ticked (systick env (reads s)) (g_localtime s)).
  intros G N W.
  assert (T : 0 <= t < 4294967296) by (apply ticked_range; exact G).
  assert (D : uint32 (t + ncount) = t + ncount)
    by (unfold uint32; apply Z.mod_small; lia).
  unfold delay_10ms. rewrite read_g_localtime_spec. fold t. rewrite D.
  set (s1 := set_g_timedelay api (t + ncount) _).
  destruct (Z.eq_dec ncount 0) as [->|N0].
  - exists 1%nat. rewrite delay_wait_S, read_g_localtime_spec.
    cbn [s1 set_g_timedelay net g_localtime g_timedelay reads passes calls].
    pose proof (one_tick (S (reads s))) as O.
    assert (K : ticked (systick env (S (reads s))) t = t
                \/ ticked (systick env (S (reads s))) t = t + 10).
    { destruct (systick env (S (reads s))) as [|[|k]]; [left; reflexivity| |lia].
      right. rewrite ticked_no_wrap by lia. reflexivity. }
    assert (C : (t + 0 >? ticked (systick env (S (reads s))) t) = false)
      by (rewrite Z.gtb_ltb; apply Z.ltb_ge; lia).
    rewrite C. eexists. split; [reflexivity|].
    cbn [g_timedelay g_localtime]. split; [reflexivity|]. split; lia.
  - destruct (delay_wait_total (t + ncount) (Z.to_nat ncount) s1)
      as (fuel & s' & F & F1 & F2);
      cbn [s1 set_g_timedelay g_timedelay g_localtime]; try lia.
    exists fuel, s'. split; [exact F|]. split; [exact F1|]. split; lia.
Qed.

(** *** The main loop *)

Lemma frame_poll_fields (b : bool) n (s : state) :
  let s' := if b
            then if negb (enet_rxframe_size_get env n (passes s) =? 0)
                 then lwip_frame_recv env n s else s
            else s in
  same_timers api (net s) (net s') /\ g_localtime s' = g_localtime s /\
  reads s' = reads s /\ passes s' = passes s.
Proof.
  cbv zeta.
  destruct b; [destruct (negb (enet_rxframe_size_get env n (passes s) =? 0))|];
    repeat split.
Qed.

Lemma main_pass_check (s : state) :
  TIMEOUT_CHECK_USE_LWIP mcfg = false ->
  let t := ticked (systick env (reads s)) (g_localtime s) in
  exists x,
    same_timers api (net s) x /\
    net (main_pass cfg mcfg env s) = lwip_timeouts_check api cfg t x /\
    g_localtime (main_pass cfg mcfg env s) = t /\
    reads (main_pass cfg mcfg env s) = S (reads s).
Proof.
  intros H. cbv zeta. unfold main_pass, lwip_frame_recv0, lwip_frame_recv1.
  rewrite H.
  destruct (frame_poll_fields (USE_ENET0 cfg && negb (USE_ENET_INTERRUPT mcfg))
              g_mynetif0 s) as (A1 & A2 & A3 & A4).
  set (s1 := if USE_ENET0 cfg && negb (USE_ENET_INTERRUPT mcfg) then _ else _) in *.
  destruct (frame_poll_fields (USE_ENET1 cfg && negb (USE_ENET_INTERRUPT mcfg))
              g_mynetif1 s1) as (B1 & B2 & B3 & B4).
  set (s2 := if USE_ENET1 cfg && negb (USE_ENET_INTERRUPT mcfg) then _ else _) in *.
  rewrite read_g_localtime_spec.
  cbn [on_net next_pass net g_localtime g_timedelay reads passes calls].
  exists (net s2). rewrite B2, A2, B3, A3.
  split; [exact (same_timers_trans api _ _ _ A1 B1)|]. repeat split.
Qed.

Lemma on_time_step tm u dt :
  0 <= u -> u mod 10 = 0 -> dt = 0 \/ dt = 10 ->
  let i := timer_interval tm in
  (i <= u - i * (u / i) + dt ->
   (u + dt) / i = u / i + 1 /\ u + dt = i * (u / i + 1)) /\
  (u - i * (u / i) + dt < i -> (u + dt) / i = u / i).
Proof.
  intros U M D. cbv zeta.
  destruct tm; cbn [timer_interval];
    unfold TCP_TMR_INTERVAL, ARP_TMR_INTERVAL, DHCP_FINE_TIMER_MSECS,
      DHCP_COARSE_TIMER_MSECS;
    Z.div_mod_to_equations; lia.
Qed.

(** X23: in the main loop every timer runs exactly on time.  In the build
    that calls [lwip_timeouts_check] from the main loop, while the loop
    passes at least once per SysTick period and [g_localtime] has not
    wrapped, a compiled timer that is not yet due on entry has been called
    once for every full interval that [g_localtime] has moved past the
    timer's recorded time, and its recorded time is that of the last
    interval boundary; from reset, [g_localtime / interval] calls. *)
Theorem X23_main_loop_timers_on_time tm n (s : state) :
  TIMEOUT_CHECK_USE_LWIP mcfg = false ->
  timer_compiled cfg tm = true ->
  let r := timer_recorded tm (net s) in
  0 <= r <= g_localtime s ->
  g_localtime s < r + timer_interval tm ->
  (g_localtime s - r) mod 10 = 0 ->
  g_localtime s + 10 * Z.of_nat n < 4294967296 ->
  let s' := main_loop cfg mcfg env n s in
  let q := (g_localtime s' - r) / timer_interval tm in
  count (timer_call tm) (log (net s')) =
    (count (timer_call tm) (log (net s)) + Z.to_nat q)%nat /\
  timer_recorded tm (net s') = r + timer_interval tm * q.
Proof.
  intros H Hc. cbv zeta. intros R T M W.
  pose proof (interval_positive tm) as Ipos.
  set (r := timer_recorded tm (net s)) in *.
  set (i := timer_interval tm) in *.
  assert (Inv : g_localtime s <= g_localtime (main_loop cfg mcfg env n s)
                  <= g_localtime s + 10 * Z.of_nat n /\
                (g_localtime (main_loop cfg mcfg env n s) - r) mod 10 = 0 /\
                count (timer_call tm) (log (net (main_loop cfg mcfg env n s))) =
                  (count (timer_call tm) (log (net s))
                   + Z.to_nat ((g_localtime (main_loop cfg mcfg env n s) - r) / i))%nat /\
                timer_recorded tm (net (main_loop cfg mcfg env n s)) =
                  r + i * ((g_localtime (main_loop cfg mcfg env n s) - r) / i));
    [|destruct Inv as (_ & _ & A & B); split; assumption].
  induction n as [|n IH].
  - unfold main_loop. change (Nat.iter 0 (main_pass cfg mcfg env) s) with s.
    assert (Q : (g_localtime s - r) / i = 0) by (apply Z.div_small; lia).
    rewrite Q. split; [lia|]. split; [exact M|]. split; [|fold r]; lia.
  - destruct (IH ltac:(lia)) as (I1 & I2 & I3 & I4). clear IH.
    unfold main_loop in *. rewrite Nat.iter_succ.
    set (x := Nat.iter n (main_pass cfg mcfg env) s) in *.
    destruct (main_pass_check x H) as (y & Y & P1 & P2 & _). cbv zeta in *.
    rewrite P1, P2.
    set (t := g_localtime x) in *.
    pose proof (one_tick (reads x)) as O.
    assert (K : exists dt, (dt = 0 \/ dt = 10) /\
                  ticked (systick env (reads x)) t = t + dt).
    { destruct (systick env (reads x)) as [|[|k]]; [| |lia].
      - exists 0. split; [left; reflexivity|]. cbn. lia.
      - exists 10. split; [right; reflexivity|].
        rewrite ticked_no_wrap by lia. reflexivity. }
    destruct K as (dt & Hdt & ->).
    destruct (check_effect api cfg tm (t + dt) y) as [E1 E2].
    assert (Ry : timer_recorded tm y = r + i * ((t - r) / i)).
    { rewrite <- I4. destruct Y as (Y1 & Y2 & Y3 & Y4 & _).
      destruct tm; cbn [timer_recorded]; assumption. }
    assert (Cy : count (timer_call tm) (log y) =
                 count (timer_call tm) (log (net x))).
    { destruct Y as (_ & _ & _ & _ & Y5). apply Y5, timer_call_is_timer. }
    rewrite E1, E2, Ry, Cy, I3. unfold fires. rewrite Hc, Ry. cbn [andb].
    fold i.
    destruct (on_time_step tm (t - r) dt ltac:(lia) I2 Hdt) as [S1 S2].
    cbv zeta in S1, S2. fold i in S1, S2.
    assert (Q0 : 0 <= (t - r) / i) by (apply Z.div_pos; lia).
    assert (Rem : 0 <= (t - r) - i * ((t - r) / i) < i).
    { pose proof (Z.mod_pos_bound (t - r) i Ipos) as Mb.
      rewrite Z.mod_eq in Mb by lia. exact Mb. }
    assert (M' : (t + dt - r) mod 10 = 0).
    { destruct Hdt as [->| ->]; [rewrite Z.add_0_r; exact I2|].
      replace (t + 10 - r) with (t - r + 1 * 10) by lia.
      rewrite Z.mod_add by lia. exact I2. }
    replace (t + dt - r) with (t - r + dt) in * by lia.
    assert (Imax : i <= 60000) by (subst i; destruct tm; discriminate).
    unfold elapsed, uint32.
    replace (t + dt - (r + i * ((t - r) / i)))
      with (t - r - i * ((t - r) / i) + dt) by lia.
    assert (Small : 0 <= t - r - i * ((t - r) / i) + dt < 4294967296).
    { clear - Rem Hdt Imax. clearbody i r t. destruct Hdt; subst dt; lia. }
    rewrite (Z.mod_small _ 4294967296) by exact Small.
    destruct (t - r - i * ((t - r) / i) + dt >=? i) eqn:F.
    + apply Z.geb_le in F. destruct (S1 F) as [S3 S4].
      rewrite S3. split; [lia|]. split; [exact M'|]. split; lia.
    + rewrite Z.geb_leb in F. apply Z.leb_gt in F.
      rewrite (S2 F). split; [lia|]. split; [exact M'|]. split; lia.
Qed.


End Ticking.

End Facts.

Lemma toy_env_one_tick : forall i, (systick toy_env i <= 1)%nat.
Proof. intros i. cbn [systick toy_env]. destruct (Nat.even i); lia. Qed.

Lemma toy_env_ticking : forall i, exists j, (i <= j)%nat /\ systick toy_env j = 1%nat.
Proof.
  intros i. destruct (Nat.even i) eqn:E.
  - exists (S i). split; [lia|]. cbn [systick toy_env].
    rewrite Nat.even_succ, <- Nat.negb_even, E. reflexivity.
  - exists i. split; [lia|]. cbn [systick toy_env]. rewrite E. reflexivity.
Qed.

Lemma X21_delay_10ms_deadline_wraps_witness :
  exists s',
    delay_10ms toy_env 1 20 toy_late = Some s' /\
    reads s' = 3%nat /\ g_timedelay s' = 10 /\ g_localtime s' = 4294967286.
Proof.
  apply (X21_delay_10ms_deadline_wraps toy_lwip toy_env 0 20 toy_late);
    vm_compute; intuition discriminate.
Defined.

Lemma X22_delay_10ms_returns_on_time_witness :
  exists fuel s',
    delay_10ms toy_env fuel 25 toy_reset = Some s' /\
    g_timedelay s' = 25 /\ 25 <= g_localtime s' < 35.
Proof.
  destruct (X22_delay_10ms_returns_on_time toy_lwip toy_env
              toy_env_one_tick toy_env_ticking 25 toy_reset)
    as (fuel & s' & A & B & C & D);
    [vm_compute; intuition discriminate | lia | vm_compute; reflexivity |].
  exists fuel, s'. split; [exact A|]. split; [exact B|].
  split; [apply C | apply D; reflexivity].
Defined.

(** The toy board after sixty passes of the main loop. *)
Definition toy_sixty : state toy_lwip :=
  Eval vm_compute in main_loop toy_cfg toy_mcfg toy_env 60 toy_reset.

Lemma X23_main_loop_timers_on_time_witness :
  g_localtime toy_sixty = 300 /\
  count call_tcp_tmr (log (net toy_sixty)) = 1%nat /\
  tcpcurtime (net toy_sixty) = 250.
Proof.
  assert (E : main_loop toy_cfg toy_mcfg toy_env 60 toy_reset = toy_sixty)
    by (vm_compute; reflexivity).
  split; [reflexivity|].
  pose proof (X23_main_loop_timers_on_time toy_lwip toy_cfg toy_mcfg toy_env
                toy_env_one_tick timer_tcp 60 toy_reset) as P.
  cbv zeta in P. rewrite E in P.
  apply P; vm_compute; try reflexivity; intuition discriminate.
Defined.

End MainFacts.
